(** * The RtAudio engine driver of Carla (source/backend/engine/CarlaEngineRtAudio.cpp)

    A shallow embedding of class [CarlaEngineRtAudio]: the stream life cycle
    ([init], [close]), the real-time audio callback
    ([handleAudioProcessCallback]), the MIDI input callback
    ([handleMidiCallback]), the rack patchbay refresh ([patchbayRefreshRack])
    and the MIDI port registry ([connectRackMidiInPort] and friends).

    Conventions.
    - [uint], [uint32_t] and [uint64_t] values are integers of [Z] with the
      wrap-around of every arithmetic operation written out ([u32], [u64]).
    - [double] values are the binary64 floats of the kernel ([float]).
    - A C string is a [string] holding the bytes before the terminator; a
      pointer that the code tests against [nullptr] is an [option].
    - Calls into RtAudio, RtMidi and the host callback are recorded, in
      order, in the [trace] of the engine; what the native libraries answer
      is read from a [Native] record.
    - Code of Carla declared outside this translation unit (the base class
      [CarlaEngine], the rack graph helpers, [EngineEvent::fillFromMidiData],
      constants such as [STR_MAX]) is a field of the class [Externals]. *)

From Stdlib Require Import ZArith List String Ascii Bool Lia Floats.
From Stdlib Require Import Sorted Permutation DecimalString.
Import ListNotations.
Open Scope Z_scope.

(** ** Machine integers *)

Definition u32 (z : Z) : Z := z mod 2 ^ 32.
Definition u64 (z : Z) : Z := z mod 2 ^ 64.

(** ** Doubles *)

(** The integer part of a double, when it has one (NaN and the infinities
    have none). *)
Definition double_trunc (x : float) : option Z :=
  match Prim2SF x with
  | S754_zero _ => Some 0
  | S754_finite s m e =>
      let mag := Z.shiftl (Z.pos m) e in
      Some (if s then - mag else mag)
  | S754_infinity _ | S754_nan => None
  end.

(** [uint64_t(x)].  C++ leaves the conversion undefined when the truncated
    value does not fit (or [x] is NaN); the model yields 0 there.  In
    [handleMidiCallback] the operand is a clamped fraction times a 32-bit
    buffer size, so only a NaN time stamp can get there. *)
Definition double_to_u64 (x : float) : Z :=
  match double_trunc x with
  | Some z => if (0 <=? z) && (z <? 2 ^ 64) then z else 0
  | None => 0
  end.

(** The literal [0.95]: the double nearest to it. *)
Definition double_0_95 : float := 0x1.e666666666666p-1%float.

(** [(double)n] for an unsigned 32-bit [n] (exact). *)
Definition double_of_uint (n : Z) : float := PrimFloat.of_uint63 (Uint63.of_Z n).

(** ** Strings *)

(** [strncpy(dst, src, n); dst[n] = 0]: the first [n] bytes of [src]. *)
Definition strncpy (src : string) (n : nat) : string := String.substring 0 n src.

(** ** Results of native calls that may throw *)

Inductive Result (A : Type) : Type :=
| Ok (a : A)
| Threw (what : string).
Arguments Ok {A} a.
Arguments Threw {A} what.

(** ** RtAudio and RtMidi *)

Module RtAudio.
Inductive Api :=
| UNSPECIFIED | LINUX_ALSA | LINUX_PULSE | LINUX_OSS | UNIX_JACK
| MACOSX_CORE | WINDOWS_ASIO | WINDOWS_DS | RTAUDIO_DUMMY.

Record DeviceInfo := {
  probed : bool;
  name : string;
  outputChannels : Z;
  inputChannels : Z
}.

Record StreamParameters := { deviceId : Z; nChannels : Z }.

(** The part of an RtAudio object the driver reads back. *)
Record t := {
  currentApi : Api;
  streamOpen : bool;
  streamRunning : bool;
  streamSampleRate : Z
}.
End RtAudio.

Module RtMidi.
Inductive Api :=
| UNSPECIFIED | MACOSX_CORE | LINUX_ALSA | UNIX_JACK | WINDOWS_MM | RTMIDI_DUMMY.
End RtMidi.

Inductive TargetOS := CARLA_OS_WIN | CARLA_OS_MAC | CARLA_OS_LINUX | CARLA_OS_OTHER.

Definition getMatchedAudioMidiAPI (os : TargetOS) (rtApi : RtAudio.Api) : RtMidi.Api :=
  match rtApi with
  | RtAudio.UNSPECIFIED => RtMidi.UNSPECIFIED
  | RtAudio.LINUX_ALSA | RtAudio.LINUX_OSS | RtAudio.LINUX_PULSE => RtMidi.LINUX_ALSA
  | RtAudio.UNIX_JACK =>
      match os with
      | CARLA_OS_WIN => RtMidi.WINDOWS_MM
      | CARLA_OS_MAC => RtMidi.MACOSX_CORE
      | CARLA_OS_LINUX => RtMidi.LINUX_ALSA
      | CARLA_OS_OTHER => RtMidi.UNIX_JACK
      end
  | RtAudio.MACOSX_CORE => RtMidi.MACOSX_CORE
  | RtAudio.WINDOWS_ASIO | RtAudio.WINDOWS_DS => RtMidi.WINDOWS_MM
  | RtAudio.RTAUDIO_DUMMY => RtMidi.RTMIDI_DUMMY
  end.

(** What the native libraries answer during one call of the driver. *)
Record Native := {
  os : TargetOS;
  devices : list RtAudio.DeviceInfo;          (* getDeviceCount, getDeviceInfo *)
  defaultInputDevice : Z;
  defaultOutputDevice : Z;
  (* openStream: throws, or opens and writes the buffer size it settled on
     back through its [bufferFrames] argument; the second component is the
     rate getStreamSampleRate reports afterwards *)
  openStream : Result (Z * Z);
  startStream : Result unit;
  stopStream : Result unit;
  midiInPorts : RtMidi.Api -> list string;    (* RtMidiIn::getPortName, by index *)
  midiOutPorts : RtMidi.Api -> list string;   (* RtMidiOut::getPortName, by index *)
  openPort : Result unit                      (* RtMidi{In,Out}::openPort *)
}.

Definition getDeviceInfo (n : Native) (i : Z) : RtAudio.DeviceInfo :=
  nth (Z.to_nat i) (devices n)
      {| RtAudio.probed := false; RtAudio.name := ""%string;
         RtAudio.outputChannels := 0; RtAudio.inputChannels := 0 |}.

(** ** Patchbay data (CarlaEngineGraph.hpp) *)

Inductive RackGraphGroup :=
| RACK_GRAPH_GROUP_CARLA | RACK_GRAPH_GROUP_AUDIO_IN | RACK_GRAPH_GROUP_AUDIO_OUT
| RACK_GRAPH_GROUP_MIDI_IN | RACK_GRAPH_GROUP_MIDI_OUT.

Inductive RackGraphCarlaPort :=
| RACK_GRAPH_CARLA_PORT_AUDIO_IN1 | RACK_GRAPH_CARLA_PORT_AUDIO_IN2
| RACK_GRAPH_CARLA_PORT_AUDIO_OUT1 | RACK_GRAPH_CARLA_PORT_AUDIO_OUT2
| RACK_GRAPH_CARLA_PORT_MIDI_IN | RACK_GRAPH_CARLA_PORT_MIDI_OUT.

(** A port number: one of Carla's own enumerators (their numeric values are
    declared outside this unit and kept symbolic) or a hardware index. *)
Inductive PortRef :=
| CarlaPort (p : RackGraphCarlaPort)
| HwPort (i : Z).

Record PortNameToId := {
  pn_group : RackGraphGroup;
  pn_port : Z;
  pn_name : string;
  pn_fullName : string
}.

Record ConnectionToId := {
  id : Z;
  groupA : RackGraphGroup;
  portA : PortRef;
  groupB : RackGraphGroup;
  portB : PortRef
}.

Record Connections := { lastId : Z; list_ : list ConnectionToId }.

Record RackGraph := {
  connections : Connections;
  connectedIn1 : list Z;
  connectedIn2 : list Z;
  connectedOut1 : list Z;
  connectedOut2 : list Z;
  midi_ins : list PortNameToId;
  midi_outs : list PortNameToId
}.

Inductive PortFlags :=
| AUDIO_OUTPUT   (* PATCHBAY_PORT_TYPE_AUDIO *)
| AUDIO_INPUT    (* PATCHBAY_PORT_TYPE_AUDIO|PATCHBAY_PORT_IS_INPUT *)
| MIDI_OUTPUT    (* PATCHBAY_PORT_TYPE_MIDI *)
| MIDI_INPUT.    (* PATCHBAY_PORT_TYPE_MIDI|PATCHBAY_PORT_IS_INPUT *)

Inductive PatchbayIcon := PATCHBAY_ICON_CARLA | PATCHBAY_ICON_HARDWARE.

(** ** Effects *)

Inductive Effect :=
(* host callback *)
| CLIENT_ADDED (group : RackGraphGroup) (icon : PatchbayIcon) (name : string)
| PORT_ADDED (group : RackGraphGroup) (port : PortRef) (flags : PortFlags) (name : string)
| CONNECTION_ADDED (c : ConnectionToId)
(* diagnostics *)
| Stdout_NoDeviceSet (ins outs : Z)
| Stderr_MidiEventInFuture (slotTime frame : Z)
| SafeAssertFailed
(* RtAudio *)
| OpenStream (oParams : RtAudio.StreamParameters) (iParams : option RtAudio.StreamParameters)
             (sampleRate bufferFrames : Z) (alsaUseDefault : bool) (streamName : string)
| StartStream
| StopStream
| CloseStream
(* RtMidi; [h] identifies the object *)
| NewRtMidiIn (h : nat) (api : RtMidi.Api) (clientName : string)
| NewRtMidiOut (h : nat) (api : RtMidi.Api) (clientName : string)
| IgnoreTypes (h : nat)
| SetCallback (h : nat)
| OpenPort (h : nat) (index : Z) (portName : string)
| CancelCallback (h : nat)
| DeleteRtMidi (h : nat).

(** ** The engine *)

Inductive EngineProcessMode :=
| ENGINE_PROCESS_MODE_SINGLE_CLIENT | ENGINE_PROCESS_MODE_MULTIPLE_CLIENTS
| ENGINE_PROCESS_MODE_CONTINUOUS_RACK | ENGINE_PROCESS_MODE_PATCHBAY
| ENGINE_PROCESS_MODE_BRIDGE.

Record EngineOptions := {
  processMode : EngineProcessMode;
  audioDevice : option string;
  audioBufferSize : Z;
  audioSampleRate : Z
}.

Record MidiPort := {
  rtmidi : nat;          (* the RtMidi object the entry owns *)
  name_ : string         (* char name[STR_MAX+1] *)
}.

Record RtMidiEvent := {
  time : Z;              (* uint64_t *)
  size : Z;              (* uint8_t *)
  data : list Z          (* uint8_t data[EngineMidiEvent::kDataSize] *)
}.

Record RtMidiEvents := {
  data_ : list RtMidiEvent;          (* RtLinkedList data *)
  dataPending : list RtMidiEvent     (* RtLinkedList dataPending *)
}.

Record EngineEventOf (P : Type) := { ev_time : Z; ev_payload : P }.
Arguments ev_time {P} _.
Arguments ev_payload {P} _.
Arguments Build_EngineEventOf {P} _ _.

(** What this unit uses and does not define. *)
Class Externals := {
  (* CarlaEngine.hpp: an EngineEvent is a [time] and, behind it, the type,
     channel and control/MIDI payload that only fillFromMidiData writes *)
  Payload : Type;
  zeroPayload : Payload;
  fillFromMidiData : Z -> list Z -> Payload -> Payload;
  kMaxEngineEventInternalCount : Z;
  kDataSize : Z;                       (* EngineMidiEvent::kDataSize *)
  (* CarlaDefines.h *)
  STR_MAX : nat;
  (* audio samples; 0.0f *)
  Sample : Type;
  silence : Sample;
  (* RtLinkedList.hpp: whether the pool of fMidiInEvents, with so many
     nodes in use, hands out one more *)
  pool_allocate : nat -> bool;
  (* the state of the base class CarlaEngine that this unit never reads *)
  Base : Type;
  (* CarlaEngine::init(clientName), on the rack graph and the rest *)
  CarlaEngine_init : string -> RackGraph -> Base -> RackGraph * Base;
  (* CarlaEngine::close(), on the last error, the rack graph and the rest *)
  CarlaEngine_close : string -> RackGraph -> Base -> bool * (string * RackGraph * Base);
  (* pData->audio.create(bufferSize) *)
  audio_create : Z -> Base -> Base;
  runPendingRtEvents : Base -> Base;
  (* pData->processRackFull(inBuf, inCount, outBuf, outCount, nframes, false),
     reading events.in and the rack graph; yields what it leaves in outBuf *)
  processRackFull : list (EngineEventOf Payload) -> RackGraph -> Base ->
                    option (list Sample) -> Z -> list Sample -> Z -> Z ->
                    Base * list Sample;
  (* rack->connections.clear() *)
  connections_clear : Connections -> Connections;
  (* rack->midi.getPortId(isInput, portName), reading midi.ins and midi.outs *)
  getPortId : bool -> list PortNameToId -> list PortNameToId -> string -> Z
}.

Section Engine.
Context {X : Externals}.

Definition EngineEvent : Type := EngineEventOf Payload.

Record Engine := {
  (* pData *)
  options : EngineOptions;
  name : string;
  bufferSize : Z;
  sampleRate : Z;        (* a double holding the 32-bit rate RtAudio reports *)
  timeInfo_frame : Z;
  audio_isReady : bool;
  audio_inCount : Z;
  audio_outCount : Z;
  events_in : list EngineEvent;
  graph_isRack : bool;
  graph_rack : RackGraph;
  lastError : string;
  base : Base;
  (* CarlaEngineRtAudio *)
  fAudio : RtAudio.t;
  fAudioInCount : Z;
  fAudioOutCount : Z;
  fLastEventTime : Z;
  fDeviceName : string;
  fUsedMidiPorts : list PortNameToId;
  fMidiIns : list MidiPort;
  fMidiOuts : list MidiPort;
  fMidiInEvents : RtMidiEvents;
  (* the world: calls made so far, RtMidi objects alive *)
  trace : list Effect;
  nextHandle : nat;
  liveHandles : list nat
}.

(** Assignments to single fields. *)
Definition set_bufferSize v (e : Engine) : Engine :=
  Build_Engine (options e) (name e) v (sampleRate e) (timeInfo_frame e) (audio_isReady e)
    (audio_inCount e) (audio_outCount e) (events_in e) (graph_isRack e) (graph_rack e)
    (lastError e) (base e) (fAudio e) (fAudioInCount e) (fAudioOutCount e)
    (fLastEventTime e) (fDeviceName e) (fUsedMidiPorts e) (fMidiIns e) (fMidiOuts e)
    (fMidiInEvents e) (trace e) (nextHandle e) (liveHandles e).

Definition set_sampleRate v (e : Engine) : Engine :=
  Build_Engine (options e) (name e) (bufferSize e) v (timeInfo_frame e) (audio_isReady e)
    (audio_inCount e) (audio_outCount e) (events_in e) (graph_isRack e) (graph_rack e)
    (lastError e) (base e) (fAudio e) (fAudioInCount e) (fAudioOutCount e)
    (fLastEventTime e) (fDeviceName e) (fUsedMidiPorts e) (fMidiIns e) (fMidiOuts e)
    (fMidiInEvents e) (trace e) (nextHandle e) (liveHandles e).

Definition set_timeInfo_frame v (e : Engine) : Engine :=
  Build_Engine (options e) (name e) (bufferSize e) (sampleRate e) v (audio_isReady e)
    (audio_inCount e) (audio_outCount e) (events_in e) (graph_isRack e) (graph_rack e)
    (lastError e) (base e) (fAudio e) (fAudioInCount e) (fAudioOutCount e)
    (fLastEventTime e) (fDeviceName e) (fUsedMidiPorts e) (fMidiIns e) (fMidiOuts e)
    (fMidiInEvents e) (trace e) (nextHandle e) (liveHandles e).

Definition set_audio_isReady v (e : Engine) : Engine :=
  Build_Engine (options e) (name e) (bufferSize e) (sampleRate e) (timeInfo_frame e) v
    (audio_inCount e) (audio_outCount e) (events_in e) (graph_isRack e) (graph_rack e)
    (lastError e) (base e) (fAudio e) (fAudioInCount e) (fAudioOutCount e)
    (fLastEventTime e) (fDeviceName e) (fUsedMidiPorts e) (fMidiIns e) (fMidiOuts e)
    (fMidiInEvents e) (trace e) (nextHandle e) (liveHandles e).

Definition set_audio_inCount v (e : Engine) : Engine :=
  Build_Engine (options e) (name e) (bufferSize e) (sampleRate e) (timeInfo_frame e)
    (audio_isReady e) v (audio_outCount e) (events_in e) (graph_isRack e) (graph_rack e)
    (lastError e) (base e) (fAudio e) (fAudioInCount e) (fAudioOutCount e)
    (fLastEventTime e) (fDeviceName e) (fUsedMidiPorts e) (fMidiIns e) (fMidiOuts e)
    (fMidiInEvents e) (trace e) (nextHandle e) (liveHandles e).

Definition set_audio_outCount v (e : Engine) : Engine :=
  Build_Engine (options e) (name e) (bufferSize e) (sampleRate e) (timeInfo_frame e)
    (audio_isReady e) (audio_inCount e) v (events_in e) (graph_isRack e) (graph_rack e)
    (lastError e) (base e) (fAudio e) (fAudioInCount e) (fAudioOutCount e)
    (fLastEventTime e) (fDeviceName e) (fUsedMidiPorts e) (fMidiIns e) (fMidiOuts e)
    (fMidiInEvents e) (trace e) (nextHandle e) (liveHandles e).

Definition set_events_in v (e : Engine) : Engine :=
  Build_Engine (options e) (name e) (bufferSize e) (sampleRate e) (timeInfo_frame e)
    (audio_isReady e) (audio_inCount e) (audio_outCount e) v (graph_isRack e)
    (graph_rack e) (lastError e) (base e) (fAudio e) (fAudioInCount e) (fAudioOutCount e)
    (fLastEventTime e) (fDeviceName e) (fUsedMidiPorts e) (fMidiIns e) (fMidiOuts e)
    (fMidiInEvents e) (trace e) (nextHandle e) (liveHandles e).

Definition set_graph_rack v (e : Engine) : Engine :=
  Build_Engine (options e) (name e) (bufferSize e) (sampleRate e) (timeInfo_frame e)
    (audio_isReady e) (audio_inCount e) (audio_outCount e) (events_in e) (graph_isRack e) v
    (lastError e) (base e) (fAudio e) (fAudioInCount e) (fAudioOutCount e)
    (fLastEventTime e) (fDeviceName e) (fUsedMidiPorts e) (fMidiIns e) (fMidiOuts e)
    (fMidiInEvents e) (trace e) (nextHandle e) (liveHandles e).

Definition set_lastError v (e : Engine) : Engine :=
  Build_Engine (options e) (name e) (bufferSize e) (sampleRate e) (timeInfo_frame e)
    (audio_isReady e) (audio_inCount e) (audio_outCount e) (events_in e) (graph_isRack e)
    (graph_rack e) v (base e) (fAudio e) (fAudioInCount e) (fAudioOutCount e)
    (fLastEventTime e) (fDeviceName e) (fUsedMidiPorts e) (fMidiIns e) (fMidiOuts e)
    (fMidiInEvents e) (trace e) (nextHandle e) (liveHandles e).

Definition set_base v (e : Engine) : Engine :=
  Build_Engine (options e) (name e) (bufferSize e) (sampleRate e) (timeInfo_frame e)
    (audio_isReady e) (audio_inCount e) (audio_outCount e) (events_in e) (graph_isRack e)
    (graph_rack e) (lastError e) v (fAudio e) (fAudioInCount e) (fAudioOutCount e)
    (fLastEventTime e) (fDeviceName e) (fUsedMidiPorts e) (fMidiIns e) (fMidiOuts e)
    (fMidiInEvents e) (trace e) (nextHandle e) (liveHandles e).

Definition set_fAudio v (e : Engine) : Engine :=
  Build_Engine (options e) (name e) (bufferSize e) (sampleRate e) (timeInfo_frame e)
    (audio_isReady e) (audio_inCount e) (audio_outCount e) (events_in e) (graph_isRack e)
    (graph_rack e) (lastError e) (base e) v (fAudioInCount e) (fAudioOutCount e)
    (fLastEventTime e) (fDeviceName e) (fUsedMidiPorts e) (fMidiIns e) (fMidiOuts e)
    (fMidiInEvents e) (trace e) (nextHandle e) (liveHandles e).

Definition set_fAudioInCount v (e : Engine) : Engine :=
  Build_Engine (options e) (name e) (bufferSize e) (sampleRate e) (timeInfo_frame e)
    (audio_isReady e) (audio_inCount e) (audio_outCount e) (events_in e) (graph_isRack e)
    (graph_rack e) (lastError e) (base e) (fAudio e) v (fAudioOutCount e)
    (fLastEventTime e) (fDeviceName e) (fUsedMidiPorts e) (fMidiIns e) (fMidiOuts e)
    (fMidiInEvents e) (trace e) (nextHandle e) (liveHandles e).

Definition set_fAudioOutCount v (e : Engine) : Engine :=
  Build_Engine (options e) (name e) (bufferSize e) (sampleRate e) (timeInfo_frame e)
    (audio_isReady e) (audio_inCount e) (audio_outCount e) (events_in e) (graph_isRack e)
    (graph_rack e) (lastError e) (base e) (fAudio e) (fAudioInCount e) v (fLastEventTime e)
    (fDeviceName e) (fUsedMidiPorts e) (fMidiIns e) (fMidiOuts e) (fMidiInEvents e)
    (trace e) (nextHandle e) (liveHandles e).

Definition set_fLastEventTime v (e : Engine) : Engine :=
  Build_Engine (options e) (name e) (bufferSize e) (sampleRate e) (timeInfo_frame e)
    (audio_isReady e) (audio_inCount e) (audio_outCount e) (events_in e) (graph_isRack e)
    (graph_rack e) (lastError e) (base e) (fAudio e) (fAudioInCount e) (fAudioOutCount e) v
    (fDeviceName e) (fUsedMidiPorts e) (fMidiIns e) (fMidiOuts e) (fMidiInEvents e)
    (trace e) (nextHandle e) (liveHandles e).

Definition set_fDeviceName v (e : Engine) : Engine :=
  Build_Engine (options e) (name e) (bufferSize e) (sampleRate e) (timeInfo_frame e)
    (audio_isReady e) (audio_inCount e) (audio_outCount e) (events_in e) (graph_isRack e)
    (graph_rack e) (lastError e) (base e) (fAudio e) (fAudioInCount e) (fAudioOutCount e)
    (fLastEventTime e) v (fUsedMidiPorts e) (fMidiIns e) (fMidiOuts e) (fMidiInEvents e)
    (trace e) (nextHandle e) (liveHandles e).

Definition set_fUsedMidiPorts v (e : Engine) : Engine :=
  Build_Engine (options e) (name e) (bufferSize e) (sampleRate e) (timeInfo_frame e)
    (audio_isReady e) (audio_inCount e) (audio_outCount e) (events_in e) (graph_isRack e)
    (graph_rack e) (lastError e) (base e) (fAudio e) (fAudioInCount e) (fAudioOutCount e)
    (fLastEventTime e) (fDeviceName e) v (fMidiIns e) (fMidiOuts e) (fMidiInEvents e)
    (trace e) (nextHandle e) (liveHandles e).

Definition set_fMidiIns v (e : Engine) : Engine :=
  Build_Engine (options e) (name e) (bufferSize e) (sampleRate e) (timeInfo_frame e)
    (audio_isReady e) (audio_inCount e) (audio_outCount e) (events_in e) (graph_isRack e)
    (graph_rack e) (lastError e) (base e) (fAudio e) (fAudioInCount e) (fAudioOutCount e)
    (fLastEventTime e) (fDeviceName e) (fUsedMidiPorts e) v (fMidiOuts e) (fMidiInEvents e)
    (trace e) (nextHandle e) (liveHandles e).

Definition set_fMidiOuts v (e : Engine) : Engine :=
  Build_Engine (options e) (name e) (bufferSize e) (sampleRate e) (timeInfo_frame e)
    (audio_isReady e) (audio_inCount e) (audio_outCount e) (events_in e) (graph_isRack e)
    (graph_rack e) (lastError e) (base e) (fAudio e) (fAudioInCount e) (fAudioOutCount e)
    (fLastEventTime e) (fDeviceName e) (fUsedMidiPorts e) (fMidiIns e) v (fMidiInEvents e)
    (trace e) (nextHandle e) (liveHandles e).

Definition set_fMidiInEvents v (e : Engine) : Engine :=
  Build_Engine (options e) (name e) (bufferSize e) (sampleRate e) (timeInfo_frame e)
    (audio_isReady e) (audio_inCount e) (audio_outCount e) (events_in e) (graph_isRack e)
    (graph_rack e) (lastError e) (base e) (fAudio e) (fAudioInCount e) (fAudioOutCount e)
    (fLastEventTime e) (fDeviceName e) (fUsedMidiPorts e) (fMidiIns e) (fMidiOuts e) v
    (trace e) (nextHandle e) (liveHandles e).

Definition set_trace v (e : Engine) : Engine :=
  Build_Engine (options e) (name e) (bufferSize e) (sampleRate e) (timeInfo_frame e)
    (audio_isReady e) (audio_inCount e) (audio_outCount e) (events_in e) (graph_isRack e)
    (graph_rack e) (lastError e) (base e) (fAudio e) (fAudioInCount e) (fAudioOutCount e)
    (fLastEventTime e) (fDeviceName e) (fUsedMidiPorts e) (fMidiIns e) (fMidiOuts e)
    (fMidiInEvents e) v (nextHandle e) (liveHandles e).

Definition set_nextHandle v (e : Engine) : Engine :=
  Build_Engine (options e) (name e) (bufferSize e) (sampleRate e) (timeInfo_frame e)
    (audio_isReady e) (audio_inCount e) (audio_outCount e) (events_in e) (graph_isRack e)
    (graph_rack e) (lastError e) (base e) (fAudio e) (fAudioInCount e) (fAudioOutCount e)
    (fLastEventTime e) (fDeviceName e) (fUsedMidiPorts e) (fMidiIns e) (fMidiOuts e)
    (fMidiInEvents e) (trace e) v (liveHandles e).

Definition set_liveHandles v (e : Engine) : Engine :=
  Build_Engine (options e) (name e) (bufferSize e) (sampleRate e) (timeInfo_frame e)
    (audio_isReady e) (audio_inCount e) (audio_outCount e) (events_in e) (graph_isRack e)
    (graph_rack e) (lastError e) (base e) (fAudio e) (fAudioInCount e) (fAudioOutCount e)
    (fLastEventTime e) (fDeviceName e) (fUsedMidiPorts e) (fMidiIns e) (fMidiOuts e)
    (fMidiInEvents e) (trace e) (nextHandle e) v.

Definition emit (ef : Effect) (e : Engine) : Engine := set_trace (trace e ++ [ef]) e.

Definition setLastError (msg : string) (e : Engine) : Engine := set_lastError msg e.

(** [CARLA_SAFE_ASSERT]: a failed assertion prints and goes on. *)
Definition carla_safe_assert (e : Engine) : Engine := emit SafeAssertFailed e.

(** ** The MIDI input callback *)

(** [timeStamp /= 2] and the two comparisons that follow it. *)
Definition normalizeTimeStamp (timeStamp : float) : float :=
  let timeStamp := (timeStamp / 2)%float in
  if (double_0_95 <? timeStamp)%float then double_0_95
  else if (timeStamp <? 0)%float then 0%float
  else timeStamp.

(** [RtMidiEvents::appendNonRT]. *)
Definition appendNonRT (event : RtMidiEvent) (q : RtMidiEvents) : RtMidiEvents :=
  if pool_allocate (List.length (data_ q) + List.length (dataPending q))%nat
  then {| data_ := data_ q; dataPending := dataPending q ++ [event] |}
  else q.

(** The two loops that fill [midiEvent.data]. *)
Definition midiEventData (message : list Z) : list Z :=
  message ++ repeat 0 (Z.to_nat kDataSize - List.length message)%nat.

(** [midiEvent.time] as first computed. *)
Definition midiEventTime (timeStamp : float) (e : Engine) : Z :=
  u64 (timeInfo_frame e
       + double_to_u64 (normalizeTimeStamp timeStamp * double_of_uint (bufferSize e))%float).

Definition handleMidiCallback (timeStamp : float) (message : list Z) (e : Engine) : Engine :=
  if negb (audio_isReady e) then e
  else
    let messageSize := Z.of_nat (List.length message) in
    if (messageSize =? 0) || (messageSize >? kDataSize) then e
    else
      let t := midiEventTime timeStamp e in
      let '(t, e) :=
        if t <? fLastEventTime e then (fLastEventTime e, e)
        else (t, set_fLastEventTime t e) in
      let midiEvent :=
        {| time := t; size := messageSize mod 256; data := midiEventData message |} in
      set_fMidiInEvents (appendNonRT midiEvent (fMidiInEvents e)) e.

(** ** The audio callback *)

Definition zeroEvent : EngineEvent := {| ev_time := 0; ev_payload := zeroPayload |}.

(** [carla_zeroStruct<EngineEvent>(pData->events.in, kMaxEngineEventInternalCount)]. *)
Definition zeroedEvents : list EngineEvent :=
  repeat zeroEvent (Z.to_nat kMaxEngineEventInternalCount).

(** [FLOAT_CLEAR(buf, n)]: the first [n] samples become 0.0f. *)
Definition FLOAT_CLEAR (buf : list Sample) (n : Z) : list Sample :=
  repeat silence (Nat.min (Z.to_nat n) (List.length buf)) ++ skipn (Z.to_nat n) buf.

(** [arr[i] = v]. *)
Definition array_write {A : Type} (i : Z) (v : A) (arr : list A) : list A :=
  if (0 <=? i) && (i <? Z.of_nat (List.length arr))
  then firstn (Z.to_nat i) arr ++ v :: skipn (S (Z.to_nat i)) arr
  else arr.

(** What the loop over [fMidiInEvents.data] has done so far: the array,
    the indices it wrote to (in order) and the diagnostics it printed. *)
Record Translation := {
  tr_events : list EngineEvent;
  tr_writes : list Z;
  tr_diags : list Effect
}.

(** [engineEvent.time] for one MIDI event, with the diagnostic of the
    middle branch. *)
Definition engineEventTime (frame nframes : Z) (midiEvent : RtMidiEvent)
    (engineEvent : EngineEvent) : Z * list Effect :=
  if time midiEvent <? frame then (0, [])
  else if time midiEvent >=? u64 (frame + nframes)
  then (u32 (u32 frame + nframes - 1),
        [Stderr_MidiEventInFuture (ev_time engineEvent) frame])
  else (u32 (u64 (time midiEvent - frame)), []).

(** The body of the [for] loop over [fMidiInEvents.data], started with
    [engineEventIndex]. *)
Fixpoint translateMidiEvents (frame nframes : Z) (evs : list RtMidiEvent)
    (engineEventIndex : Z) (acc : Translation) : Translation :=
  match evs with
  | [] => acc
  | midiEvent :: rest =>
      let engineEvent := nth (Z.to_nat engineEventIndex) (tr_events acc) zeroEvent in
      let '(t, diag) := engineEventTime frame nframes midiEvent engineEvent in
      let filled :=
        {| ev_time := t;
           ev_payload := fillFromMidiData (size midiEvent) (data midiEvent)
                                          (ev_payload engineEvent) |} in
      let acc' :=
        {| tr_events := array_write engineEventIndex filled (tr_events acc);
           tr_writes := tr_writes acc ++ [engineEventIndex];
           tr_diags := tr_diags acc ++ diag |} in
      let engineEventIndex := u32 (engineEventIndex + 1) in
      if engineEventIndex >=? kMaxEngineEventInternalCount then acc'
      else translateMidiEvents frame nframes rest engineEventIndex acc'
  end.

(** [RtMidiEvents::splice]. *)
Definition splice (q : RtMidiEvents) : RtMidiEvents :=
  {| data_ := data_ q ++ dataPending q; dataPending := [] |}.

(** The block guarded by [fMidiInEvents.mutex.tryLock()]. *)
Definition drainMidiInEvents (nframes : Z) (e : Engine) : Engine :=
  let q := splice (fMidiInEvents e) in
  let r := translateMidiEvents (timeInfo_frame e) nframes (data_ q) 0
             {| tr_events := events_in e; tr_writes := []; tr_diags := [] |} in
  let e := set_events_in (tr_events r) e in
  let e := set_trace (trace e ++ tr_diags r) e in
  set_fMidiInEvents {| data_ := []; dataPending := dataPending q |} e.


(** [handleAudioProcessCallback(outputBuffer, inputBuffer, nframes, ...)].
    [tryLock] is what [fMidiInEvents.mutex.tryLock()] answers in this cycle.
    The second component is the output buffer as the call leaves it. *)
Definition handleAudioProcessCallback (outputBuffer inputBuffer : option (list Sample))
    (nframes : Z) (tryLock : bool) (e : Engine) : Engine * option (list Sample) :=
  match outputBuffer with
  | None =>
      let e := carla_safe_assert e in
      (set_base (runPendingRtEvents (base e)) e, None)
  | Some outs =>
      if negb (bufferSize e =? nframes) then
        let e := carla_safe_assert e in
        (set_base (runPendingRtEvents (base e)) e, Some outs)
      else if negb (audio_isReady e) then
        (set_base (runPendingRtEvents (base e)) e, Some outs)
      else
        let outs := FLOAT_CLEAR outs (u32 (nframes * fAudioOutCount e)) in
        let e := set_events_in zeroedEvents e in
        let e := if tryLock then drainMidiInEvents nframes e else e in
        let '(e, outs) :=
          if graph_isRack e then
            let '(b, outs) :=
              processRackFull (events_in e) (graph_rack e) (base e) inputBuffer
                              (fAudioInCount e) outs (fAudioOutCount e) nframes in
            (set_base b e, outs)
          else (e, outs) in
        (set_base (runPendingRtEvents (base e)) e, Some outs)
  end.

(** ** Patchbay *)

Definition dec (n : Z) : string := NilZero.string_of_int (Z.to_int n).

(** [std::snprintf(strBuf, STR_MAX, ...)] keeps [STR_MAX-1] bytes. *)
Definition snprintf (s : string) : string := String.substring 0 (STR_MAX - 1) s.

(** [PortNameToId::setData]. *)
Definition setData (group : RackGraphGroup) (port : Z) (nm fullName : string) : PortNameToId :=
  {| pn_group := group; pn_port := port;
     pn_name := strncpy nm STR_MAX; pn_fullName := strncpy fullName STR_MAX |}.

Definition set_connections (c : Connections) (r : RackGraph) : RackGraph :=
  {| connections := c;
     connectedIn1 := connectedIn1 r; connectedIn2 := connectedIn2 r;
     connectedOut1 := connectedOut1 r; connectedOut2 := connectedOut2 r;
     midi_ins := midi_ins r; midi_outs := midi_outs r |}.

Definition set_midi_ins (l : list PortNameToId) (r : RackGraph) : RackGraph :=
  {| connections := connections r;
     connectedIn1 := connectedIn1 r; connectedIn2 := connectedIn2 r;
     connectedOut1 := connectedOut1 r; connectedOut2 := connectedOut2 r;
     midi_ins := l; midi_outs := midi_outs r |}.

Definition set_midi_outs (l : list PortNameToId) (r : RackGraph) : RackGraph :=
  {| connections := connections r;
     connectedIn1 := connectedIn1 r; connectedIn2 := connectedIn2 r;
     connectedOut1 := connectedOut1 r; connectedOut2 := connectedOut2 r;
     midi_ins := midi_ins r; midi_outs := l |}.

(** The [for] loops that announce the ports of a hardware audio group,
    from index [i] on ([fuel] ports are left). *)
Fixpoint addAudioPorts (group : RackGraphGroup) (flags : PortFlags) (prefix : string)
    (fuel : nat) (i : Z) (e : Engine) : Engine :=
  match fuel with
  | O => e
  | S fuel =>
      let strBuf := snprintf (prefix ++ dec (i + 1))%string in
      addAudioPorts group flags prefix fuel (i + 1)
                    (emit (PORT_ADDED group (HwPort i) flags strBuf) e)
  end.

(** The [for] loops over the visible native MIDI ports, from index [i] on;
    [isInput] tells the readable ports from the writable ones. *)
Fixpoint addMidiPorts (isInput : bool) (portNames : list string) (i : Z) (e : Engine) : Engine :=
  match portNames with
  | [] => e
  | portName :: rest =>
      let group := if isInput then RACK_GRAPH_GROUP_MIDI_IN else RACK_GRAPH_GROUP_MIDI_OUT in
      let strBuf :=
        snprintf ((if isInput then "Readable MIDI ports:" else "Writable MIDI ports:")
                  ++ portName)%string in
      let portNameToId := setData group i portName strBuf in
      let e := emit (PORT_ADDED (pn_group portNameToId) (HwPort (pn_port portNameToId))
                                (if isInput then MIDI_OUTPUT else MIDI_INPUT)
                                (pn_name portNameToId)) e in
      let rack := graph_rack e in
      let rack :=
        if isInput then set_midi_ins (midi_ins rack ++ [portNameToId]) rack
        else set_midi_outs (midi_outs rack ++ [portNameToId]) rack in
      addMidiPorts isInput rest (i + 1) (set_graph_rack rack e)
  end.

(** One connection: [setData(++(rack->connections.lastId), ...)], the
    callback and the append to [rack->connections.list]. *)
Definition addConnection (gA : RackGraphGroup) (pA : PortRef) (gB : RackGraphGroup)
    (pB : PortRef) (e : Engine) : Engine :=
  let rack := graph_rack e in
  let newId := u32 (lastId (connections rack) + 1) in
  let connectionToId :=
    {| id := newId; groupA := gA; portA := pA; groupB := gB; portB := pB |} in
  let e := emit (CONNECTION_ADDED connectionToId) e in
  set_graph_rack
    (set_connections
       {| lastId := newId; list_ := list_ (connections rack) ++ [connectionToId] |} rack) e.

(** One of the six connection loops: a port id that fails the
    [CARLA_SAFE_ASSERT_CONTINUE] is skipped. *)
Fixpoint addConnections (mk : Z -> Engine -> Engine) (limit : Z) (portIds : list Z)
    (e : Engine) : Engine :=
  match portIds with
  | [] => e
  | portId :: rest =>
      if portId <? limit then addConnections mk limit rest (mk portId e)
      else addConnections mk limit rest (carla_safe_assert e)
  end.

Definition connectAudioIn1 (portId : Z) : Engine -> Engine :=
  addConnection RACK_GRAPH_GROUP_AUDIO_IN (HwPort portId)
                RACK_GRAPH_GROUP_CARLA (CarlaPort RACK_GRAPH_CARLA_PORT_AUDIO_IN1).
Definition connectAudioIn2 (portId : Z) : Engine -> Engine :=
  addConnection RACK_GRAPH_GROUP_AUDIO_IN (HwPort portId)
                RACK_GRAPH_GROUP_CARLA (CarlaPort RACK_GRAPH_CARLA_PORT_AUDIO_IN2).
Definition connectAudioOut1 (portId : Z) : Engine -> Engine :=
  addConnection RACK_GRAPH_GROUP_CARLA (CarlaPort RACK_GRAPH_CARLA_PORT_AUDIO_OUT1)
                RACK_GRAPH_GROUP_AUDIO_OUT (HwPort portId).
Definition connectAudioOut2 (portId : Z) : Engine -> Engine :=
  addConnection RACK_GRAPH_GROUP_CARLA (CarlaPort RACK_GRAPH_CARLA_PORT_AUDIO_OUT2)
                RACK_GRAPH_GROUP_AUDIO_OUT (HwPort portId).
Definition connectMidiIn (portId : Z) : Engine -> Engine :=
  addConnection RACK_GRAPH_GROUP_MIDI_IN (HwPort portId)
                RACK_GRAPH_GROUP_CARLA (CarlaPort RACK_GRAPH_CARLA_PORT_MIDI_IN).
Definition connectMidiOut (portId : Z) : Engine -> Engine :=
  addConnection RACK_GRAPH_GROUP_CARLA (CarlaPort RACK_GRAPH_CARLA_PORT_MIDI_OUT)
                RACK_GRAPH_GROUP_MIDI_OUT (HwPort portId).

(** The port ids the two MIDI loops look up, one per registered port. *)
Definition midiPortIds (isInput : bool) (ports : list MidiPort) (e : Engine) : list Z :=
  map (fun midiPort =>
         getPortId isInput (midi_ins (graph_rack e)) (midi_outs (graph_rack e)) (name_ midiPort))
      ports.

(** The part of [patchbayRefreshRack] below the comment [// Connections]. *)
Definition refreshConnections (e : Engine) : Engine :=
  let e := addConnections connectAudioIn1 (fAudioInCount e) (connectedIn1 (graph_rack e)) e in
  let e := addConnections connectAudioIn2 (fAudioInCount e) (connectedIn2 (graph_rack e)) e in
  let e := addConnections connectAudioOut1 (fAudioOutCount e) (connectedOut1 (graph_rack e)) e in
  let e := addConnections connectAudioOut2 (fAudioOutCount e) (connectedOut2 (graph_rack e)) e in
  let e := addConnections connectMidiIn (Z.of_nat (List.length (midi_ins (graph_rack e))))
                          (midiPortIds true (fMidiIns e) e) e in
  addConnections connectMidiOut (Z.of_nat (List.length (midi_outs (graph_rack e))))
                 (midiPortIds false (fMidiOuts e) e) e.

(** The part of [patchbayRefreshRack] above the comment [// Connections]:
    the five groups and their ports. *)
Definition refreshGroups (n : Native) (e : Engine) : Engine :=
  let rack := graph_rack e in
  let e := set_graph_rack (set_connections (connections_clear (connections rack)) rack) e in
  (* Main *)
  let e := emit (CLIENT_ADDED RACK_GRAPH_GROUP_CARLA PATCHBAY_ICON_CARLA (name e)) e in
  let carla p := PORT_ADDED RACK_GRAPH_GROUP_CARLA (CarlaPort p) in
  let e := emit (carla RACK_GRAPH_CARLA_PORT_AUDIO_IN1 AUDIO_INPUT "audio-in1"%string) e in
  let e := emit (carla RACK_GRAPH_CARLA_PORT_AUDIO_IN2 AUDIO_INPUT "audio-in2"%string) e in
  let e := emit (carla RACK_GRAPH_CARLA_PORT_AUDIO_OUT1 AUDIO_OUTPUT "audio-out1"%string) e in
  let e := emit (carla RACK_GRAPH_CARLA_PORT_AUDIO_OUT2 AUDIO_OUTPUT "audio-out2"%string) e in
  let e := emit (carla RACK_GRAPH_CARLA_PORT_MIDI_IN MIDI_INPUT "midi-in"%string) e in
  let e := emit (carla RACK_GRAPH_CARLA_PORT_MIDI_OUT MIDI_OUTPUT "midi-out"%string) e in
  (* Audio In *)
  let strBuf :=
    if (fDeviceName e =? "")%string then "Capture"%string
    else snprintf ("Capture (" ++ fDeviceName e ++ ")")%string in
  let e := emit (CLIENT_ADDED RACK_GRAPH_GROUP_AUDIO_IN PATCHBAY_ICON_HARDWARE strBuf) e in
  let e := addAudioPorts RACK_GRAPH_GROUP_AUDIO_IN AUDIO_OUTPUT "capture_"%string
                         (Z.to_nat (fAudioInCount e)) 0 e in
  (* Audio Out *)
  let strBuf :=
    if (fDeviceName e =? "")%string then "Playback"%string
    else snprintf ("Playback (" ++ fDeviceName e ++ ")")%string in
  let e := emit (CLIENT_ADDED RACK_GRAPH_GROUP_AUDIO_OUT PATCHBAY_ICON_HARDWARE strBuf) e in
  let e := addAudioPorts RACK_GRAPH_GROUP_AUDIO_OUT AUDIO_INPUT "playback_"%string
                         (Z.to_nat (fAudioOutCount e)) 0 e in
  (* MIDI In *)
  let midiApi := getMatchedAudioMidiAPI (os n) (RtAudio.currentApi (fAudio e)) in
  let e := emit (CLIENT_ADDED RACK_GRAPH_GROUP_MIDI_IN PATCHBAY_ICON_HARDWARE
                              "Readable MIDI ports"%string) e in
  let e := addMidiPorts true (midiInPorts n midiApi) 0 e in
  (* MIDI Out *)
  let e := emit (CLIENT_ADDED RACK_GRAPH_GROUP_MIDI_OUT PATCHBAY_ICON_HARDWARE
                              "Writable MIDI ports"%string) e in
  addMidiPorts false (midiOutPorts n midiApi) 0 e.

Definition patchbayRefreshRack (n : Native) (e : Engine) : Engine :=
  refreshConnections (refreshGroups n e).

Definition patchbayRefreshPatchbay (e : Engine) : Engine := e.

Definition patchbayRefresh (n : Native) (e : Engine) : bool * Engine :=
  if negb (audio_isReady e) then (false, carla_safe_assert e)
  else
    let e := set_fUsedMidiPorts [] e in
    (true, if graph_isRack e then patchbayRefreshRack n e else patchbayRefreshPatchbay e).

(** ** RtMidi objects *)

Definition newRtMidi (mk : nat -> Effect) (e : Engine) : nat * Engine :=
  let h := nextHandle e in
  (h, set_liveHandles (liveHandles e ++ [h]) (set_nextHandle (S h) (emit (mk h) e))).

(** [delete port]. *)
Definition deleteRtMidi (h : nat) (e : Engine) : Engine :=
  set_liveHandles (List.remove Nat.eq_dec h (liveHandles e)) (emit (DeleteRtMidi h) e).

(** ** close *)

(** The body of the loop over [fMidiIns]. *)
Definition closeMidiIn (e : Engine) (port : MidiPort) : Engine :=
  deleteRtMidi (rtmidi port) (emit (CancelCallback (rtmidi port)) e).

(** The body of the loop over [fMidiOuts]. *)
Definition closeMidiOut (e : Engine) (port : MidiPort) : Engine :=
  deleteRtMidi (rtmidi port) e.

Definition set_stream (isOpen running : bool) (a : RtAudio.t) : RtAudio.t :=
  {| RtAudio.currentApi := RtAudio.currentApi a;
     RtAudio.streamOpen := isOpen; RtAudio.streamRunning := running;
     RtAudio.streamSampleRate := RtAudio.streamSampleRate a |}.

(** The [if (fAudio.isStreamOpen())] block of [close], entered with
    [hasError]. *)
Definition closeStream (n : Native) (hasError : bool) (e : Engine) : bool * Engine :=
  if RtAudio.streamOpen (fAudio e) then
    let '(hasError, e) :=
      if RtAudio.streamRunning (fAudio e) then
        let e := emit StopStream e in
        match stopStream n with
        | Ok _ => (hasError, set_fAudio (set_stream true false (fAudio e)) e)
        | Threw what =>
            if negb hasError then (true, setLastError what e) else (hasError, e)
        end
      else (hasError, e) in
    (hasError, set_fAudio (set_stream false false (fAudio e)) (emit CloseStream e))
  else (hasError, e).

Definition close (n : Native) (e : Engine) : bool * Engine :=
  let e := if fAudioOutCount e =? 0 then carla_safe_assert e else e in
  let e := set_audio_isReady false e in
  let '(ok, (err, rack, b)) := CarlaEngine_close (lastError e) (graph_rack e) (base e) in
  let e := set_base b (set_graph_rack rack (set_lastError err e)) in
  let hasError := negb ok in
  let '(hasError, e) := closeStream n hasError e in
  let e := fold_left closeMidiIn (fMidiIns e) e in
  let e := fold_left closeMidiOut (fMidiOuts e) e in
  let e := set_fAudioInCount 0 e in
  let e := set_fAudioOutCount 0 e in
  let e := set_fLastEventTime 0 e in
  let e := set_fDeviceName ""%string e in
  let e := set_fUsedMidiPorts [] e in
  let e := set_fMidiInEvents {| data_ := []; dataPending := [] |} e in
  let e := set_fMidiIns [] e in
  let e := set_fMidiOuts [] e in
  (negb hasError, e).

(** ** init *)

(** The loop of [init] over the devices, from index [i] on: the first
    probed device with outputs that bears the wanted name. *)
Fixpoint findDevice (wanted : string) (devs : list RtAudio.DeviceInfo) (i : Z)
    : option (Z * RtAudio.DeviceInfo) :=
  match devs with
  | [] => None
  | devInfo :: rest =>
      if RtAudio.probed devInfo && (RtAudio.outputChannels devInfo >? 0)
         && (RtAudio.name devInfo =? wanted)%string
      then Some (i, devInfo)
      else findDevice wanted rest (i + 1)
  end.

Definition isSupportedMode (m : EngineProcessMode) : bool :=
  match m with
  | ENGINE_PROCESS_MODE_CONTINUOUS_RACK | ENGINE_PROCESS_MODE_PATCHBAY => true
  | _ => false
  end.

Definition isRackMode (m : EngineProcessMode) : bool :=
  match m with
  | ENGINE_PROCESS_MODE_CONTINUOUS_RACK => true
  | _ => false
  end.

Definition isAlsa (a : RtAudio.Api) : bool :=
  match a with RtAudio.LINUX_ALSA => true | _ => false end.

(** [init] from the call of [openStream] on, with the stream parameters
    chosen. *)
Definition initStream (n : Native) (clientName : string) (deviceSet : bool)
    (iParams oParams : RtAudio.StreamParameters) (e : Engine) : bool * Engine :=
  let alsaUseDefault := isAlsa (RtAudio.currentApi (fAudio e)) && negb deviceSet in
  let bufferFrames := audioBufferSize (options e) in
  let e := emit (OpenStream oParams
                            (if RtAudio.nChannels iParams >? 0 then Some iParams else None)
                            (audioSampleRate (options e)) bufferFrames alsaUseDefault
                            clientName) e in
  match openStream n with
  | Threw what => (false, setLastError what e)
  | Ok (bufferFrames, rate) =>
      let e := set_fAudio {| RtAudio.currentApi := RtAudio.currentApi (fAudio e);
                             RtAudio.streamOpen := true; RtAudio.streamRunning := false;
                             RtAudio.streamSampleRate := rate |} e in
      let e := set_bufferSize bufferFrames e in
      let e := set_sampleRate (RtAudio.streamSampleRate (fAudio e)) e in
      let e := set_fAudioInCount (RtAudio.nChannels iParams) e in
      let e := set_fAudioOutCount (RtAudio.nChannels oParams) e in
      let e := set_fLastEventTime 0 e in
      let rackMode := isRackMode (processMode (options e)) in
      let e := set_audio_inCount (if rackMode then 2 else 0) e in
      let e := set_audio_outCount (if rackMode then 2 else 0) e in
      let e := set_base (audio_create (bufferSize e) (base e)) e in
      let e := emit StartStream e in
      match startStream n with
      | Threw what =>
          let '(_, e) := close n e in
          (false, setLastError what e)
      | Ok _ =>
          let e := set_fAudio (set_stream true true (fAudio e)) e in
          let '(rack, b) := CarlaEngine_init clientName (graph_rack e) (base e) in
          let e := set_base b (set_graph_rack rack e) in
          let e := set_audio_isReady true e in
          let '(_, e) := patchbayRefresh n e in
          (true, e)
      end
  end.

Definition init (n : Native) (clientName : option string) (e : Engine) : bool * Engine :=
  if negb (fAudioInCount e =? 0) then (false, carla_safe_assert e)
  else if negb (fAudioOutCount e =? 0) then (false, carla_safe_assert e)
  else if negb (fLastEventTime e =? 0) then (false, carla_safe_assert e)
  else
    match clientName with
    | None | Some EmptyString => (false, carla_safe_assert e)
    | Some clientName =>
        if negb (isSupportedMode (processMode (options e))) then
          (false, setLastError "Invalid process mode" e)
        else
          let devCount := Z.of_nat (List.length (devices n)) in
          if devCount =? 0 then
            (false, setLastError "No audio devices available for this driver" e)
          else
            let found :=
              match audioDevice (options e) with
              | None | Some EmptyString => None
              | Some wanted => findDevice wanted (devices n) 0
              end in
            let '(deviceSet, iParams, oParams, e) :=
              match found with
              | Some (i, devInfo) =>
                  (true,
                   {| RtAudio.deviceId := i; RtAudio.nChannels := RtAudio.inputChannels devInfo |},
                   {| RtAudio.deviceId := i; RtAudio.nChannels := RtAudio.outputChannels devInfo |},
                   set_fDeviceName (RtAudio.name devInfo) e)
              | None =>
                  let iDev := defaultInputDevice n in
                  let oDev := defaultOutputDevice n in
                  let ins := RtAudio.inputChannels (getDeviceInfo n iDev) in
                  let outs := RtAudio.outputChannels (getDeviceInfo n oDev) in
                  (false,
                   {| RtAudio.deviceId := iDev; RtAudio.nChannels := ins |},
                   {| RtAudio.deviceId := oDev; RtAudio.nChannels := outs |},
                   emit (Stdout_NoDeviceSet ins outs) e)
              end in
            if RtAudio.nChannels oParams =? 0 then
              (false, setLastError "Current audio setup has no outputs, cannot continue" e)
            else initStream n clientName deviceSet iParams oParams e
    end.

(** ** The MIDI port registry *)

(** The search loop of the two connect functions, from index [i] on. *)
Fixpoint findPortIndex (portName : string) (names : list string) (i : Z) : option Z :=
  match names with
  | [] => None
  | nm :: rest => if (nm =? portName)%string then Some i else findPortIndex portName rest (i + 1)
  end.

Definition connectRackMidiInPort (n : Native) (portName : option string) (e : Engine)
    : Result bool * Engine :=
  match portName with
  | None | Some EmptyString => (Ok false, carla_safe_assert e)
  | Some portName =>
      if negb (0 <? Z.of_nat (List.length (midi_ins (graph_rack e)))) then
        (Ok false, carla_safe_assert e)
      else
        let newRtMidiPortName := (name e ++ ":" ++ portName)%string in
        let api := getMatchedAudioMidiAPI (os n) (RtAudio.currentApi (fAudio e)) in
        let '(rtMidiIn, e) := newRtMidi (fun h => NewRtMidiIn h api newRtMidiPortName) e in
        let e := emit (IgnoreTypes rtMidiIn) e in
        let e := emit (SetCallback rtMidiIn) e in
        match findPortIndex portName (midiInPorts n api) 0 with
        | None => (Ok false, deleteRtMidi rtMidiIn e)
        | Some rtMidiPortIndex =>
            let e := emit (OpenPort rtMidiIn rtMidiPortIndex portName) e in
            match openPort n with
            | Threw _ => (Ok false, deleteRtMidi rtMidiIn e)
            | Ok _ =>
                let midiPort := {| rtmidi := rtMidiIn; name_ := strncpy portName STR_MAX |} in
                (Ok true, set_fMidiIns (fMidiIns e ++ [midiPort]) e)
            end
        end
  end.

(** [Threw] is an exception that leaves the function. *)
Definition connectRackMidiOutPort (n : Native) (portName : option string) (e : Engine)
    : Result bool * Engine :=
  match portName with
  | None | Some EmptyString => (Ok false, carla_safe_assert e)
  | Some portName =>
      if negb (0 <? Z.of_nat (List.length (midi_ins (graph_rack e)))) then
        (Ok false, carla_safe_assert e)
      else
        let newRtMidiPortName := (name e ++ ":" ++ portName)%string in
        let api := getMatchedAudioMidiAPI (os n) (RtAudio.currentApi (fAudio e)) in
        let '(rtMidiOut, e) := newRtMidi (fun h => NewRtMidiOut h api newRtMidiPortName) e in
        match findPortIndex portName (midiOutPorts n api) 0 with
        | None => (Ok false, deleteRtMidi rtMidiOut e)
        | Some rtMidiPortIndex =>
            let e := emit (OpenPort rtMidiOut rtMidiPortIndex portName) e in
            match openPort n with
            | Threw what => (Threw what, e)
            | Ok _ =>
                let midiPort := {| rtmidi := rtMidiOut; name_ := strncpy portName STR_MAX |} in
                (Ok true, set_fMidiOuts (fMidiOuts e ++ [midiPort]) e)
            end
        end
  end.

(** The loop of the two disconnect functions: the first entry named
    [portName] and the list without it. *)
Fixpoint removeFirstNamed (portName : string) (ports : list MidiPort)
    : option (MidiPort * list MidiPort) :=
  match ports with
  | [] => None
  | midiPort :: rest =>
      if (name_ midiPort =? portName)%string then Some (midiPort, rest)
      else
        match removeFirstNamed portName rest with
        | Some (found, rest') => Some (found, midiPort :: rest')
        | None => None
        end
  end.

Definition disconnectRackMidiInPort (portName : option string) (e : Engine) : bool * Engine :=
  match portName with
  | None | Some EmptyString => (false, carla_safe_assert e)
  | Some portName =>
      if negb (0 <? Z.of_nat (List.length (midi_ins (graph_rack e)))) then
        (false, carla_safe_assert e)
      else
        match removeFirstNamed portName (fMidiIns e) with
        | Some (midiPort, rest) =>
            let e := emit (CancelCallback (rtmidi midiPort)) e in
            let e := deleteRtMidi (rtmidi midiPort) e in
            (true, set_fMidiIns rest e)
        | None => (false, e)
        end
  end.

Definition disconnectRackMidiOutPort (portName : option string) (e : Engine) : bool * Engine :=
  match portName with
  | None | Some EmptyString => (false, carla_safe_assert e)
  | Some portName =>
      if negb (0 <? Z.of_nat (List.length (midi_ins (graph_rack e)))) then
        (false, carla_safe_assert e)
      else
        match removeFirstNamed portName (fMidiOuts e) with
        | Some (midiPort, rest) =>
            let e := deleteRtMidi (rtmidi midiPort) e in
            (true, set_fMidiOuts rest e)
        | None => (false, e)
        end
  end.

(** The constructor: the fields of this class as its initialiser list
    sets them, around the [pData] the base class made. *)
Definition CarlaEngineRtAudio (api : RtAudio.Api) (opts : EngineOptions) (nm : string)
    (isRack : bool) (rack : RackGraph) (b : Base) : Engine :=
  {| options := opts; name := nm; bufferSize := 0; sampleRate := 0; timeInfo_frame := 0;
     audio_isReady := false; audio_inCount := 0; audio_outCount := 0; events_in := [];
     graph_isRack := isRack; graph_rack := rack; lastError := ""%string; base := b;
     fAudio := {| RtAudio.currentApi := api; RtAudio.streamOpen := false;
                  RtAudio.streamRunning := false; RtAudio.streamSampleRate := 0 |};
     fAudioInCount := 0; fAudioOutCount := 0; fLastEventTime := 0;
     fDeviceName := ""%string; fUsedMidiPorts := []; fMidiIns := []; fMidiOuts := [];
     fMidiInEvents := {| data_ := []; dataPending := [] |};
     trace := []; nextHandle := 0%nat; liveHandles := [] |}.

End Engine.

(** ** The words of the specification, for comparison *)

(** [clamp(x, lo, hi)]: raised to [lo] when below it, lowered to [hi] when
    above it. *)
Definition clamp (x lo hi : float) : float :=
  if (x <? lo)%float then lo else if (hi <? x)%float then hi else x.

(** ** Sequences of MIDI callbacks *)

(** One call of the MIDI callback, with what the calling thread finds in
    the shared state at that moment (the frame counter and the buffer size
    move between calls). *)
Record MidiCall := {
  seen_frame : Z;
  seen_bufferSize : Z;
  seen_isReady : bool;
  call_timeStamp : float;
  call_message : list Z
}.

Definition midiCall {X : Externals} (c : MidiCall) (e : Engine) : Engine :=
  handleMidiCallback (call_timeStamp c) (call_message c)
    (set_audio_isReady (seen_isReady c)
       (set_bufferSize (seen_bufferSize c) (set_timeInfo_frame (seen_frame c) e))).

Definition midiCalls {X : Externals} (cs : list MidiCall) (e : Engine) : Engine :=
  fold_left (fun e c => midiCall c e) cs e.

(** The state in which the graph processor is entered: the event array
    zeroed and, when the lock was taken, the queue drained into it. *)
Definition beforeProcessing {X : Externals} (nframes : Z) (tryLock : bool) (e : Engine) : Engine :=
  let e := set_events_in zeroedEvents e in
  if tryLock then drainMidiInEvents nframes e else e.

(** ** Reading a trace *)

Definition emittedConnections (tr : list Effect) : list ConnectionToId :=
  flat_map (fun ef => match ef with CONNECTION_ADDED c => [c] | _ => [] end) tr.

Definition isAudioInConnection (c : ConnectionToId) : Prop :=
  groupA c = RACK_GRAPH_GROUP_AUDIO_IN /\ groupB c = RACK_GRAPH_GROUP_CARLA.
Definition isAudioOutConnection (c : ConnectionToId) : Prop :=
  groupA c = RACK_GRAPH_GROUP_CARLA /\ groupB c = RACK_GRAPH_GROUP_AUDIO_OUT.
Definition isMidiInConnection (c : ConnectionToId) : Prop :=
  groupA c = RACK_GRAPH_GROUP_MIDI_IN /\ groupB c = RACK_GRAPH_GROUP_CARLA.
Definition isMidiOutConnection (c : ConnectionToId) : Prop :=
  groupA c = RACK_GRAPH_GROUP_CARLA /\ groupB c = RACK_GRAPH_GROUP_MIDI_OUT.

(** [k] consecutive indices from [i] on. *)
Definition indicesFrom (i : Z) (k : nat) : list Z :=
  map (fun j => i + Z.of_nat j) (seq 0 k).

(** ** A concrete setting *)

(** The collaborators at their simplest: the constants as upstream Carla
    declares them ([batch] stands for kMaxEngineEventInternalCount, 512
    upstream), a payload that keeps the MIDI bytes, a base class without
    state, a graph processor that leaves the buffers alone. *)
Definition plainExternals (batch : Z) : Externals :=
  {| Payload := Z * list Z;
     zeroPayload := (0, []);
     fillFromMidiData := fun sz bytes _ => (sz, bytes);
     kMaxEngineEventInternalCount := batch;
     kDataSize := 4;
     STR_MAX := 255;
     Sample := float;
     silence := 0%float;
     pool_allocate := fun used => (used <? 512)%nat;
     Base := unit;
     CarlaEngine_init := fun _ rack b => (rack, b);
     CarlaEngine_close := fun err rack b => (true, (err, rack, b));
     audio_create := fun _ b => b;
     runPendingRtEvents := fun b => b;
     processRackFull := fun _ _ b _ _ outs _ _ => (b, outs);
     connections_clear := fun _ => {| lastId := 0; list_ := [] |};
     getPortId := fun isInput ins outs nm =>
       match find (fun p => (pn_name p =? nm)%string) (if isInput then ins else outs) with
       | Some p => pn_port p
       | None => 0
       end |}.

Definition emptyRack : RackGraph :=
  {| connections := {| lastId := 0; list_ := [] |};
     connectedIn1 := []; connectedIn2 := []; connectedOut1 := []; connectedOut2 := [];
     midi_ins := []; midi_outs := [] |}.

Definition rackOptions : EngineOptions :=
  {| processMode := ENGINE_PROCESS_MODE_CONTINUOUS_RACK; audioDevice := None;
     audioBufferSize := 512; audioSampleRate := 44100 |}.

(** A freshly constructed ALSA engine in rack mode. *)
Definition freshEngine (batch : Z) : @Engine (plainExternals batch) :=
  @CarlaEngineRtAudio (plainExternals batch) RtAudio.LINUX_ALSA rackOptions "Carla" true
                      emptyRack tt.

(** The same engine running: 2 inputs, 2 outputs, 512 frames a period,
    at frame 1000. *)
Definition runningEngine (batch : Z) : @Engine (plainExternals batch) :=
  set_fAudioOutCount 2 (set_fAudioInCount 2
    (set_audio_isReady true (set_timeInfo_frame 1000 (set_bufferSize 512
      (set_sampleRate 44100 (freshEngine batch)))))).

(** A Linux machine with one sound card that settles on 256 frames at
    48000 Hz, whatever is asked for, and two MIDI ports each way. *)
Definition linuxBox : Native :=
  {| os := CARLA_OS_LINUX;
     devices := [ {| RtAudio.probed := true; RtAudio.name := "hw:0";
                     RtAudio.outputChannels := 2; RtAudio.inputChannels := 2 |} ];
     defaultInputDevice := 0;
     defaultOutputDevice := 0;
     openStream := Ok (256, 48000);
     startStream := Ok tt;
     stopStream := Ok tt;
     midiInPorts := fun _ => ["Keys"; "Pads"]%string;
     midiOutPorts := fun _ => ["Synth"; "Drums"]%string;
     openPort := Ok tt |}.

Definition with_openPort (r : Result unit) (n : Native) : Native :=
  {| os := os n; devices := devices n; defaultInputDevice := defaultInputDevice n;
     defaultOutputDevice := defaultOutputDevice n; openStream := openStream n;
     startStream := startStream n; stopStream := stopStream n;
     midiInPorts := midiInPorts n; midiOutPorts := midiOutPorts n; openPort := r |}.

Definition with_stopStream (r : Result unit) (n : Native) : Native :=
  {| os := os n; devices := devices n; defaultInputDevice := defaultInputDevice n;
     defaultOutputDevice := defaultOutputDevice n; openStream := openStream n;
     startStream := startStream n; stopStream := r;
     midiInPorts := midiInPorts n; midiOutPorts := midiOutPorts n; openPort := openPort n |}.

Definition with_midiInPorts (l : list string) (n : Native) : Native :=
  {| os := os n; devices := devices n; defaultInputDevice := defaultInputDevice n;
     defaultOutputDevice := defaultOutputDevice n; openStream := openStream n;
     startStream := startStream n; stopStream := stopStream n;
     midiInPorts := fun _ => l; midiOutPorts := midiOutPorts n; openPort := openPort n |}.

(** A note-on message. *)
Definition noteOn : list Z := [144; 60; 100].

Definition midiEventAt (t : Z) : RtMidiEvent :=
  {| time := t; size := 3; data := [144; 60; 100; 0] |}.

(** ** Vocabulary of the proofs and sample data *)

(** A pending note stamped at the end of the window [1000, 1512). *)
Definition lateNote : @Engine (plainExternals 512) :=
  set_fMidiInEvents {| data_ := []; dataPending := [midiEventAt 1512] |} (runningEngine 512).

(** An output buffer that holds sound. *)
Definition loudBuffer : list float := [1%float; 1%float; 1%float; 1%float].

(** Three pending events and room for two. *)
Definition threeNotes : @Engine (plainExternals 2) :=
  set_fMidiInEvents
    {| data_ := []; dataPending := [midiEventAt 1000; midiEventAt 1001; midiEventAt 1002] |}
    (runningEngine 2).

(** What a refresh leaves alone. *)
Definition stableDriver {X : Externals} (e e' : Engine) : Prop :=
  bufferSize e' = bufferSize e /\ sampleRate e' = sampleRate e /\
  fAudioInCount e' = fAudioInCount e /\ fAudioOutCount e' = fAudioOutCount e /\
  fMidiIns e' = fMidiIns e /\ fMidiOuts e' = fMidiOuts e /\
  connectedIn1 (graph_rack e') = connectedIn1 (graph_rack e) /\
  connectedIn2 (graph_rack e') = connectedIn2 (graph_rack e) /\
  connectedOut1 (graph_rack e') = connectedOut1 (graph_rack e) /\
  connectedOut2 (graph_rack e') = connectedOut2 (graph_rack e).

(** A stretch of the refresh from [e] to [e'] that emitted the connections
    [conns]: each took the next value of the counter. *)
Definition phase {X : Externals} (e e' : Engine) (conns : list ConnectionToId) : Prop :=
  (exists suffix, trace e' = trace e ++ suffix /\ emittedConnections suffix = conns) /\
  lastId (connections (graph_rack e'))
    = lastId (connections (graph_rack e)) + Z.of_nat (List.length conns) /\
  list_ (connections (graph_rack e')) = list_ (connections (graph_rack e)) ++ conns /\
  map id conns = indicesFrom (lastId (connections (graph_rack e)) + 1) (List.length conns) /\
  stableDriver e e'.

(** The number of entries the six connection loops go through. *)
Definition connectionCandidates {X : Externals} (e : Engine) : nat :=
  (List.length (connectedIn1 (graph_rack e)) + List.length (connectedIn2 (graph_rack e))
   + List.length (connectedOut1 (graph_rack e)) + List.length (connectedOut2 (graph_rack e))
   + List.length (fMidiIns e) + List.length (fMidiOuts e))%nat.

(** What [close] asks of the stream, of the MIDI inputs and of the MIDI
    outputs, in the order of the calls. *)
Definition streamTeardown (a : RtAudio.t) : list Effect :=
  if RtAudio.streamOpen a
  then (if RtAudio.streamRunning a then [StopStream] else []) ++ [CloseStream]
  else [].

Definition midiInTeardown (ports : list MidiPort) : list Effect :=
  flat_map (fun p => [CancelCallback (rtmidi p); DeleteRtMidi (rtmidi p)]) ports.

Definition midiOutTeardown (ports : list MidiPort) : list Effect :=
  map (fun p => DeleteRtMidi (rtmidi p)) ports.

(** A running engine with five audio connections on record (one of them
    to a capture port that does not exist) and a MIDI port open each way. *)
Definition patchedEngine : @Engine (plainExternals 512) :=
  set_fMidiIns [{| rtmidi := 0%nat; name_ := "Keys" |}]
    (set_fMidiOuts [{| rtmidi := 1%nat; name_ := "Drums" |}]
       (set_graph_rack
          {| connections := {| lastId := 7; list_ := [] |};
             connectedIn1 := [0; 5]; connectedIn2 := [1];
             connectedOut1 := [0]; connectedOut2 := [1];
             midi_ins := []; midi_outs := [] |}
          (runningEngine 512))).

(** The engine after a refresh on [linuxBox]: the rack knows the MIDI
    ports, none is connected. *)
Definition refreshedEngine : @Engine (plainExternals 512) :=
  snd (patchbayRefresh linuxBox (runningEngine 512)).

(** The engine opened on [linuxBox], with the MIDI input "Keys" connected. *)
Definition openedEngine : @Engine (plainExternals 512) :=
  snd (connectRackMidiInPort linuxBox (Some "Keys"%string)
         (snd (init linuxBox (Some "Carla"%string) (freshEngine 512)))).

(** A port name of 256 bytes, one more than [STR_MAX]. *)
Definition longName : string := string_of_list_ascii (repeat "a"%char 256).

(** ** The rest of the unit: names, API lists, devices *)

(** [CarlaBackend::getRtAudioApiName(api)].  The [nullptr] after the
    [switch] is for a value outside the enumeration, which [RtAudio.Api]
    does not have. *)
Definition getRtAudioApiName (os : TargetOS) (api : RtAudio.Api) : string :=
  match api with
  | RtAudio.UNSPECIFIED => "Unspecified"
  | RtAudio.LINUX_ALSA => "ALSA"
  | RtAudio.LINUX_PULSE => "PulseAudio"
  | RtAudio.LINUX_OSS => "OSS"
  | RtAudio.UNIX_JACK =>
      match os with
      | CARLA_OS_WIN => "JACK with WinMM"
      | CARLA_OS_MAC => "JACK with CoreMidi"
      | CARLA_OS_LINUX => "JACK with ALSA-MIDI"
      | CARLA_OS_OTHER => "JACK (RtAudio)"
      end
  | RtAudio.MACOSX_CORE => "CoreAudio"
  | RtAudio.WINDOWS_ASIO => "ASIO"
  | RtAudio.WINDOWS_DS => "DirectSound"
  | RtAudio.RTAUDIO_DUMMY => "Dummy"
  end.

Definition rtApi_eqb (a b : RtAudio.Api) : bool :=
  match a, b with
  | RtAudio.UNSPECIFIED, RtAudio.UNSPECIFIED
  | RtAudio.LINUX_ALSA, RtAudio.LINUX_ALSA
  | RtAudio.LINUX_PULSE, RtAudio.LINUX_PULSE
  | RtAudio.LINUX_OSS, RtAudio.LINUX_OSS
  | RtAudio.UNIX_JACK, RtAudio.UNIX_JACK
  | RtAudio.MACOSX_CORE, RtAudio.MACOSX_CORE
  | RtAudio.WINDOWS_ASIO, RtAudio.WINDOWS_ASIO
  | RtAudio.WINDOWS_DS, RtAudio.WINDOWS_DS
  | RtAudio.RTAUDIO_DUMMY, RtAudio.RTAUDIO_DUMMY => true
  | _, _ => false
  end.

(** [it = std::find(v.begin(), v.end(), api); if (it != v.end()) v.erase(it)]:
    the first occurrence goes. *)
Fixpoint eraseFirst (api : RtAudio.Api) (v : list RtAudio.Api) : list RtAudio.Api :=
  match v with
  | [] => []
  | a :: rest => if rtApi_eqb a api then rest else a :: eraseFirst api rest
  end.

(** The statics of the unit: [needsInit] of [initRtAudioAPIsIfNeeded] and
    [gRtAudioApis]. *)
Record Globals := {
  needsInit : bool;
  gRtAudioApis : list RtAudio.Api
}.

(** The statics before the first call. *)
Definition initialGlobals : Globals := {| needsInit := true; gRtAudioApis := [] |}.

(** What the build and the machine answer: [RtAudio::getCompiledApi],
    [jackbridge_is_ok()], whether [HAVE_JUCE] is defined, the devices an
    RtAudio object of a given API enumerates, and the [sampleRates] vector
    of its device [i]. *)
Record Platform := {
  compiledApi : list RtAudio.Api;
  jackbridge_is_ok : bool;
  HAVE_JUCE : bool;
  probe : RtAudio.Api -> list RtAudio.DeviceInfo;
  deviceSampleRates : RtAudio.Api -> Z -> list Z
}.

Definition initRtAudioAPIsIfNeeded (p : Platform) (g : Globals) : Globals :=
  if negb (needsInit g) then g
  else
    let apis := compiledApi p in
    let apis := if negb (jackbridge_is_ok p) then eraseFirst RtAudio.UNIX_JACK apis else apis in
    let apis :=
      if HAVE_JUCE p then
        eraseFirst RtAudio.WINDOWS_DS
          (eraseFirst RtAudio.WINDOWS_ASIO
             (eraseFirst RtAudio.MACOSX_CORE (eraseFirst RtAudio.LINUX_ALSA apis)))
      else apis in
    {| needsInit := false; gRtAudioApis := apis |}.

(** [CarlaEngine::getRtAudioApiCount()], with the statics it leaves. *)
Definition getRtAudioApiCount (p : Platform) (g : Globals) : Z * Globals :=
  let g := initRtAudioAPIsIfNeeded p g in
  (Z.of_nat (List.length (gRtAudioApis g)), g).

(** [v[index]] for an index already checked against [v.size()]. *)
Definition apiAt (index : Z) (v : list RtAudio.Api) : option RtAudio.Api :=
  if (0 <=? index) && (index <? Z.of_nat (List.length v))
  then nth_error v (Z.to_nat index)
  else None.

(** [CarlaEngine::getRtAudioApiName(index)]; [None] is [nullptr]. *)
Definition getRtAudioApiNameAt (p : Platform) (os : TargetOS) (index : Z) (g : Globals)
    : option string * Globals :=
  let g := initRtAudioAPIsIfNeeded p g in
  (option_map (getRtAudioApiName os) (apiAt index (gRtAudioApis g)), g).

(** The test the unit applies to a device before offering or selecting it. *)
Definition usableDevice (devInfo : RtAudio.DeviceInfo) : bool :=
  RtAudio.probed devInfo && (RtAudio.outputChannels devInfo >? 0).

(** [CarlaEngine::getRtAudioApiDeviceNames(index)]: the strings of
    [gRetNames] before its terminator; [None] is [nullptr]. *)
Definition getRtAudioApiDeviceNames (p : Platform) (index : Z) (g : Globals)
    : option (list string) * Globals :=
  let g := initRtAudioAPIsIfNeeded p g in
  match apiAt index (gRtAudioApis g) with
  | None => (None, g)
  | Some api =>
      let devs := probe p api in
      if Z.of_nat (List.length devs) =? 0 then (None, g)
      else (Some (map RtAudio.name (filter usableDevice devs)), g)
  end.

(** [EngineDriverDeviceInfo]; the two arrays without their pointers. *)
Record EngineDriverDeviceInfo := {
  hints : Z;
  bufferSizes : list Z;
  sampleRates : list float
}.

Definition dummyBufferSizes : list Z := [16; 32; 64; 128; 256; 512; 1024; 2048; 4096; 8192; 0].

Definition dummySampleRates : list float :=
  [22050; 32000; 44100; 48000; 88200; 96000; 176400; 192000; 0]%float.

(** The search loop of [getRtAudioDeviceInfo], from index [i] on: the
    first device of that name, whatever its state. *)
Fixpoint findNamed (deviceName : string) (devs : list RtAudio.DeviceInfo) (i : Z) : option Z :=
  match devs with
  | [] => None
  | devInfo :: rest =>
      if (RtAudio.name devInfo =? deviceName)%string then Some i
      else findNamed deviceName rest (i + 1)
  end.

(** [CarlaEngine::getRtAudioDeviceInfo(index, deviceName)] for a
    [deviceName] that is not null: the content of the static record it
    returns the address of, or [None] for [nullptr]. *)
Definition getRtAudioDeviceInfo (p : Platform) (index : Z) (deviceName : string) (g : Globals)
    : option EngineDriverDeviceInfo * Globals :=
  let g := initRtAudioAPIsIfNeeded p g in
  match apiAt index (gRtAudioApis g) with
  | None => (None, g)
  | Some api =>
      let devs := probe p api in
      if Z.of_nat (List.length devs) =? 0 then (None, g)
      else
        match findNamed deviceName devs 0 with
        | None => (None, g)
        | Some i =>
            let rates := deviceSampleRates p api i in
            let sampleRatesCount := Z.of_nat (List.length rates) in
            (Some {| hints := 0;
                     bufferSizes := dummyBufferSizes;
                     sampleRates :=
                       if negb (sampleRatesCount =? 0)
                       then map double_of_uint rates ++ [0%float]
                       else dummySampleRates |}, g)
        end
  end.




Definition isRunning {X : Externals} (e : Engine) : bool := RtAudio.streamRunning (fAudio e).

Definition isOffline {X : Externals} (e : Engine) : bool := false.


(** ** More vocabulary of the proofs *)

(** The event an accepted MIDI event becomes in a zeroed slot. *)
Definition translatedEvent {X : Externals} (frame nframes : Z) (midiEvent : RtMidiEvent)
    : EngineEvent :=
  {| ev_time := fst (engineEventTime frame nframes midiEvent zeroEvent);
     ev_payload := fillFromMidiData (size midiEvent) (data midiEvent) zeroPayload |}.

(** A queued event as the MIDI callback builds them. *)
Definition wellFormedEvent {X : Externals} (ev : RtMidiEvent) : Prop :=
  1 <= size ev <= kDataSize /\ Z.of_nat (List.length (data ev)) = kDataSize.

(** The RtMidi objects alive are those of the two registries, one each,
    and the next handle is a new one. *)
Definition registryOwnsHandles {X : Externals} (e : Engine) : Prop :=
  NoDup (map rtmidi (fMidiIns e ++ fMidiOuts e)) /\
  (forall h, In h (liveHandles e) <-> In h (map rtmidi (fMidiIns e ++ fMidiOuts e))) /\
  Forall (fun h => (h < nextHandle e)%nat) (liveHandles e).

(** The state [init] asks for and a closed driver is in. *)
Definition closedDriver {X : Externals} (e : Engine) : Prop :=
  fAudioInCount e = 0 /\ fAudioOutCount e = 0 /\ fLastEventTime e = 0 /\
  audio_isReady e = false /\ RtAudio.streamOpen (fAudio e) = false /\
  RtAudio.streamRunning (fAudio e) = false.

Definition announcedGroups (tr : list Effect) : list RackGraphGroup :=
  flat_map (fun ef => match ef with CLIENT_ADDED g _ _ => [g] | _ => [] end) tr.

Definition announcedPorts (tr : list Effect) : list (RackGraphGroup * PortRef * PortFlags) :=
  flat_map (fun ef => match ef with PORT_ADDED g p f _ => [(g, p, f)] | _ => [] end) tr.

Definition isAnnouncement (ef : Effect) : bool :=
  match ef with
  | CLIENT_ADDED _ _ _ | PORT_ADDED _ _ _ _ => true
  | _ => false
  end.

(** The hardware ports [0 .. count-1] of a group. *)
Definition hwPorts (group : RackGraphGroup) (flags : PortFlags) (count : nat)
    : list (RackGraphGroup * PortRef * PortFlags) :=
  map (fun i => (group, HwPort i, flags)) (indicesFrom 0 count).

(** The six ports of Carla's own group, as a refresh announces them. *)
Definition carlaPorts : list (RackGraphGroup * PortRef * PortFlags) :=
  [ (RACK_GRAPH_GROUP_CARLA, CarlaPort RACK_GRAPH_CARLA_PORT_AUDIO_IN1, AUDIO_INPUT);
    (RACK_GRAPH_GROUP_CARLA, CarlaPort RACK_GRAPH_CARLA_PORT_AUDIO_IN2, AUDIO_INPUT);
    (RACK_GRAPH_GROUP_CARLA, CarlaPort RACK_GRAPH_CARLA_PORT_AUDIO_OUT1, AUDIO_OUTPUT);
    (RACK_GRAPH_GROUP_CARLA, CarlaPort RACK_GRAPH_CARLA_PORT_AUDIO_OUT2, AUDIO_OUTPUT);
    (RACK_GRAPH_GROUP_CARLA, CarlaPort RACK_GRAPH_CARLA_PORT_MIDI_IN, MIDI_INPUT);
    (RACK_GRAPH_GROUP_CARLA, CarlaPort RACK_GRAPH_CARLA_PORT_MIDI_OUT, MIDI_OUTPUT) ].

(** Group, number and name of the entries a refresh makes for the visible
    MIDI ports [names], numbered from [i] on. *)
Definition midiEntries {X : Externals} (group : RackGraphGroup) (i : Z) (names : list string)
    : list (RackGraphGroup * Z * string) :=
  map (fun p => (group, fst p, strncpy (snd p) STR_MAX))
      (combine (indicesFrom i (List.length names)) names).

Definition entryKey (p : PortNameToId) : RackGraphGroup * Z * string :=
  (pn_group p, pn_port p, pn_name p).

(** What a stretch of the refresh announced. *)
Definition announced {X : Externals} (e e' : Engine) (s : list Effect) : Prop :=
  trace e' = trace e ++ s /\ Forall (fun ef => isAnnouncement ef = true) s.

(** A machine on which opening the stream works and starting it throws. *)
Definition brokenStart : Native :=
  {| os := os linuxBox; devices := devices linuxBox;
     defaultInputDevice := defaultInputDevice linuxBox;
     defaultOutputDevice := defaultOutputDevice linuxBox;
     openStream := openStream linuxBox; startStream := Threw "cannot start";
     stopStream := stopStream linuxBox; midiInPorts := midiInPorts linuxBox;
     midiOutPorts := midiOutPorts linuxBox; openPort := openPort linuxBox |}.

(** A build with ALSA, PulseAudio and JACK on a machine without a JACK
    library, and the devices of [linuxBox] plus one that was not probed. *)
Definition linuxBuild : Platform :=
  {| compiledApi := [RtAudio.LINUX_ALSA; RtAudio.LINUX_PULSE; RtAudio.UNIX_JACK];
     jackbridge_is_ok := false;
     HAVE_JUCE := false;
     probe := fun _ =>
       devices linuxBox
       ++ [ {| RtAudio.probed := false; RtAudio.name := "hw:1";
               RtAudio.outputChannels := 2; RtAudio.inputChannels := 0 |} ];
     deviceSampleRates := fun _ i => if i =? 0 then [44100; 48000] else [] |}.

(** The calls of a sequence that pass the three tests of the MIDI
    callback, and the payload the audio callback makes of one. *)
Definition acceptedCall {X : Externals} (c : MidiCall) : bool :=
  let messageSize := Z.of_nat (List.length (call_message c)) in
  seen_isReady c && negb ((messageSize =? 0) || (messageSize >? kDataSize)).

Definition deliveredPayload {X : Externals} (c : MidiCall) : Payload :=
  fillFromMidiData (Z.of_nat (List.length (call_message c))) (midiEventData (call_message c))
                   zeroPayload.

(** Three calls: a note, an empty message, and a note that arrives while
    the driver is not ready. *)
Definition mixedCalls : list MidiCall :=
  [ {| seen_frame := 1000; seen_bufferSize := 512; seen_isReady := true;
       call_timeStamp := 0.25%float; call_message := [144; 60; 100] |};
    {| seen_frame := 1000; seen_bufferSize := 512; seen_isReady := true;
       call_timeStamp := 0.25%float; call_message := [] |};
    {| seen_frame := 1000; seen_bufferSize := 512; seen_isReady := false;
       call_timeStamp := 0.25%float; call_message := [128; 60; 0] |};
    {| seen_frame := 1512; seen_bufferSize := 512; seen_isReady := true;
       call_timeStamp := 0.5%float; call_message := [128; 60; 0] |} ].

(** A machine with a card that could not be probed and two USB
    interfaces of one name; and an engine asked to use that name. *)
Definition studioBox : Native :=
  {| os := CARLA_OS_LINUX;
     devices := [ {| RtAudio.probed := false; RtAudio.name := "USB";
                     RtAudio.outputChannels := 8; RtAudio.inputChannels := 8 |};
                  {| RtAudio.probed := true; RtAudio.name := "USB";
                     RtAudio.outputChannels := 4; RtAudio.inputChannels := 1 |};
                  {| RtAudio.probed := true; RtAudio.name := "USB";
                     RtAudio.outputChannels := 2; RtAudio.inputChannels := 2 |} ];
     defaultInputDevice := 0;
     defaultOutputDevice := 0;
     openStream := Ok (256, 48000);
     startStream := Ok tt;
     stopStream := Ok tt;
     midiInPorts := fun _ => [];
     midiOutPorts := fun _ => [];
     openPort := Ok tt |}.

(** The same machine as the static functions see it: the first USB
    interface reports no sample rate, the others do. *)
Definition studioBuild : Platform :=
  {| compiledApi := [RtAudio.LINUX_ALSA];
     jackbridge_is_ok := true;
     HAVE_JUCE := false;
     probe := fun _ => devices studioBox;
     deviceSampleRates := fun _ i => if i =? 0 then [] else [48000; 96000] |}.

Definition usbOptions : EngineOptions :=
  {| processMode := ENGINE_PROCESS_MODE_CONTINUOUS_RACK; audioDevice := Some "USB"%string;
     audioBufferSize := 512; audioSampleRate := 44100 |}.

Definition usbEngine (batch : Z) : @Engine (plainExternals batch) :=
  @CarlaEngineRtAudio (plainExternals batch) RtAudio.LINUX_ALSA usbOptions "Carla" true
                      emptyRack tt.

(** * Properties *)

(** ** Arithmetic and strings *)

Lemma u32_small z : 0 <= z < 2 ^ 32 -> u32 z = z.
Proof. intros H. unfold u32. now apply Z.mod_small. Qed.

Lemma u64_small z : 0 <= z < 2 ^ 64 -> u64 z = z.
Proof. intros H. unfold u64. now apply Z.mod_small. Qed.

Lemma substring_0_all (s : string) (n : nat) :
  (String.length s <= n)%nat -> String.substring 0 n s = s.
Proof.
  revert n. induction s as [|c s IH]; intros [|n] H; simpl in *; try reflexivity; try lia.
  f_equal. apply IH. lia.
Qed.

(** ** The time stamp of an ingested event *)

Lemma ltb_antisym (a x b : float) :
  Prim2SF a = S754_zero false ->
  (exists m e, Prim2SF b = S754_finite false m e) ->
  (x <? a)%float = true -> (b <? x)%float = true -> False.
Proof.
  intros Ha (m & e & Hb). rewrite !ltb_spec, Ha, Hb.
  unfold SFltb, SFcompare.
  destruct (Prim2SF x) as [s|s| |s m' e']; try destruct s; simpl; congruence.
Qed.

(** C5.  For every raw time stamp fraction [f], the fraction the callback
    goes on with is [clamp(f/2, 0.0, 0.95)]: the raw value halved, then
    raised to 0.0 when negative and lowered to 0.95 when greater. *)
Theorem normalizeTimeStamp_is_clamp (f : float) :
  normalizeTimeStamp f = clamp (f / 2)%float 0%float double_0_95.
Proof.
  unfold normalizeTimeStamp, clamp.
  destruct (double_0_95 <? f / 2)%float eqn:Hhi;
    destruct (f / 2 <? 0)%float eqn:Hlo; try reflexivity.
  exfalso. apply (ltb_antisym 0%float (f / 2)%float double_0_95); try assumption.
  - reflexivity.
  - eexists _, _. vm_compute. reflexivity.
Qed.

Section Ingestion.
Context {X : Externals}.

Lemma appendNonRT_cases (ev : RtMidiEvent) (q : RtMidiEvents) :
  data_ (appendNonRT ev q) = data_ q /\
  (dataPending (appendNonRT ev q) = dataPending q \/
   dataPending (appendNonRT ev q) = dataPending q ++ [ev]).
Proof.
  unfold appendNonRT. destruct (pool_allocate _); simpl; auto.
Qed.

(** One call: the committed time never goes back, the active partition is
    left alone, and the pending partition gains at most one event, stamped
    with the committed time. *)
Lemma handleMidiCallback_step (timeStamp : float) (message : list Z) (e : Engine) :
  let e' := handleMidiCallback timeStamp message e in
  fLastEventTime e <= fLastEventTime e' /\
  data_ (fMidiInEvents e') = data_ (fMidiInEvents e) /\
  (dataPending (fMidiInEvents e') = dataPending (fMidiInEvents e) \/
   exists ev,
     dataPending (fMidiInEvents e') = dataPending (fMidiInEvents e) ++ [ev] /\
     time ev = Z.max (midiEventTime timeStamp e) (fLastEventTime e) /\
     fLastEventTime e' = time ev).
Proof.
  unfold handleMidiCallback.
  destruct (negb (audio_isReady e)); [simpl; intuition lia|].
  destruct (_ || _); [simpl; intuition lia|].
  destruct (midiEventTime timeStamp e <? fLastEventTime e) eqn:Hlt.
  - apply Z.ltb_lt in Hlt. simpl.
    match goal with |- context [appendNonRT ?ev ?q] =>
      destruct (appendNonRT_cases ev q) as [Hd [Hp|Hp]]; rewrite Hd, Hp end.
    + intuition lia.
    + split; [lia|]. split; [reflexivity|]. right. eexists. split; [reflexivity|].
      simpl. lia.
  - apply Z.ltb_ge in Hlt. simpl.
    match goal with |- context [appendNonRT ?ev ?q] =>
      destruct (appendNonRT_cases ev q) as [Hd [Hp|Hp]]; rewrite Hd, Hp end.
    + intuition lia.
    + split; [lia|]. split; [reflexivity|]. right. eexists. split; [reflexivity|].
      simpl. lia.
Qed.

Lemma midiCall_step (c : MidiCall) (e : Engine) :
  let e' := midiCall c e in
  fLastEventTime e <= fLastEventTime e' /\
  (dataPending (fMidiInEvents e') = dataPending (fMidiInEvents e) \/
   exists ev,
     dataPending (fMidiInEvents e') = dataPending (fMidiInEvents e) ++ [ev] /\
     fLastEventTime e <= time ev /\ fLastEventTime e' = time ev).
Proof.
  unfold midiCall.
  match goal with |- context [handleMidiCallback ?t ?m ?e0] =>
    pose proof (handleMidiCallback_step t m e0) as H end.
  cbv zeta in *. simpl in H. destruct H as (Hle & _ & [Hp | (ev & Hp & Ht & Hc)]).
  - auto.
  - split; [exact Hle|]. right. exists ev. repeat split; try assumption. lia.
Qed.

Lemma midiCalls_run (cs : list MidiCall) (e : Engine) :
  fLastEventTime e <= fLastEventTime (midiCalls cs e) /\
  exists appended,
    dataPending (fMidiInEvents (midiCalls cs e)) =
      dataPending (fMidiInEvents e) ++ appended /\
    Sorted Z.le (map time appended) /\
    Forall (fun ev => fLastEventTime e <= time ev <= fLastEventTime (midiCalls cs e))
           appended.
Proof.
  revert e. induction cs as [|c cs IH]; intros e; simpl.
  - split; [lia|]. exists []. rewrite app_nil_r. repeat split; constructor.
  - destruct (midiCall_step c e) as (Hle & Hstep).
    destruct (IH (midiCall c e)) as (Hle' & rest & Hrest & Hsorted & Hbounds).
    fold (midiCalls cs (midiCall c e)) in *.
    split; [lia|].
    destruct Hstep as [Hp | (ev & Hp & Hlo & Hc)].
    + exists rest. rewrite Hrest, Hp. repeat split; try assumption.
      eapply Forall_impl; [|exact Hbounds]. simpl. intros; lia.
    + exists (ev :: rest). rewrite Hrest, Hp, <- app_assoc. simpl.
      repeat split.
      * constructor; [assumption|].
        destruct rest as [|r rest]; simpl; constructor.
        inversion Hbounds; subst. lia.
      * constructor; [lia|].
        eapply Forall_impl; [|exact Hbounds]. simpl. intros; lia.
Qed.

(** C2.  Whatever the sequence of calls of the MIDI callback (and whatever
    the frame counter and the buffer size are at each call): a call leaves
    the committed last time stamp where it was or moves it forward; the
    event it appends to the pending queue, if any, carries the computed
    time stamp raised to the last committed one when it was below it; and
    the time stamps appended over the whole sequence are non-decreasing. *)
Theorem handleMidiCallback_timestamps_monotonic :
  (forall (timeStamp : float) (message : list Z) (e : Engine),
      let e' := handleMidiCallback timeStamp message e in
      fLastEventTime e <= fLastEventTime e' /\
      (dataPending (fMidiInEvents e') = dataPending (fMidiInEvents e) \/
       exists ev,
         dataPending (fMidiInEvents e') = dataPending (fMidiInEvents e) ++ [ev] /\
         time ev = Z.max (midiEventTime timeStamp e) (fLastEventTime e) /\
         fLastEventTime e' = time ev)) /\
  (forall (cs : list MidiCall) (e : Engine),
      let e' := midiCalls cs e in
      fLastEventTime e <= fLastEventTime e' /\
      exists appended,
        dataPending (fMidiInEvents e') = dataPending (fMidiInEvents e) ++ appended /\
        Sorted Z.le (map time appended) /\
        Forall (fun ev => fLastEventTime e <= time ev <= fLastEventTime e') appended).
Proof.
  split.
  - intros timeStamp message e.
    destruct (handleMidiCallback_step timeStamp message e) as (H1 & _ & H2). auto.
  - intros cs e. apply midiCalls_run.
Qed.

End Ingestion.

(** ** The audio callback *)

Section AudioCallback.
Context {X : Externals}.

(** The three branches of the offset computation, when no addition wraps. *)
Lemma engineEventTime_branches (frame nframes : Z) (midiEvent : RtMidiEvent)
    (slot : EngineEvent) :
  0 <= frame -> frame + nframes < 2 ^ 64 -> 0 < nframes < 2 ^ 32 ->
  0 <= time midiEvent < 2 ^ 64 ->
  (time midiEvent < frame ->
     engineEventTime frame nframes midiEvent slot = (0, [])) /\
  (frame <= time midiEvent < frame + nframes ->
     engineEventTime frame nframes midiEvent slot = (time midiEvent - frame, [])) /\
  (frame + nframes <= time midiEvent ->
     engineEventTime frame nframes midiEvent slot =
       (u32 (u32 frame + nframes - 1), [Stderr_MidiEventInFuture (ev_time slot) frame])).
Proof.
  intros Hf Hsum Hn Ht. unfold engineEventTime.
  rewrite (u64_small (frame + nframes)) by lia.
  repeat split; intros H.
  - destruct (Z.ltb_spec (time midiEvent) frame); [reflexivity|lia].
  - destruct (Z.ltb_spec (time midiEvent) frame); [lia|].
    destruct (Z.geb_spec (time midiEvent) (frame + nframes)); [lia|].
    rewrite u64_small by lia. rewrite u32_small by lia. reflexivity.
  - destruct (Z.ltb_spec (time midiEvent) frame); [lia|].
    destruct (Z.geb_spec (time midiEvent) (frame + nframes)); [reflexivity|lia].
Qed.

Lemma array_write_length {A : Type} (i : Z) (v : A) (arr : list A) :
  List.length (array_write i v arr) = List.length arr.
Proof.
  unfold array_write.
  destruct ((0 <=? i) && (i <? Z.of_nat (List.length arr))) eqn:H; [|reflexivity].
  apply andb_true_iff in H. destruct H as [H0 H1].
  apply Z.leb_le in H0. apply Z.ltb_lt in H1.
  rewrite length_app, length_firstn. cbn [List.length]. rewrite length_skipn. lia.
Qed.

Lemma indicesFrom_S (i : Z) (k : nat) :
  indicesFrom i (S k) = i :: indicesFrom (i + 1) k.
Proof.
  unfold indicesFrom. simpl. rewrite Z.add_0_r. f_equal.
  rewrite <- seq_shift, map_map. apply map_ext. intros j. lia.
Qed.

Lemma indicesFrom_bounds (i : Z) (k : nat) :
  Forall (fun j => i <= j < i + Z.of_nat k) (indicesFrom i k).
Proof.
  unfold indicesFrom. apply Forall_forall. intros j Hj.
  apply in_map_iff in Hj. destruct Hj as (a & <- & Ha). apply in_seq in Ha. lia.
Qed.

(** The loop writes to consecutive slots, one per event, and stops at the
    capacity of the array. *)
Lemma translateMidiEvents_writes (frame nframes : Z) (evs : list RtMidiEvent)
    (i : Z) (acc : Translation) :
  kMaxEngineEventInternalCount < 2 ^ 32 ->
  0 <= i < kMaxEngineEventInternalCount ->
  let r := translateMidiEvents frame nframes evs i acc in
  tr_writes r =
    tr_writes acc
    ++ indicesFrom i (Nat.min (List.length evs)
                              (Z.to_nat (kMaxEngineEventInternalCount - i))) /\
  List.length (tr_events r) = List.length (tr_events acc).
Proof.
  intros Hmax. revert i acc. induction evs as [|ev rest IH]; intros i acc Hi; simpl.
  - split; [|reflexivity]. unfold indicesFrom. simpl. now rewrite app_nil_r.
  - destruct (engineEventTime frame nframes ev _) as [t diag].
    rewrite (u32_small (i + 1)) by lia.
    destruct (Z.geb_spec (i + 1) kMaxEngineEventInternalCount) as [Hstop|Hgo].
    + simpl. rewrite array_write_length. split; [|reflexivity].
      replace (Z.to_nat (kMaxEngineEventInternalCount - i)) with 1%nat by lia.
      rewrite Nat.min_comm. simpl. unfold indicesFrom. simpl.
      now rewrite Z.add_0_r.
    + destruct (IH (i + 1)
                  {| tr_events := array_write i
                       {| ev_time := t;
                          ev_payload := fillFromMidiData (size ev) (data ev)
                            (ev_payload (nth (Z.to_nat i) (tr_events acc) zeroEvent)) |}
                       (tr_events acc);
                     tr_writes := tr_writes acc ++ [i];
                     tr_diags := tr_diags acc ++ diag |}) as [Hw Hl]; [lia|].
      simpl in Hw, Hl. rewrite Hw, Hl, array_write_length. split; [|reflexivity].
      rewrite <- app_assoc. f_equal. simpl.
      replace (Z.to_nat (kMaxEngineEventInternalCount - i))
        with (S (Z.to_nat (kMaxEngineEventInternalCount - (i + 1)))) by lia.
      simpl. now rewrite indicesFrom_S.
Qed.

Lemma drainMidiInEvents_queue (nframes : Z) (e : Engine) :
  fMidiInEvents (drainMidiInEvents nframes e) = {| data_ := []; dataPending := [] |} /\
  base (drainMidiInEvents nframes e) = base e /\
  events_in (drainMidiInEvents nframes e) =
    tr_events (translateMidiEvents (timeInfo_frame e) nframes
                 (data_ (fMidiInEvents e) ++ dataPending (fMidiInEvents e)) 0
                 {| tr_events := events_in e; tr_writes := []; tr_diags := [] |}).
Proof. unfold drainMidiInEvents. simpl. auto. Qed.

(** C10.  In a cycle that processes (all three guards pass) and gets the
    lock, the drained events are written to the slots 0, 1, 2, ... of
    [pData->events.in], one slot each, and no further than the capacity
    [kMaxEngineEventInternalCount]: every index written is below it.  The
    array keeps its size, and when the cycle ends both partitions of the
    queue are empty, so the events beyond the capacity are gone.  A cycle
    that does not get the lock translates nothing and leaves the queue as
    it is. *)
Theorem handleAudioProcessCallback_event_capacity
    (outs : list Sample) (inputBuffer : option (list Sample)) (nframes : Z) (e : Engine) :
  0 < kMaxEngineEventInternalCount < 2 ^ 32 ->
  bufferSize e = nframes ->
  audio_isReady e = true ->
  let drained := data_ (fMidiInEvents e) ++ dataPending (fMidiInEvents e) in
  let r := translateMidiEvents (timeInfo_frame e) nframes drained 0
             {| tr_events := zeroedEvents; tr_writes := []; tr_diags := [] |} in
  let e' := fst (handleAudioProcessCallback (Some outs) inputBuffer nframes true e) in
  let unlocked := fst (handleAudioProcessCallback (Some outs) inputBuffer nframes false e) in
  tr_writes r =
    indicesFrom 0 (Nat.min (List.length drained) (Z.to_nat kMaxEngineEventInternalCount)) /\
  Forall (fun i => 0 <= i < kMaxEngineEventInternalCount) (tr_writes r) /\
  (List.length (tr_writes r) <= Z.to_nat kMaxEngineEventInternalCount)%nat /\
  events_in e' = tr_events r /\
  Z.of_nat (List.length (events_in e')) = kMaxEngineEventInternalCount /\
  fMidiInEvents e' = {| data_ := []; dataPending := [] |} /\
  events_in unlocked = zeroedEvents /\
  fMidiInEvents unlocked = fMidiInEvents e.
Proof.
  intros Hmax Hsize Hready drained r e' unlocked.
  assert (Hun : events_in unlocked = zeroedEvents /\
                fMidiInEvents unlocked = fMidiInEvents e).
  { subst unlocked. unfold handleAudioProcessCallback.
    rewrite Hsize, Z.eqb_refl, Hready. simpl negb. cbv iota.
    cbn [graph_isRack set_events_in].
    destruct (graph_isRack e).
    - destruct (processRackFull _ _ _ _ _ _ _ _) as [b outs']. simpl. auto.
    - simpl. auto. }
  destruct (translateMidiEvents_writes (timeInfo_frame e) nframes drained 0
              {| tr_events := zeroedEvents; tr_writes := []; tr_diags := [] |})
    as [Hw Hl]; [lia|lia|].
  fold r in Hw, Hl. simpl in Hw, Hl. rewrite Z.sub_0_r in Hw.
  assert (He' : events_in e' = tr_events r /\
                fMidiInEvents e' = {| data_ := []; dataPending := [] |}).
  { subst e'. unfold handleAudioProcessCallback.
    rewrite Hsize, Z.eqb_refl, Hready. simpl negb. cbv iota.
    match goal with |- context [drainMidiInEvents nframes ?e0] =>
      destruct (drainMidiInEvents_queue nframes e0) as (Hq & Hb & Hev);
      set (e1 := drainMidiInEvents nframes e0) in * end.
    simpl in Hev. fold drained in Hev. fold r in Hev.
    destruct (graph_isRack e1).
    - destruct (processRackFull _ _ _ _ _ _ _ _) as [b outs']. simpl. auto.
    - simpl. auto. }
  destruct He' as [Hev Hq].
  repeat split.
  - exact Hw.
  - rewrite Hw. eapply Forall_impl; [|apply indicesFrom_bounds]. simpl. intros; lia.
  - rewrite Hw. unfold indicesFrom. rewrite length_map, length_seq. lia.
  - exact Hev.
  - rewrite Hev, Hl. unfold zeroedEvents. rewrite repeat_length. lia.
  - exact Hq.
  - apply Hun.
  - apply Hun.
Qed.

Lemma FLOAT_CLEAR_silence (buf : list Sample) (n : Z) :
  List.length (FLOAT_CLEAR buf n) = List.length buf /\
  Forall (eq silence) (firstn (Z.to_nat n) (FLOAT_CLEAR buf n)) /\
  skipn (Z.to_nat n) (FLOAT_CLEAR buf n) = skipn (Z.to_nat n) buf.
Proof.
  unfold FLOAT_CLEAR.
  set (k := Z.to_nat n).
  assert (Hlen : List.length (repeat silence (Nat.min k (List.length buf)))
                 = Nat.min k (List.length buf)) by apply repeat_length.
  assert (Hfirst : firstn k (repeat silence (Nat.min k (List.length buf)) ++ skipn k buf)
                   = repeat silence (Nat.min k (List.length buf))).
  { rewrite firstn_app, Hlen, firstn_all2 by lia.
    destruct (Nat.le_gt_cases k (List.length buf)) as [Hk|Hk].
    - replace (k - Nat.min k (List.length buf))%nat with 0%nat by lia.
      rewrite firstn_0. apply app_nil_r.
    - rewrite (skipn_all2 buf) by lia. rewrite firstn_nil. apply app_nil_r. }
  repeat split.
  - rewrite length_app, Hlen, length_skipn. lia.
  - rewrite Hfirst. apply Forall_forall. intros x Hx.
    apply repeat_spec in Hx. now subst.
  - rewrite skipn_app, Hlen.
    destruct (Nat.le_gt_cases k (List.length buf)) as [Hk|Hk].
    + rewrite skipn_all2 by (rewrite Hlen; lia).
      replace (k - Nat.min k (List.length buf))%nat with 0%nat by lia. reflexivity.
    + rewrite (skipn_all2 buf) by lia. rewrite skipn_nil.
      rewrite skipn_all2 by (rewrite Hlen; lia). reflexivity.
Qed.

(** C3, as the code has it.  The call returns early, having done nothing
    but report a failed assertion and run the pending RT events, when the
    output pointer is null, when [nframes] is not the committed buffer
    size, or when the driver is not ready; the output buffer, the event
    array and the queue are then as they were.  In every other call the
    first [nframes * fAudioOutCount] samples of the output buffer are
    zeroed before anything else happens to it, the graph processor (rack
    mode) is entered with that zeroed buffer, and the pending RT events
    run last. *)
Theorem handleAudioProcessCallback_output
    (outputBuffer inputBuffer : option (list Sample)) (nframes : Z) (tryLock : bool)
    (e : Engine) :
  let r := handleAudioProcessCallback outputBuffer inputBuffer nframes tryLock e in
  ((outputBuffer = None \/ bufferSize e <> nframes \/ audio_isReady e = false) ->
     snd r = outputBuffer /\
     events_in (fst r) = events_in e /\
     fMidiInEvents (fst r) = fMidiInEvents e /\
     base (fst r) = runPendingRtEvents (base e)) /\
  (forall outs : list Sample,
     outputBuffer = Some outs -> bufferSize e = nframes -> audio_isReady e = true ->
     let region := u32 (nframes * fAudioOutCount e) in
     let cleared := FLOAT_CLEAR outs region in
     let e1 := beforeProcessing nframes tryLock e in
     let processed :=
       processRackFull (events_in e1) (graph_rack e1) (base e1) inputBuffer
                       (fAudioInCount e) cleared (fAudioOutCount e) nframes in
     List.length cleared = List.length outs /\
     Forall (eq silence) (firstn (Z.to_nat region) cleared) /\
     (if graph_isRack e
      then snd r = Some (snd processed) /\
           base (fst r) = runPendingRtEvents (fst processed)
      else snd r = Some cleared /\
           base (fst r) = runPendingRtEvents (base e))).
Proof.
  cbv zeta. split.
  - intros Hearly. unfold handleAudioProcessCallback.
    destruct outputBuffer as [outs|]; [|simpl; auto].
    destruct (Z.eqb_spec (bufferSize e) nframes) as [Heq|Hne]; [|simpl; auto].
    destruct (audio_isReady e) eqn:Hready; [|simpl; auto].
    destruct Hearly as [H|[H|H]]; congruence.
  - intros outs -> Hsize Hready.
    destruct (FLOAT_CLEAR_silence outs (u32 (nframes * fAudioOutCount e))) as (Hl & Hs & _).
    split; [exact Hl|]. split; [exact Hs|].
    unfold handleAudioProcessCallback.
    rewrite Hsize, Z.eqb_refl, Hready. simpl negb. cbv iota.
    fold (beforeProcessing nframes tryLock e).
    assert (Hframe : graph_isRack (beforeProcessing nframes tryLock e) = graph_isRack e /\
                     fAudioInCount (beforeProcessing nframes tryLock e) = fAudioInCount e /\
                     fAudioOutCount (beforeProcessing nframes tryLock e) = fAudioOutCount e /\
                     base (beforeProcessing nframes tryLock e) = base e).
    { unfold beforeProcessing, drainMidiInEvents. destruct tryLock; simpl; auto. }
    destruct Hframe as (Hr & Hi & Ho & Hb).
    rewrite Hr, Hi, Ho.
    destruct (graph_isRack e).
    + destruct (processRackFull _ _ _ _ _ _ _ _) as [b outs']. simpl. auto.
    + simpl. rewrite Hb. auto.
Qed.

End AudioCallback.

(** *** The audio callback at work *)

(** C1.  At frame 1000 with 512 frames a period, an event stamped 1512 (the
    first frame after the window) is reported on stderr and handed on with
    time 1511, which is [(uint32_t)frame + nframes - 1], not the last
    offset of the window, 511. *)
Theorem future_event_time_is_absolute :
  let e' := fst (@handleAudioProcessCallback (plainExternals 512)
                (Some (repeat 1%float 1024)) None 512 true lateNote) in
  map ev_time (firstn 1 (events_in e')) = [1511] /\
  trace e' = [Stderr_MidiEventInFuture 0 1000] /\
  (1511 =? 512 - 1) = false.
Proof. vm_compute. repeat split. Qed.

(** C3 fails as stated: with a frame count that differs from the committed
    buffer size the call returns with the output buffer as it found it,
    not silenced; and a call on a driver that is not ready returns early
    too, though its frame count is the committed one. *)
Lemma early_return_leaves_output :
  snd (@handleAudioProcessCallback (plainExternals 512)
         (Some loudBuffer) None 256 true (runningEngine 512))
    = Some loudBuffer /\
  existsb (fun x => PrimFloat.eqb x 0%float) loudBuffer = false /\
  bufferSize (set_audio_isReady false (runningEngine 512)) = 512 /\
  snd (@handleAudioProcessCallback (plainExternals 512)
         (Some loudBuffer) None 512 true (set_audio_isReady false (runningEngine 512)))
    = Some loudBuffer.
Proof. vm_compute. repeat split. Qed.

(** Three events drained into an array of two slots: the third is lost. *)
Lemma event_capacity_witness :
  (0 < @kMaxEngineEventInternalCount (plainExternals 2) < 2 ^ 32 /\
   bufferSize threeNotes = 512 /\ audio_isReady threeNotes = true) /\
  let r := @translateMidiEvents (plainExternals 2) 1000 512
             [midiEventAt 1000; midiEventAt 1001; midiEventAt 1002] 0
             {| tr_events := zeroedEvents; tr_writes := []; tr_diags := [] |} in
  let e' := fst (@handleAudioProcessCallback (plainExternals 2)
                  (Some loudBuffer) None 512 true threeNotes) in
  let unlocked := fst (@handleAudioProcessCallback (plainExternals 2)
                         (Some loudBuffer) None 512 false threeNotes) in
  tr_writes r = [0; 1] /\
  Forall (fun i => 0 <= i < 2) (tr_writes r) /\
  (List.length (tr_writes r) <= 2)%nat /\
  events_in e' = tr_events r /\
  Z.of_nat (List.length (events_in e')) = 2 /\
  fMidiInEvents e' = {| data_ := []; dataPending := [] |} /\
  events_in unlocked = zeroedEvents /\
  fMidiInEvents unlocked = fMidiInEvents threeNotes.
Proof.
  split.
  - vm_compute. repeat split.
  - apply (@handleAudioProcessCallback_event_capacity (plainExternals 2)
             loudBuffer None 512 threeNotes).
    + vm_compute. split; reflexivity.
    + reflexivity.
    + reflexivity.
Defined.

(** ** The patchbay refresh *)

Section Patchbay.
Context {X : Externals}.

Lemma stableDriver_refl (e : Engine) : stableDriver e e.
Proof. unfold stableDriver. repeat split. Qed.

Lemma stableDriver_trans (e1 e2 e3 : Engine) :
  stableDriver e1 e2 -> stableDriver e2 e3 -> stableDriver e1 e3.
Proof.
  unfold stableDriver. intros H1 H2.
  decompose [and] H1. decompose [and] H2. repeat split; congruence.
Qed.

Lemma indicesFrom_app (a : Z) (k1 k2 : nat) :
  indicesFrom a (k1 + k2) = indicesFrom a k1 ++ indicesFrom (a + Z.of_nat k1) k2.
Proof.
  revert a. induction k1 as [|k1 IH]; intros a.
  - simpl. now rewrite Z.add_0_r.
  - cbn [Nat.add]. rewrite !indicesFrom_S, IH. simpl. do 3 f_equal. lia.
Qed.

Lemma emittedConnections_app (s1 s2 : list Effect) :
  emittedConnections (s1 ++ s2) = emittedConnections s1 ++ emittedConnections s2.
Proof. unfold emittedConnections. apply flat_map_app. Qed.

Lemma phase_refl (e : Engine) : phase e e [].
Proof.
  unfold phase. simpl. split; [|split; [|split; [|split]]].
  - exists []. now rewrite app_nil_r.
  - lia.
  - now rewrite app_nil_r.
  - reflexivity.
  - apply stableDriver_refl.
Qed.

Lemma phase_trans (e1 e2 e3 : Engine) (c1 c2 : list ConnectionToId) :
  phase e1 e2 c1 -> phase e2 e3 c2 -> phase e1 e3 (c1 ++ c2).
Proof.
  intros ((s1 & Ht1 & Hc1) & Hl1 & Hls1 & Hi1 & Hs1)
         ((s2 & Ht2 & Hc2) & Hl2 & Hls2 & Hi2 & Hs2).
  unfold phase. split; [|split; [|split; [|split]]].
  - exists (s1 ++ s2). rewrite Ht2, Ht1, app_assoc, emittedConnections_app, Hc1, Hc2. auto.
  - rewrite Hl2, Hl1, length_app. lia.
  - rewrite Hls2, Hls1, app_assoc. reflexivity.
  - rewrite map_app, Hi1, Hi2, Hl1, length_app, indicesFrom_app.
    f_equal. f_equal. lia.
  - eapply stableDriver_trans; eassumption.
Qed.

Lemma emit_phase (ef : Effect) (e : Engine) :
  emittedConnections [ef] = [] -> phase e (emit ef e) [].
Proof.
  intros Hef. unfold phase. simpl. split; [|split; [|split; [|split]]].
  - exists [ef]. auto.
  - lia.
  - now rewrite app_nil_r.
  - reflexivity.
  - unfold stableDriver. simpl. repeat split.
Qed.

Lemma addAudioPorts_phase (group : RackGraphGroup) (flags : PortFlags) (prefix : string)
    (fuel : nat) (i : Z) (e : Engine) :
  phase e (addAudioPorts group flags prefix fuel i e) [].
Proof.
  revert i e. induction fuel as [|fuel IH]; intros i e; simpl.
  - apply phase_refl.
  - change (@nil ConnectionToId) with (@nil ConnectionToId ++ []).
    eapply phase_trans; [|apply IH]. now apply emit_phase.
Qed.

Lemma addMidiPorts_phase (isInput : bool) (portNames : list string) (i : Z) (e : Engine) :
  phase e (addMidiPorts isInput portNames i e) [].
Proof.
  revert i e. induction portNames as [|portName rest IH]; intros i e; simpl.
  - apply phase_refl.
  - change (@nil ConnectionToId) with (@nil ConnectionToId ++ []).
    eapply phase_trans; [|apply IH].
    unfold phase, stableDriver.
    destruct isInput; simpl; (split; [|split; [|split; [|split]]]);
      try (eexists; split; reflexivity); try lia; try (now rewrite app_nil_r);
      repeat split.
Qed.

Lemma addConnection_phase (gA : RackGraphGroup) (pA : PortRef) (gB : RackGraphGroup)
    (pB : PortRef) (e : Engine) :
  0 <= lastId (connections (graph_rack e)) ->
  lastId (connections (graph_rack e)) + 1 < 2 ^ 32 ->
  exists c,
    phase e (addConnection gA pA gB pB e) [c] /\ groupA c = gA /\ groupB c = gB.
Proof.
  intros H0 H1.
  exists {| id := lastId (connections (graph_rack e)) + 1;
            groupA := gA; portA := pA; groupB := gB; portB := pB |}.
  split; [|split; reflexivity].
  unfold phase, addConnection, stableDriver. simpl. rewrite u32_small by lia.
  split; [|split; [|split; [|split]]].
  - eexists. split; reflexivity.
  - lia.
  - reflexivity.
  - unfold indicesFrom. simpl. f_equal. lia.
  - repeat split.
Qed.

(** One connection loop: it emits at most one connection per entry, all of
    the kind the loop makes. *)
Lemma addConnections_phase (mk : Z -> Engine -> Engine) (gA gB : RackGraphGroup)
    (pA pB : Z -> PortRef) (limit : Z) (portIds : list Z) (e : Engine) :
  (forall p e0, mk p e0 = addConnection gA (pA p) gB (pB p) e0) ->
  0 <= lastId (connections (graph_rack e)) ->
  lastId (connections (graph_rack e)) + Z.of_nat (List.length portIds) < 2 ^ 32 ->
  exists conns,
    phase e (addConnections mk limit portIds e) conns /\
    (List.length conns <= List.length portIds)%nat /\
    Forall (fun c => groupA c = gA /\ groupB c = gB) conns.
Proof.
  intros Hmk. revert e. induction portIds as [|p rest IH]; intros e H0 Hb; simpl in *.
  - exists []. split; [apply phase_refl|]. split; [simpl; lia|constructor].
  - destruct (p <? limit).
    + rewrite Hmk.
      destruct (addConnection_phase gA (pA p) gB (pB p) e) as (c & Hc & HgA & HgB);
        [lia|lia|].
      pose proof Hc as (_ & Hl & _).
      destruct (IH (addConnection gA (pA p) gB (pB p) e)) as (conns & Hp & Hlen & Hall).
      { rewrite Hl. simpl. lia. }
      { rewrite Hl. simpl List.length. lia. }
      exists ([c] ++ conns). split; [eapply phase_trans; eassumption|].
      split; [simpl; lia|]. constructor; auto.
    + assert (Hs : phase e (carla_safe_assert e) []) by now apply emit_phase.
      destruct (IH (carla_safe_assert e)) as (conns & Hp & Hlen & Hall).
      { simpl. lia. }
      { simpl. lia. }
      exists conns. split.
      * change conns with ([] ++ conns). eapply phase_trans; eassumption.
      * split; [lia|assumption].
Qed.

Lemma addConnections_step (mk : Z -> Engine -> Engine) (gA gB : RackGraphGroup)
    (pA pB : Z -> PortRef) (limit : Z) (portIds : list Z) (e e1 : Engine)
    (acc : list ConnectionToId) :
  (forall p e0, mk p e0 = addConnection gA (pA p) gB (pB p) e0) ->
  phase e e1 acc ->
  0 <= lastId (connections (graph_rack e)) ->
  lastId (connections (graph_rack e))
    + Z.of_nat (List.length acc) + Z.of_nat (List.length portIds) < 2 ^ 32 ->
  exists conns,
    phase e (addConnections mk limit portIds e1) (acc ++ conns) /\
    (List.length conns <= List.length portIds)%nat /\
    Forall (fun c => groupA c = gA /\ groupB c = gB) conns.
Proof.
  intros Hmk Hacc H0 Hb.
  pose proof Hacc as (_ & Hl & _).
  destruct (addConnections_phase mk gA gB pA pB limit portIds e1 Hmk)
    as (conns & Hp & Hlen & Hall); [lia|lia|].
  exists conns. split; [eapply phase_trans; eassumption|]. auto.
Qed.

Lemma midiPortIds_length (isInput : bool) (ports : list MidiPort) (e : Engine) :
  List.length (midiPortIds isInput ports e) = List.length ports.
Proof. unfold midiPortIds. apply length_map. Qed.

Lemma refreshConnections_phase (e : Engine) :
  0 <= lastId (connections (graph_rack e)) ->
  lastId (connections (graph_rack e)) + Z.of_nat (connectionCandidates e) < 2 ^ 32 ->
  exists audioIn audioOut midiIn midiOut,
    phase e (refreshConnections e) (audioIn ++ audioOut ++ midiIn ++ midiOut) /\
    Forall isAudioInConnection audioIn /\ Forall isAudioOutConnection audioOut /\
    Forall isMidiInConnection midiIn /\ Forall isMidiOutConnection midiOut.
Proof.
  intros H0 Hb. unfold connectionCandidates in Hb. unfold refreshConnections. cbv zeta.
  (* audio-in1 *)
  destruct (addConnections_step connectAudioIn1 RACK_GRAPH_GROUP_AUDIO_IN
              RACK_GRAPH_GROUP_CARLA HwPort
              (fun _ => CarlaPort RACK_GRAPH_CARLA_PORT_AUDIO_IN1)
              (fAudioInCount e) (connectedIn1 (graph_rack e)) e e [])
    as (c1 & P1 & L1 & F1);
    [reflexivity | apply phase_refl | lia | simpl; lia |].
  simpl app in P1.
  set (e1 := addConnections connectAudioIn1 _ _ e) in *.
  pose proof P1 as (_ & _ & _ & _ & S1). unfold stableDriver in S1. decompose [and] S1.
  (* audio-in2 *)
  destruct (addConnections_step connectAudioIn2 RACK_GRAPH_GROUP_AUDIO_IN
              RACK_GRAPH_GROUP_CARLA HwPort
              (fun _ => CarlaPort RACK_GRAPH_CARLA_PORT_AUDIO_IN2)
              (fAudioInCount e1) (connectedIn2 (graph_rack e1)) e e1 c1)
    as (c2 & P2 & L2 & F2); [reflexivity | exact P1 | lia | |].
  { replace (connectedIn2 (graph_rack e1)) with (connectedIn2 (graph_rack e)) by congruence.
    lia. }
  replace (connectedIn2 (graph_rack e1)) with (connectedIn2 (graph_rack e)) in L2 by congruence.
  set (e2 := addConnections connectAudioIn2 _ _ e1) in *.
  pose proof P2 as (_ & _ & _ & _ & S2). unfold stableDriver in S2. decompose [and] S2.
  (* audio-out1 *)
  destruct (addConnections_step connectAudioOut1 RACK_GRAPH_GROUP_CARLA
              RACK_GRAPH_GROUP_AUDIO_OUT
              (fun _ => CarlaPort RACK_GRAPH_CARLA_PORT_AUDIO_OUT1) HwPort
              (fAudioOutCount e2) (connectedOut1 (graph_rack e2)) e e2 (c1 ++ c2))
    as (c3 & P3 & L3 & F3); [reflexivity | exact P2 | lia | |].
  { replace (connectedOut1 (graph_rack e2)) with (connectedOut1 (graph_rack e)) by congruence.
    rewrite length_app. lia. }
  replace (connectedOut1 (graph_rack e2)) with (connectedOut1 (graph_rack e)) in L3 by congruence.
  set (e3 := addConnections connectAudioOut1 _ _ e2) in *.
  pose proof P3 as (_ & _ & _ & _ & S3). unfold stableDriver in S3. decompose [and] S3.
  (* audio-out2 *)
  destruct (addConnections_step connectAudioOut2 RACK_GRAPH_GROUP_CARLA
              RACK_GRAPH_GROUP_AUDIO_OUT
              (fun _ => CarlaPort RACK_GRAPH_CARLA_PORT_AUDIO_OUT2) HwPort
              (fAudioOutCount e3) (connectedOut2 (graph_rack e3)) e e3 ((c1 ++ c2) ++ c3))
    as (c4 & P4 & L4 & F4); [reflexivity | exact P3 | lia | |].
  { replace (connectedOut2 (graph_rack e3)) with (connectedOut2 (graph_rack e)) by congruence.
    rewrite !length_app. lia. }
  replace (connectedOut2 (graph_rack e3)) with (connectedOut2 (graph_rack e)) in L4 by congruence.
  set (e4 := addConnections connectAudioOut2 _ _ e3) in *.
  pose proof P4 as (_ & _ & _ & _ & S4). unfold stableDriver in S4. decompose [and] S4.
  (* MIDI in *)
  destruct (addConnections_step connectMidiIn RACK_GRAPH_GROUP_MIDI_IN
              RACK_GRAPH_GROUP_CARLA HwPort
              (fun _ => CarlaPort RACK_GRAPH_CARLA_PORT_MIDI_IN)
              (Z.of_nat (List.length (midi_ins (graph_rack e4))))
              (midiPortIds true (fMidiIns e4) e4) e e4 (((c1 ++ c2) ++ c3) ++ c4))
    as (c5 & P5 & L5 & F5); [reflexivity | exact P4 | lia | |].
  { rewrite midiPortIds_length.
    replace (fMidiIns e4) with (fMidiIns e) by congruence.
    rewrite !length_app. lia. }
  rewrite midiPortIds_length in L5.
  replace (fMidiIns e4) with (fMidiIns e) in L5 by congruence.
  set (e5 := addConnections connectMidiIn _ _ e4) in *.
  pose proof P5 as (_ & _ & _ & _ & S5). unfold stableDriver in S5. decompose [and] S5.
  (* MIDI out *)
  destruct (addConnections_step connectMidiOut RACK_GRAPH_GROUP_CARLA
              RACK_GRAPH_GROUP_MIDI_OUT
              (fun _ => CarlaPort RACK_GRAPH_CARLA_PORT_MIDI_OUT) HwPort
              (Z.of_nat (List.length (midi_outs (graph_rack e5))))
              (midiPortIds false (fMidiOuts e5) e5) e e5
              ((((c1 ++ c2) ++ c3) ++ c4) ++ c5))
    as (c6 & P6 & L6 & F6); [reflexivity | exact P5 | lia | |].
  { rewrite midiPortIds_length.
    replace (fMidiOuts e5) with (fMidiOuts e) by congruence.
    rewrite !length_app. lia. }
  exists (c1 ++ c2), (c3 ++ c4), c5, c6.
  split.
  - replace ((c1 ++ c2) ++ (c3 ++ c4) ++ c5 ++ c6)
      with (((((c1 ++ c2) ++ c3) ++ c4) ++ c5) ++ c6)
      by (rewrite <- !app_assoc; reflexivity).
    exact P6.
  - unfold isAudioInConnection, isAudioOutConnection, isMidiInConnection,
      isMidiOutConnection.
    repeat split; try apply Forall_app; auto.
Qed.

Lemma refreshGroups_phase (n : Native) (e : Engine) :
  phase (set_graph_rack
           (set_connections (connections_clear (connections (graph_rack e))) (graph_rack e)) e)
        (refreshGroups n e) [].
Proof.
  unfold refreshGroups. cbv zeta.
  repeat first
    [ apply phase_refl
    | eapply (phase_trans _ _ _ [] []);
      [| first [ apply addMidiPorts_phase | apply addAudioPorts_phase
               | apply emit_phase; reflexivity ] ] ].
Qed.

Lemma indicesFrom_sorted (a : Z) (k : nat) : StronglySorted Z.lt (indicesFrom a k).
Proof.
  revert a. induction k as [|k IH]; intros a.
  - constructor.
  - rewrite indicesFrom_S. constructor; [apply IH|].
    eapply Forall_impl; [|apply indicesFrom_bounds]. simpl. intros; lia.
Qed.

Lemma sorted_lt_NoDup (l : list Z) : StronglySorted Z.lt l -> NoDup l.
Proof.
  induction 1 as [|x l Hs IH Hall]; constructor; [|assumption].
  intros Hin. rewrite Forall_forall in Hall. specialize (Hall x Hin). lia.
Qed.

(** C7.  In one pass of [patchbayRefreshRack] every connection announced
    takes its id from the single counter [rack->connections.lastId],
    incremented just before: as long as the counter does not wrap (it
    starts from what [connections.clear()] leaves and meets fewer than
    2^32 candidates), the ids are consecutive, hence strictly increasing in
    emission order and pairwise different; and the connections come out as
    audio-in, then audio-out, then MIDI-in, then MIDI-out. *)
Theorem patchbayRefreshRack_connection_ids (n : Native) (e : Engine) :
  let cleared := connections_clear (connections (graph_rack e)) in
  0 <= lastId cleared ->
  lastId cleared + Z.of_nat (connectionCandidates e) < 2 ^ 32 ->
  exists suffix,
    trace (patchbayRefreshRack n e) = trace e ++ suffix /\
    let conns := emittedConnections suffix in
    map id conns = indicesFrom (lastId cleared + 1) (List.length conns) /\
    StronglySorted Z.lt (map id conns) /\
    NoDup (map id conns) /\
    list_ (connections (graph_rack (patchbayRefreshRack n e))) = list_ cleared ++ conns /\
    exists audioIn audioOut midiIn midiOut,
      conns = audioIn ++ audioOut ++ midiIn ++ midiOut /\
      Forall isAudioInConnection audioIn /\ Forall isAudioOutConnection audioOut /\
      Forall isMidiInConnection midiIn /\ Forall isMidiOutConnection midiOut.
Proof.
  intros cleared H0 Hb. unfold patchbayRefreshRack.
  pose proof (refreshGroups_phase n e) as Pg. fold cleared in Pg.
  set (e0 := set_graph_rack (set_connections cleared (graph_rack e)) e) in *.
  set (eg := refreshGroups n e) in *.
  pose proof Pg as (_ & Hlg & _ & _ & Sg). simpl in Hlg. rewrite Z.add_0_r in Hlg.
  unfold stableDriver in Sg. simpl in Sg. decompose [and] Sg.
  destruct (refreshConnections_phase eg) as (ai & ao & mi & mo & Pc & Fai & Fao & Fmi & Fmo).
  { rewrite Hlg. exact H0. }
  { rewrite Hlg. unfold connectionCandidates in *.
    replace (connectedIn1 (graph_rack eg)) with (connectedIn1 (graph_rack e)) by congruence.
    replace (connectedIn2 (graph_rack eg)) with (connectedIn2 (graph_rack e)) by congruence.
    replace (connectedOut1 (graph_rack eg)) with (connectedOut1 (graph_rack e)) by congruence.
    replace (connectedOut2 (graph_rack eg)) with (connectedOut2 (graph_rack e)) by congruence.
    replace (fMidiIns eg) with (fMidiIns e) by congruence.
    replace (fMidiOuts eg) with (fMidiOuts e) by congruence.
    exact Hb. }
  pose proof (phase_trans _ _ _ _ _ Pg Pc) as P. simpl app in P.
  destruct P as ((suffix & Ht & Hc) & _ & Hls & Hids & _).
  change (trace e0) with (trace e) in Ht.
  change (connections (graph_rack e0)) with cleared in Hls, Hids.
  exists suffix. split; [exact Ht|]. cbv zeta. rewrite Hc.
  split; [exact Hids|].
  split; [rewrite Hids; apply indicesFrom_sorted|].
  split; [rewrite Hids; apply sorted_lt_NoDup, indicesFrom_sorted|].
  split; [exact Hls|].
  exists ai, ao, mi, mo. auto.
Qed.

End Patchbay.

(** ** close *)

Section Close.
Context {X : Externals}.

Lemma closeStream_spec (n : Native) (hasError : bool) (e : Engine) :
  let r := closeStream n hasError e in
  trace (snd r) = trace e ++ streamTeardown (fAudio e) /\
  (hasError = true -> fst r = true /\ lastError (snd r) = lastError e) /\
  (forall what,
     RtAudio.streamOpen (fAudio e) = true -> RtAudio.streamRunning (fAudio e) = true ->
     stopStream n = Threw what ->
     fst r = true /\ (hasError = false -> lastError (snd r) = what)) /\
  (RtAudio.streamOpen (fAudio e) = true -> RtAudio.streamOpen (fAudio (snd r)) = false) /\
  fMidiIns (snd r) = fMidiIns e /\ fMidiOuts (snd r) = fMidiOuts e /\
  liveHandles (snd r) = liveHandles e /\ audio_isReady (snd r) = audio_isReady e.
Proof.
  unfold closeStream, streamTeardown.
  destruct (RtAudio.streamOpen (fAudio e)) eqn:Hopen;
    [destruct (RtAudio.streamRunning (fAudio e)) eqn:Hrun;
     [destruct (stopStream n) as [u|what'] eqn:Hstop; destruct hasError|]|];
    simpl; rewrite <- ?app_assoc, ?app_nil_r; simpl;
    (split; [reflexivity|]);
    (split; [intros H; try discriminate H; auto|]);
    (split; [intros what Ho Hr Hw; try discriminate; try (injection Hw as <-);
             (split; [reflexivity|intros H; try discriminate H; auto])|]);
    (split; [intros H; try discriminate H; reflexivity|]);
    repeat split.
Qed.

Lemma closeMidiIn_fold (ports : list MidiPort) (e : Engine) :
  let e' := fold_left closeMidiIn ports e in
  trace e' = trace e ++ midiInTeardown ports /\
  (forall h, In h (liveHandles e') -> In h (liveHandles e) /\ ~ In h (map rtmidi ports)) /\
  lastError e' = lastError e /\ fAudio e' = fAudio e /\
  fMidiIns e' = fMidiIns e /\ fMidiOuts e' = fMidiOuts e /\
  audio_isReady e' = audio_isReady e.
Proof.
  revert e. induction ports as [|p ports IH]; intros e; simpl.
  - rewrite app_nil_r. repeat split; auto.
  - destruct (IH (closeMidiIn e p)) as (Ht & Hh & Hrest). cbv zeta.
    split; [rewrite Ht; simpl; rewrite <- !app_assoc; reflexivity|].
    split; [|exact Hrest].
    intros h Hin. destruct (Hh h Hin) as [Hl Hn]. simpl in Hl.
    apply in_remove in Hl. destruct Hl as [Hl Hne]. split; [exact Hl|].
    intros [Heq|Hin']; [congruence|contradiction].
Qed.

Lemma closeMidiOut_fold (ports : list MidiPort) (e : Engine) :
  let e' := fold_left closeMidiOut ports e in
  trace e' = trace e ++ midiOutTeardown ports /\
  (forall h, In h (liveHandles e') -> In h (liveHandles e) /\ ~ In h (map rtmidi ports)) /\
  lastError e' = lastError e /\ fAudio e' = fAudio e /\
  fMidiIns e' = fMidiIns e /\ fMidiOuts e' = fMidiOuts e /\
  audio_isReady e' = audio_isReady e.
Proof.
  revert e. induction ports as [|p ports IH]; intros e; simpl.
  - rewrite app_nil_r. repeat split; auto.
  - destruct (IH (closeMidiOut e p)) as (Ht & Hh & Hrest). cbv zeta.
    split; [rewrite Ht; simpl; rewrite <- !app_assoc; reflexivity|].
    split; [|exact Hrest].
    intros h Hin. destruct (Hh h Hin) as [Hl Hn]. simpl in Hl.
    apply in_remove in Hl. destruct Hl as [Hl Hne]. split; [exact Hl|].
    intros [Heq|Hin']; [congruence|contradiction].
Qed.

(** C6.  [close] reports failure when stopping the stream threw, and when
    the base class had not failed before, the error it records is that of
    the stream (otherwise the first error stays).  Whatever failed, the
    whole teardown runs: the stream is closed; every MIDI input has its
    callback cancelled and is then deleted; every MIDI output is deleted;
    the port lists, the event queue, the used-port list and the device
    name are emptied; the channel counts and the last event time are 0. *)
Theorem close_teardown (n : Native) (e : Engine) :
  let baseClose := CarlaEngine_close (lastError e) (graph_rack e) (base e) in
  let r := close n e in
  (forall what,
     RtAudio.streamOpen (fAudio e) = true -> RtAudio.streamRunning (fAudio e) = true ->
     stopStream n = Threw what ->
     fst r = false /\
     (fst baseClose = true -> lastError (snd r) = what) /\
     (fst baseClose = false -> lastError (snd r) = fst (fst (snd baseClose)))) /\
  (fst baseClose = false -> fst r = false) /\
  trace (snd r) =
    trace e ++ (if fAudioOutCount e =? 0 then [SafeAssertFailed] else [])
            ++ streamTeardown (fAudio e)
            ++ midiInTeardown (fMidiIns e) ++ midiOutTeardown (fMidiOuts e) /\
  (RtAudio.streamOpen (fAudio e) = true -> RtAudio.streamOpen (fAudio (snd r)) = false) /\
  Forall (fun p => ~ In (rtmidi p) (liveHandles (snd r))) (fMidiIns e ++ fMidiOuts e) /\
  fMidiIns (snd r) = [] /\ fMidiOuts (snd r) = [] /\
  fMidiInEvents (snd r) = {| data_ := []; dataPending := [] |} /\
  fUsedMidiPorts (snd r) = [] /\ fDeviceName (snd r) = ""%string /\
  fAudioInCount (snd r) = 0 /\ fAudioOutCount (snd r) = 0 /\ fLastEventTime (snd r) = 0 /\
  audio_isReady (snd r) = false.
Proof.
  cbv zeta. unfold close.
  set (ea := if fAudioOutCount e =? 0 then carla_safe_assert e else e).
  assert (Hea : trace ea = trace e ++ (if fAudioOutCount e =? 0 then [SafeAssertFailed] else [])
                /\ lastError ea = lastError e /\ graph_rack ea = graph_rack e
                /\ base ea = base e /\ fAudio ea = fAudio e /\ fMidiIns ea = fMidiIns e
                /\ fMidiOuts ea = fMidiOuts e).
  { subst ea. destruct (fAudioOutCount e =? 0); simpl; rewrite ?app_nil_r; repeat split. }
  destruct Hea as (Hta & Hla & Hga & Hba & Hfa & Hia & Hoa).
  cbn [lastError graph_rack base set_audio_isReady].
  rewrite Hla, Hga, Hba.
  destruct (CarlaEngine_close (lastError e) (graph_rack e) (base e)) as [ok [[err rack] b]].
  cbn [fst snd].
  set (eb := set_base b (set_graph_rack rack (set_lastError err (set_audio_isReady false ea)))).
  pose proof (closeStream_spec n (negb ok) eb) as Hcs. cbv zeta in Hcs.
  destruct (closeStream n (negb ok) eb) as [hasError es]. cbn [fst snd] in Hcs.
  destruct Hcs as (Hts & Hkeep & Hstop & Hopen & His & Hos & Hhs & Hrs).
  change (trace eb) with (trace ea) in Hts. change (fAudio eb) with (fAudio ea) in *.
  change (fMidiIns eb) with (fMidiIns ea) in His.
  change (fMidiOuts eb) with (fMidiOuts ea) in Hos.
  change (lastError eb) with err in Hkeep.
  pose proof (closeMidiIn_fold (fMidiIns es) es) as Hfi. cbv zeta in Hfi.
  set (ei := fold_left closeMidiIn (fMidiIns es) es) in *.
  destruct Hfi as (Hti & Hhi & Hli & Hfai & Hii & Hoi & Hri).
  pose proof (closeMidiOut_fold (fMidiOuts ei) ei) as Hfo. cbv zeta in Hfo.
  set (eo := fold_left closeMidiOut (fMidiOuts ei) ei) in *.
  destruct Hfo as (Hto & Hho & Hlo & Hfao & Hio & Hoo & Hro).
  cbn [fst snd].
  cbn [trace lastError fAudio liveHandles fMidiIns fMidiOuts fMidiInEvents fUsedMidiPorts
       fDeviceName fAudioInCount fAudioOutCount fLastEventTime audio_isReady
       set_fAudioInCount set_fAudioOutCount set_fLastEventTime set_fDeviceName
       set_fUsedMidiPorts set_fMidiInEvents set_fMidiIns set_fMidiOuts].
  rewrite Hfa in *.
  split.
  { intros what Ho Hr Hw. destruct (Hstop what Ho Hr Hw) as [-> Hfirst].
    split; [reflexivity|]. rewrite Hlo, Hli. split.
    - intros ->. apply Hfirst. reflexivity.
    - intros ->. apply Hkeep. reflexivity. }
  split.
  { intros ->. destruct (Hkeep eq_refl) as [-> _]. reflexivity. }
  split.
  { rewrite Hto, Hti, Hts, Hta, Hoi, Hos, His, Hia, Hoa, <- !app_assoc. reflexivity. }
  split.
  { intros Ho. rewrite Hfao, Hfai. apply Hopen, Ho. }
  split.
  { apply Forall_forall. intros p Hp Hin.
    destruct (Hho _ Hin) as [Hin1 Hno]. destruct (Hhi _ Hin1) as [Hin2 Hni].
    rewrite Hoi, Hos, Hoa in Hno. rewrite His, Hia in Hni.
    apply in_app_or in Hp. destruct Hp as [Hp|Hp].
    - apply Hni. now apply in_map.
    - apply Hno. now apply in_map. }
  repeat split; try reflexivity.
  rewrite Hro, Hri, Hrs. reflexivity.
Qed.

End Close.

(** ** init *)

Section Init.
Context {X : Externals}.

Lemma addConnections_stable (mk : Z -> Engine -> Engine) (limit : Z) (portIds : list Z)
    (e : Engine) :
  (forall p e0, stableDriver e0 (mk p e0)) ->
  stableDriver e (addConnections mk limit portIds e).
Proof.
  intros Hmk. revert e. induction portIds as [|p rest IH]; intros e; simpl.
  - apply stableDriver_refl.
  - destruct (p <? limit).
    + eapply stableDriver_trans; [apply Hmk|apply IH].
    + eapply stableDriver_trans; [|apply IH]. unfold stableDriver. simpl. repeat split.
Qed.

Lemma addConnection_stable (gA : RackGraphGroup) (pA : PortRef) (gB : RackGraphGroup)
    (pB : PortRef) (e : Engine) :
  stableDriver e (addConnection gA pA gB pB e).
Proof. unfold stableDriver, addConnection. simpl. repeat split. Qed.

Lemma refreshConnections_stable (e : Engine) : stableDriver e (refreshConnections e).
Proof.
  unfold refreshConnections. cbv zeta.
  repeat (eapply stableDriver_trans;
          [|apply addConnections_stable; intros p e0; apply addConnection_stable]).
  apply stableDriver_refl.
Qed.

Lemma patchbayRefresh_stable (n : Native) (e : Engine) :
  stableDriver e (snd (patchbayRefresh n e)).
Proof.
  unfold patchbayRefresh.
  destruct (negb (audio_isReady e)); [unfold stableDriver; simpl; repeat split|].
  cbn [snd]. cbn [graph_isRack set_fUsedMidiPorts].
  destruct (graph_isRack e); [|unfold stableDriver, patchbayRefreshPatchbay; simpl; repeat split].
  unfold patchbayRefreshRack.
  eapply stableDriver_trans; [|apply refreshConnections_stable].
  pose proof (refreshGroups_phase n (set_fUsedMidiPorts [] e)) as (_ & _ & _ & _ & Hs).
  eapply stableDriver_trans; [|exact Hs].
  unfold stableDriver. simpl. repeat split.
Qed.

Lemma initStream_commits (n : Native) (clientName : string) (deviceSet : bool)
    (iParams oParams : RtAudio.StreamParameters) (e e' : Engine) :
  initStream n clientName deviceSet iParams oParams e = (true, e') ->
  exists bufferFrames rate,
    openStream n = Ok (bufferFrames, rate) /\
    bufferSize e' = bufferFrames /\ sampleRate e' = rate.
Proof.
  unfold initStream. cbv zeta.
  destruct (openStream n) as [[bufferFrames rate]|what]; [|discriminate].
  destruct (startStream n) as [u|what].
  - match goal with |- context [CarlaEngine_init ?a ?b ?c] =>
      destruct (CarlaEngine_init a b c) as [rack b'] end.
    match goal with |- context [patchbayRefresh n ?e0] =>
      pose proof (patchbayRefresh_stable n e0) as Hs;
      destruct (patchbayRefresh n e0) as [ok e1] end.
    intros H. injection H as <-.
    destruct Hs as (Hb & Hr & _). cbn [snd] in Hb, Hr.
    exists bufferFrames, rate. split; [reflexivity|]. split.
    + rewrite Hb. reflexivity.
    + rewrite Hr. reflexivity.
  - match goal with |- context [close n ?e0] => destruct (close n e0) as [ok e1] end.
    discriminate.
Qed.

(** C4.  When [init] returns success, the buffer size and the sample rate
    in the shared state are the ones the audio subsystem settled on: what
    [openStream] wrote back through its [bufferFrames] argument and what
    the stream reports as its rate, whatever the options had asked for. *)
Theorem init_commits_negotiated (n : Native) (clientName : option string) (e e' : Engine) :
  init n clientName e = (true, e') ->
  exists bufferFrames rate,
    openStream n = Ok (bufferFrames, rate) /\
    bufferSize e' = bufferFrames /\ sampleRate e' = rate.
Proof.
  unfold init.
  destruct (negb (fAudioInCount e =? 0)); [discriminate|].
  destruct (negb (fAudioOutCount e =? 0)); [discriminate|].
  destruct (negb (fLastEventTime e =? 0)); [discriminate|].
  destruct clientName as [[|c cn]|]; try discriminate.
  destruct (negb (isSupportedMode (processMode (options e)))); [discriminate|].
  destruct (Z.of_nat (List.length (devices n)) =? 0); [discriminate|].
  cbv zeta.
  match goal with |- context [match ?found with Some _ => _ | None => _ end] =>
    match type of found with
    | option (Z * RtAudio.DeviceInfo) => destruct found as [[i devInfo]|]
    end end.
  - cbn [RtAudio.nChannels].
    destruct (RtAudio.outputChannels devInfo =? 0); [discriminate|].
    apply initStream_commits.
  - cbn [RtAudio.nChannels].
    destruct (RtAudio.outputChannels _ =? 0); [discriminate|].
    apply initStream_commits.
Qed.

End Init.

(** ** The MIDI port registry *)

Section Registry.
Context {X : Externals}.

Lemma removeFirstNamed_appended (portName : string) (ports : list MidiPort) (p : MidiPort) :
  name_ p = portName ->
  exists found rest,
    removeFirstNamed portName (ports ++ [p]) = Some (found, rest) /\
    name_ found = portName /\
    Permutation (map name_ rest) (map name_ ports).
Proof.
  intros Hp. induction ports as [|a ports IH]; simpl.
  - rewrite Hp, String.eqb_refl. exists p, []. auto.
  - destruct (String.eqb_spec (name_ a) portName) as [Ha|Ha].
    + exists a, (ports ++ [p]). split; [reflexivity|]. split; [exact Ha|].
      rewrite map_app. simpl. rewrite Hp, Ha.
      apply Permutation_sym, Permutation_cons_append.
    + destruct IH as (found & rest & -> & Hf & Hperm).
      exists found, (a :: rest). split; [reflexivity|]. split; [exact Hf|].
      simpl. now apply perm_skip.
Qed.

Lemma connectRackMidiInPort_success (n : Native) (portName : string) (e e1 : Engine) :
  connectRackMidiInPort n (Some portName) e = (Ok true, e1) ->
  portName <> ""%string /\
  (0 <? Z.of_nat (List.length (midi_ins (graph_rack e)))) = true /\
  graph_rack e1 = graph_rack e /\
  exists h, fMidiIns e1 = fMidiIns e ++ [{| rtmidi := h; name_ := strncpy portName STR_MAX |}].
Proof.
  unfold connectRackMidiInPort.
  destruct portName as [|c s]; [discriminate|].
  destruct (0 <? Z.of_nat (List.length (midi_ins (graph_rack e)))) eqn:Hcount;
    [|discriminate].
  cbn [negb]. cbv zeta. unfold newRtMidi.
  destruct (findPortIndex _ _ 0) as [idx|]; [|discriminate].
  destruct (openPort n) as [u|what]; [|discriminate].
  intros H. injection H as <-.
  split; [discriminate|]. split; [reflexivity|]. split; [reflexivity|].
  eexists. reflexivity.
Qed.

(** C8, as the code has it.  For a port name of at most [STR_MAX] bytes, a
    successful [connectRackMidiInPort] followed by
    [disconnectRackMidiInPort] of the same name finds an entry to remove,
    and leaves in [fMidiIns] the port names that were there before the
    connect. *)
Theorem connect_disconnect_midi_in (n : Native) (portName : string) (e e1 : Engine) :
  (String.length portName <= STR_MAX)%nat ->
  connectRackMidiInPort n (Some portName) e = (Ok true, e1) ->
  let r := disconnectRackMidiInPort (Some portName) e1 in
  fst r = true /\
  Permutation (map name_ (fMidiIns (snd r))) (map name_ (fMidiIns e)) /\
  (forall nm, In nm (map name_ (fMidiIns (snd r))) <-> In nm (map name_ (fMidiIns e))).
Proof.
  intros Hlen Hconnect.
  destruct (connectRackMidiInPort_success n portName e e1 Hconnect)
    as (Hne & Hcount & Hrack & h & Hins).
  assert (Hname : name_ {| rtmidi := h; name_ := strncpy portName STR_MAX |} = portName).
  { simpl. unfold strncpy. now apply substring_0_all. }
  destruct (removeFirstNamed_appended portName (fMidiIns e) _ Hname)
    as (found & rest & Hrm & _ & Hperm).
  cbv zeta. unfold disconnectRackMidiInPort.
  destruct portName as [|c s]; [congruence|].
  rewrite Hrack, Hcount, Hins, Hrm. cbn [negb fst snd]. cbn [fMidiIns set_fMidiIns].
  split; [reflexivity|]. split; [exact Hperm|].
  intros nm. split; intros Hin.
  - eapply Permutation_in; [exact Hperm|exact Hin].
  - eapply Permutation_in; [apply Permutation_sym, Hperm|exact Hin].
Qed.

(** On a native failure the input side gives the RtMidiIn object back
    and reports failure, with both registries as they were. *)
Lemma connectRackMidiInPort_failure (n : Native) (portName : string) (e : Engine) :
  let api := getMatchedAudioMidiAPI (os n) (RtAudio.currentApi (fAudio e)) in
  portName <> ""%string ->
  (0 <? Z.of_nat (List.length (midi_ins (graph_rack e)))) = true ->
  findPortIndex portName (midiInPorts n api) 0 = None \/ (exists what, openPort n = Threw what) ->
  let r := connectRackMidiInPort n (Some portName) e in
  fst r = Ok false /\
  fMidiIns (snd r) = fMidiIns e /\ fMidiOuts (snd r) = fMidiOuts e /\
  liveHandles (snd r) = List.remove Nat.eq_dec (nextHandle e) (liveHandles e ++ [nextHandle e]) /\
  exists before, trace (snd r) = before ++ [DeleteRtMidi (nextHandle e)].
Proof.
  intros api Hne Hcount Hfail. cbv zeta. unfold connectRackMidiInPort.
  destruct portName as [|c s]; [congruence|].
  rewrite Hcount. cbn [negb]. cbv zeta. unfold newRtMidi. fold api.
  destruct (findPortIndex (String c s) (midiInPorts n api) 0) as [idx|].
  - destruct Hfail as [Hf|[what Hw]]; [discriminate|]. rewrite Hw.
    cbn. repeat split. eexists. reflexivity.
  - cbn. repeat split. eexists. reflexivity.
Qed.

(** The output side does the same when the port is not among the visible
    ones. *)
Lemma connectRackMidiOutPort_not_found (n : Native) (portName : string) (e : Engine) :
  let api := getMatchedAudioMidiAPI (os n) (RtAudio.currentApi (fAudio e)) in
  portName <> ""%string ->
  (0 <? Z.of_nat (List.length (midi_ins (graph_rack e)))) = true ->
  findPortIndex portName (midiOutPorts n api) 0 = None ->
  let r := connectRackMidiOutPort n (Some portName) e in
  fst r = Ok false /\
  fMidiIns (snd r) = fMidiIns e /\ fMidiOuts (snd r) = fMidiOuts e /\
  liveHandles (snd r) = List.remove Nat.eq_dec (nextHandle e) (liveHandles e ++ [nextHandle e]) /\
  exists before, trace (snd r) = before ++ [DeleteRtMidi (nextHandle e)].
Proof.
  intros api Hne Hcount Hfail. cbv zeta. unfold connectRackMidiOutPort.
  destruct portName as [|c s]; [congruence|].
  rewrite Hcount. cbn [negb]. cbv zeta. unfold newRtMidi. fold api. rewrite Hfail.
  cbn. repeat split. eexists. reflexivity.
Qed.

(** When opening the port throws, the output side lets the exception
    through: the RtMidiOut object is still alive and nothing deleted it. *)
Lemma connectRackMidiOutPort_open_throws (n : Native) (portName : string) (e : Engine)
    (idx : Z) (what : string) :
  let api := getMatchedAudioMidiAPI (os n) (RtAudio.currentApi (fAudio e)) in
  portName <> ""%string ->
  (0 <? Z.of_nat (List.length (midi_ins (graph_rack e)))) = true ->
  findPortIndex portName (midiOutPorts n api) 0 = Some idx ->
  openPort n = Threw what ->
  let r := connectRackMidiOutPort n (Some portName) e in
  fst r = Threw what /\
  fMidiOuts (snd r) = fMidiOuts e /\
  liveHandles (snd r) = liveHandles e ++ [nextHandle e] /\
  trace (snd r) =
    trace e ++ [NewRtMidiOut (nextHandle e) api (name e ++ ":" ++ portName)%string;
                OpenPort (nextHandle e) idx portName].
Proof.
  intros api Hne Hcount Hfound Hthrow. cbv zeta. unfold connectRackMidiOutPort.
  destruct portName as [|c s]; [congruence|].
  rewrite Hcount. cbn [negb]. cbv zeta. unfold newRtMidi. fold api.
  rewrite Hfound, Hthrow. cbn. rewrite <- app_assoc. repeat split.
Qed.

End Registry.

(** *** The driver at work *)

(** Opening on [linuxBox]: 512 frames at 44100 Hz are asked for, 256 frames
    at 48000 Hz are what the engine ends up with. *)
Lemma init_witness :
  let r := @init (plainExternals 512) linuxBox (Some "Carla"%string) (freshEngine 512) in
  r = (true, snd r) /\
  exists bufferFrames rate,
    openStream linuxBox = Ok (bufferFrames, rate) /\
    bufferSize (snd r) = bufferFrames /\ sampleRate (snd r) = rate.
Proof.
  assert (H : @init (plainExternals 512) linuxBox (Some "Carla"%string) (freshEngine 512)
              = (true, snd (@init (plainExternals 512) linuxBox (Some "Carla"%string)
                                  (freshEngine 512))))
    by (vm_compute; reflexivity).
  split; [exact H|].
  exact (@init_commits_negotiated (plainExternals 512) linuxBox (Some "Carla"%string)
           (freshEngine 512) _ H).
Defined.

Example init_on_linuxBox :
  let r := @init (plainExternals 512) linuxBox (Some "Carla"%string) (freshEngine 512) in
  audioBufferSize (options (snd r)) = 512 /\ audioSampleRate (options (snd r)) = 44100 /\
  bufferSize (snd r) = 256 /\ sampleRate (snd r) = 48000.
Proof. vm_compute. repeat split. Qed.

Lemma connection_ids_witness :
  let cleared :=
    @connections_clear (plainExternals 512) (connections (graph_rack patchedEngine)) in
  let e' := patchbayRefreshRack linuxBox patchedEngine in
  (0 <= lastId cleared /\
   lastId cleared + Z.of_nat (connectionCandidates patchedEngine) < 2 ^ 32) /\
  exists suffix,
    trace e' = trace patchedEngine ++ suffix /\
    let conns := emittedConnections suffix in
    map id conns = indicesFrom (lastId cleared + 1) (List.length conns) /\
    StronglySorted Z.lt (map id conns) /\
    NoDup (map id conns) /\
    list_ (connections (graph_rack e')) = list_ cleared ++ conns /\
    exists audioIn audioOut midiIn midiOut,
      conns = audioIn ++ audioOut ++ midiIn ++ midiOut /\
      Forall isAudioInConnection audioIn /\ Forall isAudioOutConnection audioOut /\
      Forall isMidiInConnection midiIn /\ Forall isMidiOutConnection midiOut.
Proof.
  split.
  - vm_compute. repeat split; discriminate.
  - apply (@patchbayRefreshRack_connection_ids (plainExternals 512) linuxBox patchedEngine).
    + vm_compute. discriminate.
    + vm_compute. reflexivity.
Defined.

Example connection_ids_on_linuxBox :
  map (fun c => (id c, groupA c, groupB c))
      (emittedConnections (trace (patchbayRefreshRack linuxBox patchedEngine)))
  = [ (1, RACK_GRAPH_GROUP_AUDIO_IN, RACK_GRAPH_GROUP_CARLA);
      (2, RACK_GRAPH_GROUP_AUDIO_IN, RACK_GRAPH_GROUP_CARLA);
      (3, RACK_GRAPH_GROUP_CARLA, RACK_GRAPH_GROUP_AUDIO_OUT);
      (4, RACK_GRAPH_GROUP_CARLA, RACK_GRAPH_GROUP_AUDIO_OUT);
      (5, RACK_GRAPH_GROUP_MIDI_IN, RACK_GRAPH_GROUP_CARLA);
      (6, RACK_GRAPH_GROUP_CARLA, RACK_GRAPH_GROUP_MIDI_OUT) ].
Proof. vm_compute. reflexivity. Qed.

Lemma connect_disconnect_witness :
  let r1 := connectRackMidiInPort linuxBox (Some "Pads"%string) refreshedEngine in
  let r := disconnectRackMidiInPort (Some "Pads"%string) (snd r1) in
  ((String.length "Pads" <= @STR_MAX (plainExternals 512))%nat /\ r1 = (Ok true, snd r1)) /\
  fst r = true /\
  Permutation (map name_ (fMidiIns (snd r))) (map name_ (fMidiIns refreshedEngine)) /\
  (forall nm, In nm (map name_ (fMidiIns (snd r)))
              <-> In nm (map name_ (fMidiIns refreshedEngine))).
Proof.
  assert (H : connectRackMidiInPort linuxBox (Some "Pads"%string) refreshedEngine
              = (Ok true, snd (connectRackMidiInPort linuxBox (Some "Pads"%string)
                                                     refreshedEngine)))
    by (vm_compute; reflexivity).
  assert (Hlen : (String.length "Pads" <= @STR_MAX (plainExternals 512))%nat)
    by (vm_compute; repeat constructor).
  split; [split; [exact Hlen|exact H]|].
  exact (@connect_disconnect_midi_in (plainExternals 512) linuxBox "Pads"%string
           refreshedEngine _ Hlen H).
Defined.

(** C8 fails as stated: connecting a visible port whose name is longer
    than [STR_MAX] succeeds and registers the first [STR_MAX] bytes of the
    name; the disconnect of the full name then finds nothing to remove,
    and the registry keeps a name it did not have before. *)
Lemma long_name_stays_registered :
  let n := with_midiInPorts [longName] linuxBox in
  let r1 := connectRackMidiInPort n (Some longName) refreshedEngine in
  let r2 := disconnectRackMidiInPort (Some longName) (snd r1) in
  fst r1 = Ok true /\ fst r2 = false /\
  map name_ (fMidiIns refreshedEngine) = [] /\
  map name_ (fMidiIns (snd r2)) = [String.substring 0 255 longName].
Proof. vm_compute. repeat split. Qed.

(** C9.  With "Synth" visible and [openPort] throwing, the input side
    deletes its RtMidiIn object and returns false, but the output side
    leaves by the exception: no value is returned, and the RtMidiOut object
    it made (handle 0) is still alive, never deleted. *)
Theorem connectRackMidiOutPort_leaks_on_throw :
  let n := with_openPort (Threw "cannot open port") linuxBox in
  let rIn := connectRackMidiInPort n (Some "Keys"%string) refreshedEngine in
  let rOut := connectRackMidiOutPort n (Some "Synth"%string) refreshedEngine in
  (fst rIn = Ok false /\ liveHandles (snd rIn) = [] /\
   In (DeleteRtMidi 0) (skipn (List.length (trace refreshedEngine)) (trace (snd rIn)))) /\
  (fst rOut = Threw "cannot open port" /\ liveHandles (snd rOut) = [0%nat] /\
   skipn (List.length (trace refreshedEngine)) (trace (snd rOut))
     = [NewRtMidiOut 0 RtMidi.LINUX_ALSA "Carla:Synth"; OpenPort 0 0 "Synth"] /\
   fMidiOuts (snd rOut) = fMidiOuts refreshedEngine).
Proof. vm_compute. intuition. Qed.

(** Closing while [stopStream] throws: failure is reported, the message
    is kept, and the stream and the MIDI input are torn down all the same. *)
Example close_with_failing_stop :
  let r := close (with_stopStream (Threw "stop failed") linuxBox) openedEngine in
  fst r = false /\ lastError (snd r) = "stop failed"%string /\
  skipn (List.length (trace openedEngine)) (trace (snd r))
    = [StopStream; CloseStream; CancelCallback 0; DeleteRtMidi 0] /\
  fMidiIns (snd r) = [] /\ liveHandles (snd r) = [] /\
  RtAudio.streamOpen (fAudio (snd r)) = false.
Proof. vm_compute. repeat split. Qed.

(** A period of MIDI input: the second call arrives when the frame counter
    reads less than what the first call committed, and is stamped with the
    committed time. *)
Example handleMidiCallback_raises :
  let calls :=
    [ {| seen_frame := 1000; seen_bufferSize := 512; seen_isReady := true;
         call_timeStamp := 0.5%float; call_message := noteOn |};
      {| seen_frame := 900; seen_bufferSize := 512; seen_isReady := true;
         call_timeStamp := 0%float; call_message := noteOn |};
      {| seen_frame := 2000; seen_bufferSize := 512; seen_isReady := true;
         call_timeStamp := 0%float; call_message := [] |} ] in
  let e' := midiCalls calls (freshEngine 512) in
  map time (dataPending (fMidiInEvents e')) = [1128; 1128] /\ fLastEventTime e' = 1128.
Proof. vm_compute. repeat split. Qed.

(** A raw fraction of 3.0 ends at 0.95 of the period. *)
Example normalizeTimeStamp_3 : normalizeTimeStamp 3%float = double_0_95.
Proof. vm_compute. reflexivity. Qed.

(** * Further properties *)

(** ** The MIDI input callback *)

Section IngestionMore.
Context {X : Externals}.

(** X1.  Whatever the callback is fed, the fraction it goes on with is
    never below 0.0 and never above 0.95 (a NaN stays a NaN and compares
    with neither). *)
Theorem normalizeTimeStamp_in_range (f : float) :
  (normalizeTimeStamp f <? 0)%float = false /\
  (double_0_95 <? normalizeTimeStamp f)%float = false.
Proof.
  unfold normalizeTimeStamp.
  destruct (double_0_95 <? f / 2)%float eqn:Hhi.
  - split; vm_compute; reflexivity.
  - destruct (f / 2 <? 0)%float eqn:Hlo.
    + split; vm_compute; reflexivity.
    + auto.
Qed.

Lemma midiEventData_length (message : list Z) :
  Z.of_nat (List.length message) <= kDataSize ->
  Z.of_nat (List.length (midiEventData message)) = kDataSize.
Proof.
  intros H. unfold midiEventData. rewrite length_app, repeat_length. lia.
Qed.

Lemma handleMidiCallback_well_formed (timeStamp : float) (message : list Z) (e : Engine) :
  kDataSize < 256 ->
  Forall wellFormedEvent (dataPending (fMidiInEvents e)) ->
  Forall wellFormedEvent (dataPending (fMidiInEvents (handleMidiCallback timeStamp message e))).
Proof.
  intros Hmax Hall. unfold handleMidiCallback.
  destruct (negb (audio_isReady e)); [exact Hall|].
  destruct (Z.eqb_spec (Z.of_nat (List.length message)) 0) as [H0|H0]; [exact Hall|].
  destruct (Z.gtb_spec (Z.of_nat (List.length message)) kDataSize) as [Hbig|Hfit];
    [exact Hall|].
  cbn [orb].
  assert (Hwf : forall t,
             wellFormedEvent {| time := t; size := Z.of_nat (List.length message) mod 256;
                                data := midiEventData message |}).
  { intros t. unfold wellFormedEvent. simpl.
    rewrite Z.mod_small by lia. split; [lia|]. now apply midiEventData_length. }
  destruct (midiEventTime timeStamp e <? fLastEventTime e); simpl;
    unfold appendNonRT; simpl; destruct (pool_allocate _); simpl; try exact Hall;
    apply Forall_app; split; try exact Hall; constructor; auto.
Qed.

(** X2.  With [kDataSize] a [uint8_t] constant, every event a sequence of
    callbacks leaves in the pending queue has a size between 1 and
    [kDataSize] and exactly [kDataSize] data bytes: empty and oversize
    messages are never queued. *)
Theorem queued_events_well_formed (cs : list MidiCall) (e : Engine) :
  kDataSize < 256 ->
  Forall wellFormedEvent (dataPending (fMidiInEvents e)) ->
  Forall wellFormedEvent (dataPending (fMidiInEvents (midiCalls cs e))).
Proof.
  intros Hmax. revert e. induction cs as [|c cs IH]; intros e Hall; simpl.
  - exact Hall.
  - apply IH. unfold midiCall. apply handleMidiCallback_well_formed; [exact Hmax|].
    exact Hall.
Qed.

(** X3.  One call either drops the message or queues it.  It drops it,
    changing nothing at all, when the driver is not ready, when the message
    is empty and when it is longer than [kDataSize].  Otherwise, if the
    pool has a node, the pending queue gains one event: its size is the
    length of the message, its data are the message followed by zeros up to
    [kDataSize], and the active partition is not touched. *)
Theorem handleMidiCallback_drops_or_queues (timeStamp : float) (message : list Z)
    (e : Engine) :
  let e' := handleMidiCallback timeStamp message e in
  let n := List.length message in
  ((audio_isReady e = false \/ message = [] \/ kDataSize < Z.of_nat n) -> e' = e) /\
  (audio_isReady e = true -> message <> [] -> Z.of_nat n <= kDataSize -> kDataSize < 256 ->
   pool_allocate (List.length (data_ (fMidiInEvents e))
                  + List.length (dataPending (fMidiInEvents e)))%nat = true ->
   data_ (fMidiInEvents e') = data_ (fMidiInEvents e) /\
   exists ev,
     dataPending (fMidiInEvents e') = dataPending (fMidiInEvents e) ++ [ev] /\
     size ev = Z.of_nat n /\
     data ev = message ++ repeat 0 (Z.to_nat kDataSize - n)).
Proof.
  cbv zeta. unfold handleMidiCallback. split.
  - intros [Hr|[Hm|Hbig]].
    + rewrite Hr. reflexivity.
    + subst message. destruct (negb (audio_isReady e)); reflexivity.
    + destruct (negb (audio_isReady e)); [reflexivity|].
      destruct (Z.gtb_spec (Z.of_nat (List.length message)) kDataSize); [|lia].
      rewrite orb_true_r. reflexivity.
  - intros Hr Hne Hfit Hmax Hpool. rewrite Hr. cbn [negb].
    destruct (Z.eqb_spec (Z.of_nat (List.length message)) 0) as [H0|H0].
    { destruct message; [congruence|simpl in H0; lia]. }
    destruct (Z.gtb_spec (Z.of_nat (List.length message)) kDataSize); [lia|].
    cbn [orb].
    destruct (midiEventTime timeStamp e <? fLastEventTime e); simpl;
      unfold appendNonRT; simpl; rewrite Hpool; simpl;
      (split; [reflexivity|]); eexists; (split; [reflexivity|]); simpl;
      rewrite Z.mod_small by lia; auto.
Qed.

End IngestionMore.

Lemma queued_events_witness :
  let calls :=
    [ {| seen_frame := 1000; seen_bufferSize := 512; seen_isReady := true;
         call_timeStamp := 0.5%float; call_message := noteOn |};
      {| seen_frame := 1100; seen_bufferSize := 512; seen_isReady := true;
         call_timeStamp := 0.25%float; call_message := [240; 1; 2; 3; 4; 247] |} ] in
  (@kDataSize (plainExternals 512) < 256 /\
   Forall (@wellFormedEvent (plainExternals 512))
          (dataPending (fMidiInEvents (freshEngine 512)))) /\
  Forall (@wellFormedEvent (plainExternals 512))
         (dataPending (fMidiInEvents (midiCalls calls (freshEngine 512)))).
Proof.
  split.
  - split; [reflexivity|constructor].
  - apply (@queued_events_well_formed (plainExternals 512)); [reflexivity|constructor].
Defined.

(** ** The audio callback *)

Section AudioCallbackMore.
Context {X : Externals}.

Lemma engineEventTime_slot (frame nframes : Z) (midiEvent : RtMidiEvent)
    (slot : EngineEvent) :
  ev_time slot = 0 ->
  engineEventTime frame nframes midiEvent slot
    = engineEventTime frame nframes midiEvent zeroEvent.
Proof.
  intros H. unfold engineEventTime. rewrite H. reflexivity.
Qed.

Lemma array_write_middle {A : Type} (pre : list A) (old v : A) (rest : list A) :
  array_write (Z.of_nat (List.length pre)) v (pre ++ old :: rest) = pre ++ v :: rest.
Proof.
  unfold array_write. rewrite length_app. cbn [List.length].
  destruct (Z.leb_spec 0 (Z.of_nat (List.length pre))); [|lia].
  destruct (Z.ltb_spec (Z.of_nat (List.length pre))
              (Z.of_nat (List.length pre + S (List.length rest)))); [|lia].
  cbn [andb]. rewrite Nat2Z.id.
  rewrite firstn_app, firstn_all, Nat.sub_diag, firstn_0, app_nil_r.
  f_equal.
  change (S (List.length pre)) with (1 + List.length pre)%nat.
  rewrite <- skipn_skipn.
  rewrite skipn_app, skipn_all, Nat.sub_diag. reflexivity.
Qed.

(** The loop on an array whose slots from [pre] on are still zero. *)
Lemma translateMidiEvents_events (frame nframes : Z) (evs : list RtMidiEvent)
    (pre : list EngineEvent) (k : nat) (acc : Translation) :
  kMaxEngineEventInternalCount < 2 ^ 32 ->
  Z.of_nat (List.length pre) + Z.of_nat (S k) = kMaxEngineEventInternalCount ->
  tr_events acc = pre ++ repeat zeroEvent (S k) ->
  let r := translateMidiEvents frame nframes evs (Z.of_nat (List.length pre)) acc in
  tr_events r =
    pre ++ map (translatedEvent frame nframes) (firstn (S k) evs)
        ++ repeat zeroEvent (S k - List.length evs) /\
  tr_diags r =
    tr_diags acc
    ++ flat_map (fun ev => snd (engineEventTime frame nframes ev zeroEvent)) (firstn (S k) evs).
Proof.
  intros Hmax. revert pre k acc.
  induction evs as [|ev rest IH]; intros pre k acc Hk Hacc; cbv zeta.
  - cbn [translateMidiEvents firstn map flat_map List.length]. rewrite app_nil_r.
    rewrite Hacc, Nat.sub_0_r. auto.
  - cbn [translateMidiEvents].
    rewrite Hacc. rewrite Nat2Z.id.
    change (repeat zeroEvent (S k)) with (zeroEvent :: repeat zeroEvent k).
    rewrite nth_middle.
    destruct (engineEventTime frame nframes ev zeroEvent) as [t diag] eqn:Ht.
    rewrite array_write_middle.
    rewrite (u32_small (Z.of_nat (List.length pre) + 1)) by lia.
    assert (Hone : translatedEvent frame nframes ev
                   = {| ev_time := t;
                        ev_payload := fillFromMidiData (size ev) (data ev)
                                                       (ev_payload zeroEvent) |}).
    { unfold translatedEvent. rewrite Ht. reflexivity. }
    destruct (Z.geb_spec (Z.of_nat (List.length pre) + 1) kMaxEngineEventInternalCount)
      as [Hstop|Hgo].
    + assert (k = 0%nat) by lia. subst k.
      cbn [tr_events tr_diags firstn map flat_map repeat List.length Nat.sub].
      rewrite Ht, <- Hone. cbn [snd]. split; rewrite ?app_nil_r; reflexivity.
    + destruct k as [|k]; [lia|].
      specialize (IH (pre ++ [translatedEvent frame nframes ev]) k
                     {| tr_events := pre ++ translatedEvent frame nframes ev
                                         :: repeat zeroEvent (S k);
                        tr_writes := tr_writes acc ++ [Z.of_nat (List.length pre)];
                        tr_diags := tr_diags acc ++ diag |}).
      cbv zeta in IH. rewrite length_app in IH. cbn [List.length] in IH.
      replace (Z.of_nat (List.length pre + 1)) with (Z.of_nat (List.length pre) + 1)
        in IH by lia.
      rewrite <- Hone.
      destruct IH as [He Hd].
      { lia. }
      { cbn [tr_events]. rewrite <- app_assoc. reflexivity. }
      cbn [tr_diags] in Hd.
      split; [etransitivity; [exact He|]|etransitivity; [exact Hd|]];
        cbn [firstn map flat_map List.length Nat.sub]; rewrite ?Ht; cbn [snd];
        rewrite <- !app_assoc; reflexivity.
Qed.

Lemma processing_cycle_state (outs : list Sample) (inputBuffer : option (list Sample))
    (nframes : Z) (tryLock : bool) (e : Engine) :
  bufferSize e = nframes ->
  audio_isReady e = true ->
  let e1 := beforeProcessing nframes tryLock e in
  let e' := fst (handleAudioProcessCallback (Some outs) inputBuffer nframes tryLock e) in
  events_in e' = events_in e1 /\ trace e' = trace e1 /\
  fMidiInEvents e' = fMidiInEvents e1 /\ fLastEventTime e' = fLastEventTime e.
Proof.
  intros Hsize Hready. cbv zeta. unfold handleAudioProcessCallback.
  rewrite Hsize, Z.eqb_refl, Hready. simpl negb. cbv iota.
  fold (beforeProcessing nframes tryLock e).
  assert (Hl : fLastEventTime (beforeProcessing nframes tryLock e) = fLastEventTime e).
  { unfold beforeProcessing, drainMidiInEvents. destruct tryLock; reflexivity. }
  destruct (graph_isRack (beforeProcessing nframes tryLock e)).
  - destruct (processRackFull _ _ _ _ _ _ _ _) as [b outs']. simpl. auto.
  - simpl. auto.
Qed.

(** The drain as a whole, on the zeroed array. *)
Lemma beforeProcessing_translation (nframes : Z) (e : Engine) :
  0 < kMaxEngineEventInternalCount < 2 ^ 32 ->
  let capacity := Z.to_nat kMaxEngineEventInternalCount in
  let drained := data_ (fMidiInEvents e) ++ dataPending (fMidiInEvents e) in
  let frame := timeInfo_frame e in
  let e1 := beforeProcessing nframes true e in
  events_in e1 =
    map (translatedEvent frame nframes) (firstn capacity drained)
    ++ repeat zeroEvent (capacity - List.length drained) /\
  trace e1 =
    trace e
    ++ flat_map (fun ev => snd (engineEventTime frame nframes ev zeroEvent))
                (firstn capacity drained).
Proof.
  intros Hmax capacity drained frame. cbv zeta.
  unfold beforeProcessing, drainMidiInEvents.
  cbn [events_in trace fMidiInEvents timeInfo_frame set_events_in set_trace
       set_fMidiInEvents splice data_].
  fold drained. fold frame.
  destruct capacity as [|k] eqn:Hcap; [subst capacity; lia|].
  destruct (translateMidiEvents_events frame nframes drained [] k
              {| tr_events := zeroedEvents; tr_writes := []; tr_diags := [] |})
    as [He Hd].
  - lia.
  - cbn [List.length]. subst capacity. lia.
  - cbn [tr_events app]. unfold zeroedEvents. fold capacity. rewrite Hcap. reflexivity.
  - cbn [List.length app tr_diags] in He, Hd. change (Z.of_nat 0) with 0 in He, Hd.
    rewrite He, Hd. split; reflexivity.
Qed.

(** X4.  In a cycle that processes and gets the lock, the drained events
    (the active partition followed by the pending one) go to the slots of
    [pData->events.in] in their order of arrival: slot [k] holds the
    [k]-th drained event, with the time the three branches give it and the
    payload [fillFromMidiData] makes of its bytes; the slots after the last
    event are zero; and stderr gets one line per translated event that lay
    beyond the window, in the same order. *)
Theorem handleAudioProcessCallback_translation
    (outs : list Sample) (inputBuffer : option (list Sample)) (nframes : Z) (e : Engine) :
  0 < kMaxEngineEventInternalCount < 2 ^ 32 ->
  bufferSize e = nframes ->
  audio_isReady e = true ->
  let capacity := Z.to_nat kMaxEngineEventInternalCount in
  let drained := data_ (fMidiInEvents e) ++ dataPending (fMidiInEvents e) in
  let frame := timeInfo_frame e in
  let e' := fst (handleAudioProcessCallback (Some outs) inputBuffer nframes true e) in
  events_in e' =
    map (translatedEvent frame nframes) (firstn capacity drained)
    ++ repeat zeroEvent (capacity - List.length drained) /\
  trace e' =
    trace e
    ++ flat_map (fun ev => snd (engineEventTime frame nframes ev zeroEvent))
                (firstn capacity drained).
Proof.
  intros Hmax Hsize Hready capacity drained frame e'.
  destruct (processing_cycle_state outs inputBuffer nframes true e Hsize Hready)
    as (Hev & Htr & _). fold e' in Hev, Htr.
  rewrite Hev, Htr. apply beforeProcessing_translation. exact Hmax.
Qed.

Lemma translatedEvent_in_window (frame nframes : Z) (ev : RtMidiEvent) :
  0 <= frame -> frame + nframes < 2 ^ 64 -> 0 < nframes < 2 ^ 32 ->
  0 <= time ev < frame + nframes ->
  ev_time (translatedEvent frame nframes ev) = Z.max 0 (time ev - frame) /\
  snd (engineEventTime frame nframes ev zeroEvent) = [].
Proof.
  intros Hf Hsum Hn Ht.
  destruct (engineEventTime_branches frame nframes ev zeroEvent Hf Hsum Hn)
    as (Hlo & Hin & _); [lia|].
  unfold translatedEvent. cbn [ev_time].
  destruct (Z.lt_ge_cases (time ev) frame) as [Hbelow|Hinside].
  - rewrite (Hlo Hbelow). cbn [fst snd]. split; [lia|reflexivity].
  - rewrite Hin by lia. cbn [fst snd]. split; [lia|reflexivity].
Qed.

Lemma Sorted_firstn {A : Type} (R : A -> A -> Prop) (n : nat) (l : list A) :
  Sorted R l -> Sorted R (firstn n l).
Proof.
  revert l. induction n as [|n IH]; intros l Hs; [constructor|].
  destruct l as [|a l]; [constructor|].
  inversion Hs as [|a' l' Hs' Hhd]; subst. cbn [firstn]. constructor; [now apply IH|].
  destruct l as [|b l]; [destruct n; constructor|].
  inversion Hhd; subst. destruct n; constructor. assumption.
Qed.

Lemma Forall_firstn {A : Type} (P : A -> Prop) (n : nat) (l : list A) :
  Forall P l -> Forall P (firstn n l).
Proof.
  revert l. induction n as [|n IH]; intros l Hall; [constructor|].
  destruct Hall; cbn [firstn]; constructor; auto.
Qed.

Lemma translated_offsets (frame nframes : Z) (evs : list RtMidiEvent) :
  0 <= frame -> frame + nframes < 2 ^ 64 -> 0 < nframes < 2 ^ 32 ->
  Forall (fun ev => 0 <= time ev < frame + nframes) evs ->
  Sorted Z.le (map time evs) ->
  Forall (fun ee : EngineEvent => 0 <= ev_time ee < nframes)
         (map (translatedEvent frame nframes) evs) /\
  Sorted Z.le (map ev_time (map (translatedEvent frame nframes) evs)) /\
  flat_map (fun ev => snd (engineEventTime frame nframes ev zeroEvent)) evs = [].
Proof.
  intros Hf Hsum Hn Hall Hsorted.
  induction evs as [|ev evs IH]; cbn [map flat_map].
  - repeat split; constructor.
  - inversion Hall as [|? ? Hev Hrest]; subst.
    inversion Hsorted as [|? ? Hs Hhd]; subst.
    destruct (IH Hrest Hs) as (Hrange & Hmono & Hquiet).
    destruct (translatedEvent_in_window frame nframes ev Hf Hsum Hn Hev) as [Ht Hd].
    split; [constructor; [rewrite Ht; lia|exact Hrange]|].
    split.
    + constructor; [exact Hmono|].
      destruct evs as [|ev2 evs]; cbn [map]; constructor.
      inversion Hrest as [|? ? Hev2 _]; subst.
      destruct (translatedEvent_in_window frame nframes ev2 Hf Hsum Hn Hev2) as [Ht2 _].
      inversion Hhd; subst. rewrite Ht, Ht2. lia.
    + rewrite Hd, Hquiet. reflexivity.
Qed.

(** X5.  When no drained event is stamped at or beyond the end of the
    window and the queue holds them in non-decreasing time order, the
    cycle hands them on with offsets inside the buffer ([0 <= time <
    nframes]), still in non-decreasing order, and prints nothing. *)
Theorem handleAudioProcessCallback_offsets
    (outs : list Sample) (inputBuffer : option (list Sample)) (nframes : Z) (e : Engine) :
  0 < kMaxEngineEventInternalCount < 2 ^ 32 ->
  bufferSize e = nframes ->
  audio_isReady e = true ->
  0 <= timeInfo_frame e -> timeInfo_frame e + nframes < 2 ^ 64 -> 0 < nframes < 2 ^ 32 ->
  let drained := data_ (fMidiInEvents e) ++ dataPending (fMidiInEvents e) in
  Forall (fun ev => 0 <= time ev < timeInfo_frame e + nframes) drained ->
  Sorted Z.le (map time drained) ->
  let e' := fst (handleAudioProcessCallback (Some outs) inputBuffer nframes true e) in
  Forall (fun ee : EngineEvent => 0 <= ev_time ee < nframes) (events_in e') /\
  (exists translated,
     events_in e' =
       translated
       ++ repeat zeroEvent (Z.to_nat kMaxEngineEventInternalCount - List.length drained) /\
     List.length translated
       = Nat.min (Z.to_nat kMaxEngineEventInternalCount) (List.length drained) /\
     Sorted Z.le (map ev_time translated)) /\
  trace e' = trace e.
Proof.
  intros Hmax Hsize Hready Hf Hsum Hn drained Hall Hsorted e'.
  destruct (processing_cycle_state outs inputBuffer nframes true e Hsize Hready)
    as (Hev & Htr & _). fold e' in Hev, Htr.
  destruct (beforeProcessing_translation nframes e Hmax) as [He Hd].
  fold drained in He, Hd.
  destruct (translated_offsets (timeInfo_frame e) nframes
              (firstn (Z.to_nat kMaxEngineEventInternalCount) drained) Hf Hsum Hn)
    as (Hrange & Hmono & Hquiet).
  { now apply Forall_firstn. }
  { rewrite <- firstn_map. now apply Sorted_firstn. }
  rewrite Hev, Htr, He, Hd, Hquiet, app_nil_r.
  split; [|split; [|reflexivity]].
  - apply Forall_app. split; [exact Hrange|].
    apply Forall_forall. intros x Hx. apply repeat_spec in Hx. subst x.
    cbn [ev_time zeroEvent]. lia.
  - eexists. split; [reflexivity|]. split; [|exact Hmono].
    rewrite length_map, length_firstn. reflexivity.
Qed.

End AudioCallbackMore.

(** The three notes of [threeNotes] in an array of two slots. *)
Lemma translation_witness :
  (0 < @kMaxEngineEventInternalCount (plainExternals 2) < 2 ^ 32 /\
   bufferSize threeNotes = 512 /\ audio_isReady threeNotes = true) /\
  let e' := fst (@handleAudioProcessCallback (plainExternals 2)
                  (Some loudBuffer) None 512 true threeNotes) in
  events_in e' =
    map (@translatedEvent (plainExternals 2) 1000 512)
        (firstn 2 [midiEventAt 1000; midiEventAt 1001; midiEventAt 1002])
    ++ repeat zeroEvent (2 - 3) /\
  trace e' =
    trace threeNotes
    ++ flat_map (fun ev => snd (@engineEventTime (plainExternals 2) 1000 512 ev zeroEvent))
                (firstn 2 [midiEventAt 1000; midiEventAt 1001; midiEventAt 1002]).
Proof.
  split.
  - vm_compute. repeat split; reflexivity.
  - apply (@handleAudioProcessCallback_translation (plainExternals 2)
             loudBuffer None 512 threeNotes).
    + vm_compute. split; reflexivity.
    + reflexivity.
    + reflexivity.
Defined.

(** Two notes inside the window [1000, 1512), one of them before it. *)
Lemma offsets_witness :
  let e := set_fMidiInEvents
             {| data_ := []; dataPending := [midiEventAt 990; midiEventAt 1200] |}
             (runningEngine 512) in
  let drained := data_ (fMidiInEvents e) ++ dataPending (fMidiInEvents e) in
  let e' := fst (@handleAudioProcessCallback (plainExternals 512)
                  (Some loudBuffer) None 512 true e) in
  (0 < @kMaxEngineEventInternalCount (plainExternals 512) < 2 ^ 32 /\
   bufferSize e = 512 /\ audio_isReady e = true /\
   0 <= timeInfo_frame e /\ timeInfo_frame e + 512 < 2 ^ 64 /\ 0 < 512 < 2 ^ 32 /\
   Forall (fun ev => 0 <= time ev < timeInfo_frame e + 512) drained /\
   Sorted Z.le (map time drained)) /\
  Forall (fun ee : @EngineEvent (plainExternals 512) => 0 <= ev_time ee < 512)
         (events_in e') /\
  (exists translated,
     events_in e' =
       translated
       ++ repeat zeroEvent (Z.to_nat (@kMaxEngineEventInternalCount (plainExternals 512))
                            - List.length drained) /\
     List.length translated
       = Nat.min (Z.to_nat (@kMaxEngineEventInternalCount (plainExternals 512)))
                 (List.length drained) /\
     Sorted Z.le (map ev_time translated)) /\
  trace e' = trace e.
Proof.
  cbv zeta.
  assert (Hall : Forall (fun ev => 0 <= time ev < 1000 + 512)
                        [midiEventAt 990; midiEventAt 1200])
    by (repeat constructor; simpl; lia).
  assert (Hsorted : Sorted Z.le (map time [midiEventAt 990; midiEventAt 1200]))
    by (repeat constructor; simpl; lia).
  split.
  - repeat split; try reflexivity; try exact Hall; try exact Hsorted; simpl; lia.
  - apply (@handleAudioProcessCallback_offsets (plainExternals 512) loudBuffer None 512);
      try reflexivity; try exact Hall; try exact Hsorted; simpl; lia.
Defined.

(** ** The MIDI port registry *)

Section RegistryMore.
Context {X : Externals}.

Lemma findPortIndex_from (portName : string) (names : list string) (i0 : Z) :
  match findPortIndex portName names i0 with
  | Some i =>
      i0 <= i < i0 + Z.of_nat (List.length names) /\
      nth_error names (Z.to_nat (i - i0)) = Some portName /\
      ~ In portName (firstn (Z.to_nat (i - i0)) names)
  | None => ~ In portName names
  end.
Proof.
  revert i0. induction names as [|nm rest IH]; intros i0; cbn [findPortIndex].
  - intros [].
  - destruct (String.eqb_spec nm portName) as [Heq|Hne].
    + subst nm. rewrite Z.sub_diag. cbn. split; [lia|]. split; [reflexivity|]. intros [].
    + specialize (IH (i0 + 1)). destruct (findPortIndex portName rest (i0 + 1)) as [i|].
      * destruct IH as (Hr & Hn & Hf). cbn [List.length].
        replace (Z.to_nat (i - i0)) with (S (Z.to_nat (i - (i0 + 1)))) by lia.
        cbn [nth_error firstn]. split; [lia|]. split; [exact Hn|].
        intros [H|H]; [congruence|contradiction].
      * intros [H|H]; [congruence|contradiction].
Qed.

(** X6.  The search of the connect functions is an exact, first match:
    it yields the least index whose visible port name equals [portName],
    and nothing exactly when no visible port has that name. *)
Theorem findPortIndex_first_match (portName : string) (names : list string) :
  match findPortIndex portName names 0 with
  | Some i =>
      0 <= i < Z.of_nat (List.length names) /\
      nth_error names (Z.to_nat i) = Some portName /\
      ~ In portName (firstn (Z.to_nat i) names)
  | None => ~ In portName names
  end.
Proof.
  pose proof (findPortIndex_from portName names 0) as H.
  destruct (findPortIndex portName names 0) as [i|]; [|exact H].
  rewrite Z.sub_0_r in H. exact H.
Qed.

Lemma removeFirstNamed_spec (portName : string) (ports : list MidiPort) :
  match removeFirstNamed portName ports with
  | Some (found, rest) =>
      exists before after,
        ports = before ++ found :: after /\ rest = before ++ after /\
        name_ found = portName /\ ~ In portName (map name_ before)
  | None => ~ In portName (map name_ ports)
  end.
Proof.
  induction ports as [|p ports IH]; cbn [removeFirstNamed].
  - intros [].
  - destruct (String.eqb_spec (name_ p) portName) as [Heq|Hne].
    + exists [], ports. repeat split; auto.
    + destruct (removeFirstNamed portName ports) as [[found rest]|].
      * destruct IH as (before & after & -> & -> & Hn & Hb).
        exists (p :: before), after. repeat split; auto.
        intros [H|H]; [congruence|contradiction].
      * intros [H|H]; [congruence|contradiction].
Qed.

(** X7.  [disconnectRackMidiInPort] of a name that passes the two guards:
    when no entry bears the name it returns false and changes nothing;
    otherwise it removes the first entry that bears it, and only that one,
    cancelling the callback of its RtMidiIn object before deleting it. *)
Theorem disconnectRackMidiInPort_first_entry (portName : string) (e : Engine) :
  portName <> ""%string ->
  (0 <? Z.of_nat (List.length (midi_ins (graph_rack e)))) = true ->
  let r := disconnectRackMidiInPort (Some portName) e in
  (~ In portName (map name_ (fMidiIns e)) -> r = (false, e)) /\
  (In portName (map name_ (fMidiIns e)) ->
   exists before found after,
     fMidiIns e = before ++ found :: after /\
     name_ found = portName /\ ~ In portName (map name_ before) /\
     fst r = true /\
     fMidiIns (snd r) = before ++ after /\
     fMidiOuts (snd r) = fMidiOuts e /\
     trace (snd r) = trace e ++ [CancelCallback (rtmidi found); DeleteRtMidi (rtmidi found)] /\
     liveHandles (snd r) = List.remove Nat.eq_dec (rtmidi found) (liveHandles e)).
Proof.
  intros Hne Hcount. cbv zeta. unfold disconnectRackMidiInPort.
  destruct portName as [|c s]; [congruence|]. rewrite Hcount. cbn [negb].
  pose proof (removeFirstNamed_spec (String c s) (fMidiIns e)) as Hspec.
  destruct (removeFirstNamed (String c s) (fMidiIns e)) as [[found rest]|].
  - destruct Hspec as (before & after & Hl & -> & Hn & Hb). split.
    + intros Hnot. exfalso. apply Hnot. rewrite Hl, map_app. apply in_or_app. right.
      left. exact Hn.
    + intros _. exists before, found, after. cbn. rewrite <- app_assoc.
      repeat split; auto.
  - split; [reflexivity|]. intros Hin. contradiction.
Qed.

Lemma connectRackMidiOutPort_success (n : Native) (portName : string) (e e1 : Engine) :
  connectRackMidiOutPort n (Some portName) e = (Ok true, e1) ->
  portName <> ""%string /\
  (0 <? Z.of_nat (List.length (midi_ins (graph_rack e)))) = true /\
  graph_rack e1 = graph_rack e /\
  fMidiOuts e1 = fMidiOuts e
                 ++ [{| rtmidi := nextHandle e; name_ := strncpy portName STR_MAX |}].
Proof.
  unfold connectRackMidiOutPort.
  destruct portName as [|c s]; [discriminate|].
  destruct (0 <? Z.of_nat (List.length (midi_ins (graph_rack e)))) eqn:Hcount;
    [|discriminate].
  cbn [negb]. cbv zeta. unfold newRtMidi.
  destruct (findPortIndex _ _ 0) as [idx|]; [|discriminate].
  destruct (openPort n) as [u|what]; [|discriminate].
  intros H. injection H as <-.
  split; [discriminate|]. split; [reflexivity|]. split; reflexivity.
Qed.

(** X8.  The round trip on the output side: for a port name of at most
    [STR_MAX] bytes, a successful [connectRackMidiOutPort] followed by
    [disconnectRackMidiOutPort] of the same name returns true and leaves
    the port names of [fMidiOuts] as they were; when the name was not
    registered before, the list of entries itself is as it was and the
    object deleted is the one the connect made. *)
Theorem connect_disconnect_midi_out (n : Native) (portName : string) (e e1 : Engine) :
  (String.length portName <= STR_MAX)%nat ->
  connectRackMidiOutPort n (Some portName) e = (Ok true, e1) ->
  let r := disconnectRackMidiOutPort (Some portName) e1 in
  fst r = true /\
  Permutation (map name_ (fMidiOuts (snd r))) (map name_ (fMidiOuts e)) /\
  (~ In portName (map name_ (fMidiOuts e)) ->
   fMidiOuts (snd r) = fMidiOuts e /\
   trace (snd r) = trace e1 ++ [DeleteRtMidi (nextHandle e)]).
Proof.
  intros Hlen Hconnect.
  destruct (connectRackMidiOutPort_success n portName e e1 Hconnect)
    as (Hne & Hcount & Hrack & Houts).
  set (p := {| rtmidi := nextHandle e; name_ := strncpy portName STR_MAX |}) in *.
  assert (Hname : name_ p = portName).
  { subst p. simpl. unfold strncpy. now apply substring_0_all. }
  destruct (removeFirstNamed_appended portName (fMidiOuts e) p Hname)
    as (found & rest & Hrm & _ & Hperm).
  cbv zeta. unfold disconnectRackMidiOutPort.
  destruct portName as [|c s]; [congruence|].
  rewrite Hrack, Hcount, Houts, Hrm. cbn [negb fst snd]. cbn [fMidiOuts set_fMidiOuts].
  split; [reflexivity|]. split; [exact Hperm|].
  intros Hnew.
  pose proof (removeFirstNamed_spec (String c s) (fMidiOuts e ++ [p])) as Hspec.
  rewrite Hrm in Hspec. destruct Hspec as (before & after & Hl & -> & Hn & Hb).
  assert (Hlast : before = fMidiOuts e /\ found = p /\ after = []).
  { destruct after as [|a after].
    - apply app_inj_tail in Hl. destruct Hl as [-> ->]. auto.
    - exfalso. apply Hnew.
      assert (Hin : In found (fMidiOuts e)).
      { destruct (@exists_last _ (a :: after)) as (l' & x & Hx); [discriminate|].
        rewrite Hx in Hl.
        replace (before ++ found :: l' ++ [x]) with ((before ++ found :: l') ++ [x]) in Hl
          by (rewrite <- app_assoc; reflexivity).
        apply app_inj_tail in Hl. destruct Hl as [-> _].
        apply in_or_app. right. left. reflexivity. }
      rewrite <- Hn. now apply in_map. }
  destruct Hlast as (-> & -> & ->). rewrite app_nil_r. split; reflexivity.
Qed.

End RegistryMore.

Lemma connect_disconnect_out_witness :
  let r1 := connectRackMidiOutPort linuxBox (Some "Drums"%string) refreshedEngine in
  let r := disconnectRackMidiOutPort (Some "Drums"%string) (snd r1) in
  ((String.length "Drums" <= @STR_MAX (plainExternals 512))%nat /\ r1 = (Ok true, snd r1)) /\
  fst r = true /\
  Permutation (map name_ (fMidiOuts (snd r))) (map name_ (fMidiOuts refreshedEngine)) /\
  (~ In "Drums"%string (map name_ (fMidiOuts refreshedEngine)) ->
   fMidiOuts (snd r) = fMidiOuts refreshedEngine /\
   trace (snd r) = trace (snd r1) ++ [DeleteRtMidi (nextHandle refreshedEngine)]).
Proof.
  assert (H : connectRackMidiOutPort linuxBox (Some "Drums"%string) refreshedEngine
              = (Ok true, snd (connectRackMidiOutPort linuxBox (Some "Drums"%string)
                                                      refreshedEngine)))
    by (vm_compute; reflexivity).
  assert (Hlen : (String.length "Drums" <= @STR_MAX (plainExternals 512))%nat)
    by (vm_compute; repeat constructor).
  split; [split; [exact Hlen|exact H]|].
  exact (@connect_disconnect_midi_out (plainExternals 512) linuxBox "Drums"%string
           refreshedEngine _ Hlen H).
Defined.

Lemma disconnect_first_entry_witness :
  let e := snd (connectRackMidiInPort linuxBox (Some "Pads"%string)
                  (snd (connectRackMidiInPort linuxBox (Some "Keys"%string) refreshedEngine))) in
  let r := disconnectRackMidiInPort (Some "Pads"%string) e in
  ("Pads"%string <> ""%string /\
   (0 <? Z.of_nat (List.length (midi_ins (graph_rack e)))) = true) /\
  (~ In "Pads"%string (map name_ (fMidiIns e)) -> r = (false, e)) /\
  (In "Pads"%string (map name_ (fMidiIns e)) ->
   exists before found after,
     fMidiIns e = before ++ found :: after /\
     name_ found = "Pads"%string /\ ~ In "Pads"%string (map name_ before) /\
     fst r = true /\
     fMidiIns (snd r) = before ++ after /\
     fMidiOuts (snd r) = fMidiOuts e /\
     trace (snd r) = trace e ++ [CancelCallback (rtmidi found); DeleteRtMidi (rtmidi found)] /\
     liveHandles (snd r) = List.remove Nat.eq_dec (rtmidi found) (liveHandles e)).
Proof.
  cbv zeta.
  assert (Hne : "Pads"%string <> ""%string) by discriminate.
  split; [split; [exact Hne|vm_compute; reflexivity]|].
  apply (@disconnectRackMidiInPort_first_entry (plainExternals 512) "Pads"%string);
    [exact Hne|vm_compute; reflexivity].
Defined.

(** ** Who owns the RtMidi objects *)

Section Handles.
Context {X : Externals}.

Lemma remove_appended (h : nat) (l : list nat) :
  ~ In h l -> List.remove Nat.eq_dec h (l ++ [h]) = l.
Proof.
  intros Hnot. rewrite remove_app, (notin_remove Nat.eq_dec l h Hnot).
  cbn. destruct (Nat.eq_dec h h); [apply app_nil_r|congruence].
Qed.

Lemma below_is_fresh (next : nat) (l : list nat) :
  Forall (fun h => (h < next)%nat) l -> ~ In next l.
Proof.
  intros Hall Hin. rewrite Forall_forall in Hall. specialize (Hall _ Hin). lia.
Qed.

Lemma owns_add (live l l' : list nat) (h : nat) :
  NoDup l -> (forall x, In x live <-> In x l) -> Forall (fun x => (x < h)%nat) live ->
  Permutation l' (h :: l) ->
  NoDup l' /\ (forall x, In x (live ++ [h]) <-> In x l') /\
  Forall (fun x => (x < S h)%nat) (live ++ [h]).
Proof.
  intros Hnd Hiff Hall Hperm.
  assert (Hfresh : ~ In h l).
  { intros Hin. apply Hiff in Hin. now apply below_is_fresh in Hall. }
  split; [|split].
  - eapply Permutation_NoDup; [apply Permutation_sym, Hperm|]. now constructor.
  - intros x. split; intros Hin.
    + eapply Permutation_in; [apply Permutation_sym, Hperm|].
      apply in_app_or in Hin. destruct Hin as [Hin|[<-|[]]].
      * right. now apply Hiff.
      * now left.
    + apply (Permutation_in _ Hperm) in Hin. apply in_or_app.
      destruct Hin as [<-|Hin]; [right; now left|left; now apply Hiff].
  - apply Forall_app. split.
    + eapply Forall_impl; [|exact Hall]. simpl. intros; lia.
    + constructor; [lia|constructor].
Qed.

Lemma owns_remove (live l1 l2 : list nat) (h : nat) :
  NoDup (l1 ++ h :: l2) -> (forall x, In x live <-> In x (l1 ++ h :: l2)) ->
  NoDup (l1 ++ l2) /\ (forall x, In x (List.remove Nat.eq_dec h live) <-> In x (l1 ++ l2)).
Proof.
  intros Hnd Hiff. apply NoDup_remove in Hnd. destruct Hnd as [Hnd Hnot].
  split; [exact Hnd|]. intros x. split; intros Hin.
  - apply in_remove in Hin. destruct Hin as [Hin Hne]. apply Hiff in Hin.
    apply in_app_or in Hin. apply in_or_app.
    destruct Hin as [Hin|[Heq|Hin]]; [now left|congruence|now right].
  - apply in_in_remove.
    + intros ->. contradiction.
    + apply Hiff. apply in_app_or in Hin. apply in_or_app.
      destruct Hin as [Hin|Hin]; [now left|right; now right].
Qed.

Lemma Forall_remove (P : nat -> Prop) (h : nat) (l : list nat) :
  Forall P l -> Forall P (List.remove Nat.eq_dec h l).
Proof.
  intros Hall. rewrite Forall_forall in *. intros x Hin.
  apply in_remove in Hin. apply Hall, Hin.
Qed.

Lemma connectRackMidiInPort_owns (n : Native) (portName : option string) (e : Engine) :
  registryOwnsHandles e ->
  registryOwnsHandles (snd (connectRackMidiInPort n portName e)).
Proof.
  intros (Hnd & Hiff & Hall). unfold connectRackMidiInPort.
  destruct portName as [[|c s]|]; try (split; [|split]; assumption).
  destruct (negb _); [split; [|split]; assumption|].
  cbv zeta. unfold newRtMidi.
  assert (Hfresh : ~ In (nextHandle e) (liveHandles e)) by now apply below_is_fresh.
  assert (Hfail : forall tr,
             registryOwnsHandles
               (deleteRtMidi (nextHandle e)
                  (set_trace tr
                     (set_liveHandles (liveHandles e ++ [nextHandle e])
                        (set_nextHandle (S (nextHandle e)) e))))).
  { intros tr. unfold registryOwnsHandles. cbn.
    rewrite remove_appended by exact Hfresh.
    split; [exact Hnd|]. split; [exact Hiff|].
    eapply Forall_impl; [|exact Hall]. simpl. intros; lia. }
  destruct (findPortIndex _ _ 0) as [idx|]; [|apply Hfail].
  destruct (openPort n) as [u|what]; [|apply Hfail].
  unfold registryOwnsHandles. cbn.
  apply (owns_add (liveHandles e) (map rtmidi (fMidiIns e ++ fMidiOuts e))); auto.
  rewrite <- app_assoc, !map_app. cbn.
  apply Permutation_sym, Permutation_middle.
Qed.

Lemma connectRackMidiOutPort_owns (n : Native) (portName : option string) (e : Engine)
    (b : bool) :
  registryOwnsHandles e ->
  fst (connectRackMidiOutPort n portName e) = Ok b ->
  registryOwnsHandles (snd (connectRackMidiOutPort n portName e)).
Proof.
  intros (Hnd & Hiff & Hall). unfold connectRackMidiOutPort.
  destruct portName as [[|c s]|]; try (intros _; split; [|split]; assumption).
  destruct (negb _); [intros _; split; [|split]; assumption|].
  cbv zeta. unfold newRtMidi.
  assert (Hfresh : ~ In (nextHandle e) (liveHandles e)) by now apply below_is_fresh.
  destruct (findPortIndex _ _ 0) as [idx|].
  - destruct (openPort n) as [u|what]; [|discriminate]. intros _.
    unfold registryOwnsHandles. cbn.
    apply (owns_add (liveHandles e) (map rtmidi (fMidiIns e ++ fMidiOuts e))); auto.
    rewrite app_assoc, !map_app. cbn.
    rewrite <- map_app. apply Permutation_sym, Permutation_cons_append.
  - intros _. unfold registryOwnsHandles. cbn.
    rewrite remove_appended by exact Hfresh.
    split; [exact Hnd|]. split; [exact Hiff|].
    eapply Forall_impl; [|exact Hall]. simpl. intros; lia.
Qed.

Lemma disconnectRackMidiInPort_owns (portName : option string) (e : Engine) :
  registryOwnsHandles e ->
  registryOwnsHandles (snd (disconnectRackMidiInPort portName e)).
Proof.
  intros (Hnd & Hiff & Hall). unfold disconnectRackMidiInPort.
  destruct portName as [[|c s]|]; try (split; [|split]; assumption).
  destruct (negb _); [split; [|split]; assumption|].
  pose proof (removeFirstNamed_spec (String c s) (fMidiIns e)) as Hspec.
  destruct (removeFirstNamed (String c s) (fMidiIns e)) as [[found rest]|];
    [|split; [|split]; assumption].
  destruct Hspec as (before & after & Hl & -> & _ & _).
  rewrite Hl in Hnd, Hiff.
  rewrite <- app_assoc, map_app in Hnd, Hiff. cbn [app map] in Hnd, Hiff.
  destruct (owns_remove _ _ _ _ Hnd Hiff) as [Hnd' Hiff'].
  unfold registryOwnsHandles. cbn.
  rewrite <- app_assoc, map_app.
  split; [exact Hnd'|]. split; [exact Hiff'|]. now apply Forall_remove.
Qed.

Lemma disconnectRackMidiOutPort_owns (portName : option string) (e : Engine) :
  registryOwnsHandles e ->
  registryOwnsHandles (snd (disconnectRackMidiOutPort portName e)).
Proof.
  intros (Hnd & Hiff & Hall). unfold disconnectRackMidiOutPort.
  destruct portName as [[|c s]|]; try (split; [|split]; assumption).
  destruct (negb _); [split; [|split]; assumption|].
  pose proof (removeFirstNamed_spec (String c s) (fMidiOuts e)) as Hspec.
  destruct (removeFirstNamed (String c s) (fMidiOuts e)) as [[found rest]|];
    [|split; [|split]; assumption].
  destruct Hspec as (before & after & Hl & -> & _ & _).
  rewrite Hl in Hnd, Hiff.
  rewrite app_assoc, map_app in Hnd, Hiff. cbn [app map] in Hnd, Hiff.
  destruct (owns_remove _ _ _ _ Hnd Hiff) as [Hnd' Hiff'].
  unfold registryOwnsHandles. cbn.
  rewrite app_assoc, map_app.
  split; [exact Hnd'|]. split; [exact Hiff'|]. now apply Forall_remove.
Qed.

(** X9.  No RtMidi object is lost or shared by the registry operations:
    if the objects alive are exactly those of the entries of [fMidiIns] and
    [fMidiOuts], one each, this is still so after
    [connectRackMidiInPort] (whether it succeeds or fails),
    after both disconnect functions, and after [connectRackMidiOutPort]
    whenever it returns. *)
Theorem registry_keeps_ownership (n : Native) (portName : option string) (e : Engine) :
  registryOwnsHandles e ->
  registryOwnsHandles (snd (connectRackMidiInPort n portName e)) /\
  registryOwnsHandles (snd (disconnectRackMidiInPort portName e)) /\
  registryOwnsHandles (snd (disconnectRackMidiOutPort portName e)) /\
  (forall b, fst (connectRackMidiOutPort n portName e) = Ok b ->
             registryOwnsHandles (snd (connectRackMidiOutPort n portName e))).
Proof.
  intros H. split; [now apply connectRackMidiInPort_owns|].
  split; [now apply disconnectRackMidiInPort_owns|].
  split; [now apply disconnectRackMidiOutPort_owns|].
  intros b Hb. now apply (connectRackMidiOutPort_owns n portName e b).
Qed.

End Handles.

Lemma ownership_witness :
  registryOwnsHandles refreshedEngine /\
  registryOwnsHandles (snd (connectRackMidiInPort linuxBox (Some "Keys"%string) refreshedEngine)) /\
  registryOwnsHandles (snd (disconnectRackMidiInPort (Some "Keys"%string) refreshedEngine)) /\
  registryOwnsHandles (snd (disconnectRackMidiOutPort (Some "Keys"%string) refreshedEngine)) /\
  (forall b, fst (connectRackMidiOutPort linuxBox (Some "Keys"%string) refreshedEngine) = Ok b ->
             registryOwnsHandles
               (snd (connectRackMidiOutPort linuxBox (Some "Keys"%string) refreshedEngine))).
Proof.
  assert (H : registryOwnsHandles refreshedEngine).
  { unfold registryOwnsHandles. vm_compute.
    split; [constructor|]. split; [intros h; split; intros []|constructor]. }
  split; [exact H|].
  exact (@registry_keeps_ownership (plainExternals 512) linuxBox (Some "Keys"%string)
           refreshedEngine H).
Defined.

(** ** close and init, once more *)

Section Lifecycle.
Context {X : Externals}.

Lemma closeStream_audio (n : Native) (hasError : bool) (e : Engine) :
  fAudio (snd (closeStream n hasError e))
    = (if RtAudio.streamOpen (fAudio e) then set_stream false false (fAudio e) else fAudio e) /\
  nextHandle (snd (closeStream n hasError e)) = nextHandle e.
Proof.
  unfold closeStream.
  destruct (RtAudio.streamOpen (fAudio e));
    [destruct (RtAudio.streamRunning (fAudio e));
     [destruct (stopStream n); destruct hasError|]|];
    simpl; auto.
Qed.

Lemma closeMidiIn_fold_next (ports : list MidiPort) (e : Engine) :
  nextHandle (fold_left closeMidiIn ports e) = nextHandle e.
Proof.
  revert e. induction ports as [|p ports IH]; intros e; simpl; [reflexivity|].
  rewrite IH. reflexivity.
Qed.

Lemma closeMidiOut_fold_next (ports : list MidiPort) (e : Engine) :
  nextHandle (fold_left closeMidiOut ports e) = nextHandle e.
Proof.
  revert e. induction ports as [|p ports IH]; intros e; simpl; [reflexivity|].
  rewrite IH. reflexivity.
Qed.

(** What [close] leaves, whatever it finds. *)
Lemma close_fields (n : Native) (e : Engine) :
  let e' := snd (close n e) in
  fAudioInCount e' = 0 /\ fAudioOutCount e' = 0 /\ fLastEventTime e' = 0 /\
  audio_isReady e' = false /\
  fAudio e'
    = (if RtAudio.streamOpen (fAudio e) then set_stream false false (fAudio e) else fAudio e) /\
  fMidiIns e' = [] /\ fMidiOuts e' = [] /\
  nextHandle e' = nextHandle e /\
  (forall h, In h (liveHandles e') ->
             In h (liveHandles e) /\ ~ In h (map rtmidi (fMidiIns e ++ fMidiOuts e))).
Proof.
  cbv zeta. unfold close.
  set (ea := if fAudioOutCount e =? 0 then carla_safe_assert e else e).
  assert (Hea : lastError ea = lastError e /\ graph_rack ea = graph_rack e
                /\ base ea = base e /\ fAudio ea = fAudio e /\ fMidiIns ea = fMidiIns e
                /\ fMidiOuts ea = fMidiOuts e /\ nextHandle ea = nextHandle e
                /\ liveHandles ea = liveHandles e).
  { subst ea. destruct (fAudioOutCount e =? 0); simpl; repeat split. }
  destruct Hea as (Hla & Hga & Hba & Hfa & Hia & Hoa & Hna & Hha).
  cbn [lastError graph_rack base set_audio_isReady].
  destruct (CarlaEngine_close (lastError ea) (graph_rack ea) (base ea)) as [ok [[err rack] b]].
  set (eb := set_base b (set_graph_rack rack (set_lastError err (set_audio_isReady false ea)))).
  pose proof (closeStream_spec n (negb ok) eb) as Hcs. cbv zeta in Hcs.
  pose proof (closeStream_audio n (negb ok) eb) as Hca.
  destruct (closeStream n (negb ok) eb) as [hasError es]. cbn [fst snd] in Hcs, Hca.
  destruct Hcs as (_ & _ & _ & _ & His & Hos & Hhs & Hrs).
  destruct Hca as (Haud & Hnext).
  change (fAudio eb) with (fAudio ea) in Haud.
  change (fMidiIns eb) with (fMidiIns ea) in His.
  change (fMidiOuts eb) with (fMidiOuts ea) in Hos.
  change (liveHandles eb) with (liveHandles ea) in Hhs.
  change (nextHandle eb) with (nextHandle ea) in Hnext.
  change (audio_isReady eb) with false in Hrs.
  pose proof (closeMidiIn_fold (fMidiIns es) es) as Hfi. cbv zeta in Hfi.
  pose proof (closeMidiIn_fold_next (fMidiIns es) es) as Hni.
  set (ei := fold_left closeMidiIn (fMidiIns es) es) in *.
  destruct Hfi as (_ & Hhi & _ & Hfai & _ & Hoi & Hri).
  pose proof (closeMidiOut_fold (fMidiOuts ei) ei) as Hfo. cbv zeta in Hfo.
  pose proof (closeMidiOut_fold_next (fMidiOuts ei) ei) as Hno.
  set (eo := fold_left closeMidiOut (fMidiOuts ei) ei) in *.
  destruct Hfo as (_ & Hho & _ & Hfao & _ & _ & Hro).
  cbn [fst snd].
  cbn [fAudio liveHandles nextHandle fMidiIns fMidiOuts fAudioInCount fAudioOutCount
       fLastEventTime audio_isReady
       set_fAudioInCount set_fAudioOutCount set_fLastEventTime set_fDeviceName
       set_fUsedMidiPorts set_fMidiInEvents set_fMidiIns set_fMidiOuts].
  split; [reflexivity|]. split; [reflexivity|]. split; [reflexivity|].
  split; [rewrite Hro, Hri, Hrs; reflexivity|].
  split; [rewrite Hfao, Hfai, Haud, Hfa; reflexivity|].
  split; [reflexivity|]. split; [reflexivity|].
  split; [rewrite Hno, Hni, Hnext, Hna; reflexivity|].
  intros h Hin.
  destruct (Hho _ Hin) as [Hin1 Hnot_out]. destruct (Hhi _ Hin1) as [Hin2 Hnot_in].
  rewrite Hoi, Hos, Hoa in Hnot_out. rewrite His, Hia in Hnot_in.
  rewrite Hhs, Hha in Hin2. split; [exact Hin2|].
  rewrite map_app. intros Hboth. apply in_app_or in Hboth. tauto.
Qed.

(** X10.  [close] gives back every RtMidi object: when the objects alive
    are those of the two registries, none is alive after [close], the
    registries are empty, and the driver is in the state [init] asks for
    (no channels, no last event time, not ready, stream neither open nor
    running), as long as a running stream was an open one before. *)
Theorem close_releases_all (n : Native) (e : Engine) :
  registryOwnsHandles e ->
  (RtAudio.streamRunning (fAudio e) = true -> RtAudio.streamOpen (fAudio e) = true) ->
  let e' := snd (close n e) in
  liveHandles e' = [] /\ fMidiIns e' = [] /\ fMidiOuts e' = [] /\
  registryOwnsHandles e' /\ closedDriver e' /\ isRunning e' = false.
Proof.
  intros (Hnd & Hiff & Hall) Hrun. cbv zeta.
  destruct (close_fields n e) as (Hi & Ho & Hl & Hr & Ha & Hins & Houts & Hn & Hh).
  assert (Hnone : liveHandles (snd (close n e)) = []).
  { destruct (liveHandles (snd (close n e))) as [|h l] eqn:Hlive; [reflexivity|].
    exfalso. destruct (Hh h (or_introl eq_refl)) as [Hin Hnot].
    apply Hnot, Hiff, Hin. }
  assert (Hstream : RtAudio.streamOpen (fAudio (snd (close n e))) = false /\
                    RtAudio.streamRunning (fAudio (snd (close n e))) = false).
  { rewrite Ha. destruct (RtAudio.streamOpen (fAudio e)) eqn:Hopen; [split; reflexivity|].
    split; [exact Hopen|].
    destruct (RtAudio.streamRunning (fAudio e)); [|reflexivity].
    specialize (Hrun eq_refl). discriminate. }
  destruct Hstream as [Hopen Hrunning].
  split; [exact Hnone|]. split; [exact Hins|]. split; [exact Houts|].
  split; [|split].
  - unfold registryOwnsHandles. rewrite Hnone, Hins, Houts. cbn.
    split; [constructor|]. split; [intros h; split; intros []|constructor].
  - unfold closedDriver. repeat split; assumption.
  - exact Hrunning.
Qed.

(** What a refresh does not write: any field that [emit], the assignment
    to the rack and the assignment to [fUsedMidiPorts] leave alone. *)
Lemma patchbayRefresh_keeps {A : Type} (f : Engine -> A) (n : Native) (e : Engine) :
  (forall ef e0, f (emit ef e0) = f e0) ->
  (forall r e0, f (set_graph_rack r e0) = f e0) ->
  (forall l e0, f (set_fUsedMidiPorts l e0) = f e0) ->
  f (snd (patchbayRefresh n e)) = f e.
Proof.
  intros Hemit Hrack Hused.
  assert (Haudio : forall g fl p fuel i e0, f (addAudioPorts g fl p fuel i e0) = f e0).
  { intros g fl p fuel. induction fuel as [|fuel IH]; intros i e0; simpl; [reflexivity|].
    rewrite IH. apply Hemit. }
  assert (Hmidi : forall isIn names i e0, f (addMidiPorts isIn names i e0) = f e0).
  { intros isIn names. induction names as [|nm names IH]; intros i e0; simpl; [reflexivity|].
    rewrite IH, Hrack. apply Hemit. }
  assert (Hconn : forall gA pA gB pB e0, f (addConnection gA pA gB pB e0) = f e0).
  { intros. unfold addConnection. rewrite Hrack. apply Hemit. }
  assert (Hconns : forall mk limit ids e0,
             (forall p e1, f (mk p e1) = f e1) -> f (addConnections mk limit ids e0) = f e0).
  { intros mk limit ids e0 Hmk. revert e0.
    induction ids as [|p ids IH]; intros e0; simpl; [reflexivity|].
    destruct (p <? limit); rewrite IH; [apply Hmk|apply Hemit]. }
  unfold patchbayRefresh.
  destruct (negb (audio_isReady e)); [apply Hemit|]. cbn [snd].
  destruct (graph_isRack (set_fUsedMidiPorts [] e)); [|apply Hused].
  unfold patchbayRefreshRack, refreshConnections. cbv zeta.
  rewrite !Hconns by (intros; apply Hconn).
  unfold refreshGroups. cbv zeta.
  repeat first [rewrite Hmidi | rewrite Haudio | rewrite Hemit | rewrite Hrack].
  apply Hused.
Qed.

(** X11.  When [init] returns success the driver is up: the stream is open
    and running ([isRunning]), the engine is marked ready, the output
    channel count is not 0, the last event time is 0, the internal audio
    port counts are 2 and 2 in rack mode and 0 and 0 in patchbay mode; and
    this takes a supported process mode, at least one device, and an
    [openStream] and a [startStream] that did not throw. *)
Theorem init_success_state (n : Native) (clientName : option string) (e e' : Engine) :
  init n clientName e = (true, e') ->
  audio_isReady e' = true /\ isRunning e' = true /\
  RtAudio.streamOpen (fAudio e') = true /\
  fAudioOutCount e' <> 0 /\ fLastEventTime e' = 0 /\
  audio_inCount e' = (if isRackMode (processMode (options e)) then 2 else 0) /\
  audio_outCount e' = (if isRackMode (processMode (options e)) then 2 else 0) /\
  isSupportedMode (processMode (options e)) = true /\
  devices n <> [] /\
  (exists negotiated, openStream n = Ok negotiated) /\ startStream n = Ok tt.
Proof.
  unfold init.
  destruct (negb (fAudioInCount e =? 0)); [discriminate|].
  destruct (negb (fAudioOutCount e =? 0)); [discriminate|].
  destruct (negb (fLastEventTime e =? 0)); [discriminate|].
  destruct clientName as [[|c cn]|]; try discriminate.
  destruct (isSupportedMode (processMode (options e))) eqn:Hmode; [|discriminate].
  cbn [negb].
  destruct (devices n) as [|d ds] eqn:Hdevs; [discriminate|].
  destruct (Z.of_nat (List.length (d :: ds)) =? 0); [discriminate|].
  cbv zeta.
  assert (Hstream : forall deviceSet iParams oParams e0,
             RtAudio.nChannels oParams <> 0 ->
             options e0 = options e ->
             initStream n (String c cn) deviceSet iParams oParams e0 = (true, e') ->
             audio_isReady e' = true /\ isRunning e' = true /\
             RtAudio.streamOpen (fAudio e') = true /\
             fAudioOutCount e' <> 0 /\ fLastEventTime e' = 0 /\
             audio_inCount e' = (if isRackMode (processMode (options e)) then 2 else 0) /\
             audio_outCount e' = (if isRackMode (processMode (options e)) then 2 else 0) /\
             true = true /\ d :: ds <> [] /\
             (exists negotiated, openStream n = Ok negotiated) /\ startStream n = Ok tt).
  { intros deviceSet iParams oParams e0 Hout Hopts. unfold initStream. cbv zeta.
    destruct (openStream n) as [[bufferFrames rate]|what]; [|discriminate].
    destruct (startStream n) as [[]|what].
    - match goal with |- context [CarlaEngine_init ?a ?b ?c] =>
        destruct (CarlaEngine_init a b c) as [rack b'] end.
      match goal with |- context [patchbayRefresh n ?e1] =>
        pose proof (patchbayRefresh_keeps audio_isReady n e1
                      ltac:(reflexivity) ltac:(reflexivity) ltac:(reflexivity)) as Hr;
        pose proof (patchbayRefresh_keeps fAudio n e1
                      ltac:(reflexivity) ltac:(reflexivity) ltac:(reflexivity)) as Ha;
        pose proof (patchbayRefresh_keeps fAudioOutCount n e1
                      ltac:(reflexivity) ltac:(reflexivity) ltac:(reflexivity)) as Ho;
        pose proof (patchbayRefresh_keeps fLastEventTime n e1
                      ltac:(reflexivity) ltac:(reflexivity) ltac:(reflexivity)) as Hl;
        pose proof (patchbayRefresh_keeps audio_inCount n e1
                      ltac:(reflexivity) ltac:(reflexivity) ltac:(reflexivity)) as Hic;
        pose proof (patchbayRefresh_keeps audio_outCount n e1
                      ltac:(reflexivity) ltac:(reflexivity) ltac:(reflexivity)) as Hoc;
        destruct (patchbayRefresh n e1) as [ok e2] end.
      cbn [snd] in Hr, Ha, Ho, Hl, Hic, Hoc.
      intros H. injection H as <-.
      unfold isRunning. rewrite Hr, Ha, Ho, Hl, Hic, Hoc.
      cbn. rewrite Hopts.
      repeat split; try reflexivity; try assumption; try discriminate.
      eexists. reflexivity.
    - match goal with |- context [close n ?e1] => destruct (close n e1) as [ok e1'] end.
      discriminate. }
  match goal with |- context [match ?found with Some _ => _ | None => _ end] =>
    match type of found with
    | option (Z * RtAudio.DeviceInfo) => destruct found as [[i devInfo]|]
    end end.
  - cbn [RtAudio.nChannels].
    destruct (Z.eqb_spec (RtAudio.outputChannels devInfo) 0); [discriminate|].
    apply Hstream; [assumption|reflexivity].
  - cbn [RtAudio.nChannels].
    destruct (Z.eqb_spec (RtAudio.outputChannels (getDeviceInfo n (defaultOutputDevice n))) 0);
      [discriminate|].
    apply Hstream; [assumption|reflexivity].
Qed.

Lemma initStream_failure (n : Native) (clientName : string) (deviceSet : bool)
    (iParams oParams : RtAudio.StreamParameters) (e e' : Engine) :
  initStream n clientName deviceSet iParams oParams e = (false, e') ->
  (exists what, openStream n = Threw what /\ lastError e' = what /\
                fAudioInCount e' = fAudioInCount e /\ fAudioOutCount e' = fAudioOutCount e /\
                fLastEventTime e' = fLastEventTime e /\ audio_isReady e' = audio_isReady e /\
                fAudio e' = fAudio e) \/
  (exists negotiated what,
     openStream n = Ok negotiated /\ startStream n = Threw what /\ lastError e' = what /\
     fAudioInCount e' = 0 /\ fAudioOutCount e' = 0 /\ fLastEventTime e' = 0 /\
     audio_isReady e' = false /\
     RtAudio.streamOpen (fAudio e') = false /\ RtAudio.streamRunning (fAudio e') = false).
Proof.
  unfold initStream. cbv zeta.
  destruct (openStream n) as [[bufferFrames rate]|what].
  - destruct (startStream n) as [u|what].
    + match goal with |- context [CarlaEngine_init ?a ?b ?c] =>
        destruct (CarlaEngine_init a b c) as [rack b'] end.
      match goal with |- context [patchbayRefresh n ?e1] =>
        destruct (patchbayRefresh n e1) as [ok e2] end.
      discriminate.
    + match goal with |- context [close n ?e1] =>
        pose proof (close_fields n e1) as Hc; cbv zeta in Hc;
        destruct (close n e1) as [ok e1'] end.
      cbn [snd] in Hc. destruct Hc as (Hi & Ho & Hl & Hr & Ha & _).
      intros H. injection H as <-. right. exists (bufferFrames, rate), what.
      cbn [lastError fAudioInCount fAudioOutCount fLastEventTime audio_isReady fAudio
           setLastError set_lastError].
      rewrite Ha. cbn. repeat split; auto.
  - intros H. injection H as <-. left. exists what. cbn. repeat split.
Qed.

(** X12.  A failed [init] leaves a closed driver closed: started with no
    channels, no last event time, not ready and no stream, it ends, when
    it returns failure, in that same state, also when the stream had been
    opened and starting it threw. *)
Theorem init_failure_stays_closed (n : Native) (clientName : option string) (e e' : Engine) :
  closedDriver e ->
  init n clientName e = (false, e') ->
  closedDriver e' /\ isRunning e' = false.
Proof.
  intros (Hi & Ho & Hl & Hr & Hopen & Hrun).
  assert (Hsame : forall e0,
             fAudioInCount e0 = fAudioInCount e -> fAudioOutCount e0 = fAudioOutCount e ->
             fLastEventTime e0 = fLastEventTime e -> audio_isReady e0 = audio_isReady e ->
             fAudio e0 = fAudio e ->
             closedDriver e0 /\ isRunning e0 = false).
  { intros e0 H1 H2 H3 H4 H5. unfold closedDriver, isRunning.
    rewrite H1, H2, H3, H4, H5. repeat split; assumption. }
  assert (Hstream : forall deviceSet iParams oParams cn e0,
             fAudioInCount e0 = fAudioInCount e -> fAudioOutCount e0 = fAudioOutCount e ->
             fLastEventTime e0 = fLastEventTime e -> audio_isReady e0 = audio_isReady e ->
             fAudio e0 = fAudio e ->
             initStream n cn deviceSet iParams oParams e0 = (false, e') ->
             closedDriver e' /\ isRunning e' = false).
  { intros deviceSet iParams oParams cn e0 H1 H2 H3 H4 H5 Hfail.
    destruct (initStream_failure _ _ _ _ _ _ _ Hfail)
      as [(what & _ & _ & G1 & G2 & G3 & G4 & G5)
         |(negotiated & what & _ & _ & _ & G1 & G2 & G3 & G4 & G5 & G6)].
    - apply Hsame; congruence.
    - unfold closedDriver, isRunning. repeat split; assumption. }
  unfold init.
  destruct (negb (fAudioInCount e =? 0));
    [intros H; injection H as <-; now apply Hsame|].
  destruct (negb (fAudioOutCount e =? 0));
    [intros H; injection H as <-; now apply Hsame|].
  destruct (negb (fLastEventTime e =? 0));
    [intros H; injection H as <-; now apply Hsame|].
  destruct clientName as [[|c cn]|];
    try (intros H; injection H as <-; now apply Hsame).
  destruct (negb (isSupportedMode (processMode (options e))));
    [intros H; injection H as <-; now apply Hsame|].
  destruct (Z.of_nat (List.length (devices n)) =? 0);
    [intros H; injection H as <-; now apply Hsame|].
  cbv zeta.
  match goal with |- context [match ?found with Some _ => _ | None => _ end] =>
    match type of found with
    | option (Z * RtAudio.DeviceInfo) => destruct found as [[i devInfo]|]
    end end.
  - cbn [RtAudio.nChannels].
    destruct (RtAudio.outputChannels devInfo =? 0);
      [intros H; injection H as <-; now apply Hsame|].
    now apply Hstream.
  - cbn [RtAudio.nChannels].
    destruct (RtAudio.outputChannels _ =? 0);
      [intros H; injection H as <-; now apply Hsame|].
    now apply Hstream.
Qed.

(** X13.  Why [init] fails.  When it returns failure, either one of its
    four assertions failed (nothing changed but the report), or the last
    error says why: the process mode is not supported; the driver has no
    device; the chosen device has no outputs; or [openStream] or
    [startStream] threw, and the last error is the message thrown. *)
Theorem init_failure_reason (n : Native) (clientName : option string) (e e' : Engine) :
  init n clientName e = (false, e') ->
  e' = carla_safe_assert e \/
  (isSupportedMode (processMode (options e)) = false /\
   lastError e' = "Invalid process mode"%string) \/
  (devices n = [] /\
   lastError e' = "No audio devices available for this driver"%string) \/
  lastError e' = "Current audio setup has no outputs, cannot continue"%string \/
  (exists what, openStream n = Threw what /\ lastError e' = what) \/
  (exists what, startStream n = Threw what /\ lastError e' = what).
Proof.
  unfold init.
  destruct (negb (fAudioInCount e =? 0)); [intros H; injection H as <-; auto|].
  destruct (negb (fAudioOutCount e =? 0)); [intros H; injection H as <-; auto|].
  destruct (negb (fLastEventTime e =? 0)); [intros H; injection H as <-; auto|].
  destruct clientName as [[|c cn]|]; try (intros H; injection H as <-; auto).
  destruct (isSupportedMode (processMode (options e))); cbn [negb];
    [|intros H; injection H as <-; right; left; auto].
  destruct (devices n) as [|d ds]; cbn [List.length];
    [intros H; injection H as <-; right; right; left; auto|].
  destruct (Z.of_nat (S (List.length ds)) =? 0) eqn:Hz; [apply Z.eqb_eq in Hz; lia|].
  cbv zeta.
  assert (Hstream : forall deviceSet iParams oParams e0,
             initStream n (String c cn) deviceSet iParams oParams e0 = (false, e') ->
             (exists what, openStream n = Threw what /\ lastError e' = what) \/
             (exists what, startStream n = Threw what /\ lastError e' = what)).
  { intros deviceSet iParams oParams e0 Hfail.
    destruct (initStream_failure _ _ _ _ _ _ _ Hfail)
      as [(what & Ho & Hl & _)|(negotiated & what & _ & Hs & Hl & _)].
    - left. exists what. auto.
    - right. exists what. auto. }
  match goal with |- context [match ?found with Some _ => _ | None => _ end] =>
    match type of found with
    | option (Z * RtAudio.DeviceInfo) => destruct found as [[i devInfo]|]
    end end.
  - cbn [RtAudio.nChannels].
    destruct (RtAudio.outputChannels devInfo =? 0);
      [intros H; injection H as <-; right; right; right; left; reflexivity|].
    intros H. do 4 right. eapply Hstream, H.
  - cbn [RtAudio.nChannels].
    destruct (RtAudio.outputChannels _ =? 0);
      [intros H; injection H as <-; right; right; right; left; reflexivity|].
    intros H. do 4 right. eapply Hstream, H.
Qed.

End Lifecycle.

Lemma close_releases_witness :
  (registryOwnsHandles openedEngine /\
   (RtAudio.streamRunning (fAudio openedEngine) = true ->
    RtAudio.streamOpen (fAudio openedEngine) = true)) /\
  let e' := snd (close linuxBox openedEngine) in
  liveHandles e' = [] /\ fMidiIns e' = [] /\ fMidiOuts e' = [] /\
  registryOwnsHandles e' /\ closedDriver e' /\ isRunning e' = false.
Proof.
  assert (H : registryOwnsHandles openedEngine).
  { unfold registryOwnsHandles. vm_compute.
    split; [repeat constructor; intros []|].
    split; [intros h; split; intros Hin; exact Hin|repeat constructor]. }
  assert (Hrun : RtAudio.streamRunning (fAudio openedEngine) = true ->
                 RtAudio.streamOpen (fAudio openedEngine) = true)
    by (intros _; vm_compute; reflexivity).
  split; [split; [exact H|exact Hrun]|].
  exact (@close_releases_all (plainExternals 512) linuxBox openedEngine H Hrun).
Defined.

Lemma init_success_witness :
  let r := @init (plainExternals 512) linuxBox (Some "Carla"%string) (freshEngine 512) in
  r = (true, snd r) /\
  audio_isReady (snd r) = true /\ isRunning (snd r) = true /\
  RtAudio.streamOpen (fAudio (snd r)) = true /\
  fAudioOutCount (snd r) <> 0 /\ fLastEventTime (snd r) = 0 /\
  audio_inCount (snd r)
    = (if isRackMode (processMode (options (freshEngine 512))) then 2 else 0) /\
  audio_outCount (snd r)
    = (if isRackMode (processMode (options (freshEngine 512))) then 2 else 0) /\
  isSupportedMode (processMode (options (freshEngine 512))) = true /\
  devices linuxBox <> [] /\
  (exists negotiated, openStream linuxBox = Ok negotiated) /\ startStream linuxBox = Ok tt.
Proof.
  assert (H : @init (plainExternals 512) linuxBox (Some "Carla"%string) (freshEngine 512)
              = (true, snd (@init (plainExternals 512) linuxBox (Some "Carla"%string)
                                  (freshEngine 512))))
    by (vm_compute; reflexivity).
  split; [exact H|].
  exact (@init_success_state (plainExternals 512) linuxBox (Some "Carla"%string)
           (freshEngine 512) _ H).
Defined.

Lemma init_failure_witness :
  let r := @init (plainExternals 512) brokenStart (Some "Carla"%string) (freshEngine 512) in
  (closedDriver (freshEngine 512) /\ r = (false, snd r)) /\
  closedDriver (snd r) /\ isRunning (snd r) = false.
Proof.
  assert (Hc : closedDriver (freshEngine 512)) by (vm_compute; repeat split).
  assert (H : @init (plainExternals 512) brokenStart (Some "Carla"%string) (freshEngine 512)
              = (false, snd (@init (plainExternals 512) brokenStart (Some "Carla"%string)
                                   (freshEngine 512))))
    by (vm_compute; reflexivity).
  split; [split; [exact Hc|exact H]|].
  exact (@init_failure_stays_closed (plainExternals 512) brokenStart (Some "Carla"%string)
           (freshEngine 512) _ Hc H).
Defined.

Lemma init_failure_reason_witness :
  let r := @init (plainExternals 512) brokenStart (Some "Carla"%string) (freshEngine 512) in
  r = (false, snd r) /\
  (snd r = carla_safe_assert (freshEngine 512) \/
   (isSupportedMode (processMode (options (freshEngine 512))) = false /\
    lastError (snd r) = "Invalid process mode"%string) \/
   (devices brokenStart = [] /\
    lastError (snd r) = "No audio devices available for this driver"%string) \/
   lastError (snd r) = "Current audio setup has no outputs, cannot continue"%string \/
   (exists what, openStream brokenStart = Threw what /\ lastError (snd r) = what) \/
   (exists what, startStream brokenStart = Threw what /\ lastError (snd r) = what)).
Proof.
  assert (H : @init (plainExternals 512) brokenStart (Some "Carla"%string) (freshEngine 512)
              = (false, snd (@init (plainExternals 512) brokenStart (Some "Carla"%string)
                                   (freshEngine 512))))
    by (vm_compute; reflexivity).
  split; [exact H|].
  exact (@init_failure_reason (plainExternals 512) brokenStart (Some "Carla"%string)
           (freshEngine 512) _ H).
Defined.

(** ** The patchbay refresh, once more *)

Section PatchbayMore.
Context {X : Externals}.

Lemma addAudioPorts_keeps {A : Type} (f : Engine -> A) (group : RackGraphGroup)
    (flags : PortFlags) (prefix : string) (fuel : nat) (i : Z) (e : Engine) :
  (forall ef e0, f (emit ef e0) = f e0) ->
  f (addAudioPorts group flags prefix fuel i e) = f e.
Proof.
  intros Hemit. revert i e. induction fuel as [|fuel IH]; intros i e; simpl; [reflexivity|].
  rewrite IH. apply Hemit.
Qed.

Lemma addMidiPorts_keeps {A : Type} (f : Engine -> A) (isInput : bool)
    (names : list string) (i : Z) (e : Engine) :
  (forall ef e0, f (emit ef e0) = f e0) ->
  (forall r e0, f (set_graph_rack r e0) = f e0) ->
  f (addMidiPorts isInput names i e) = f e.
Proof.
  intros Hemit Hrack. revert i e.
  induction names as [|nm names IH]; intros i e; simpl; [reflexivity|].
  rewrite IH, Hrack. apply Hemit.
Qed.

Lemma addAudioPorts_trace (group : RackGraphGroup) (flags : PortFlags) (prefix : string)
    (fuel : nat) (i : Z) (e : Engine) :
  exists s,
    announced e (addAudioPorts group flags prefix fuel i e) s /\
    announcedGroups s = [] /\
    announcedPorts s = map (fun j => (group, HwPort j, flags)) (indicesFrom i fuel).
Proof.
  revert i e. induction fuel as [|fuel IH]; intros i e; cbn [addAudioPorts].
  - exists []. unfold announced. rewrite app_nil_r. repeat split; constructor.
  - destruct (IH (i + 1)
                 (emit (PORT_ADDED group (HwPort i) flags
                                   (snprintf (prefix ++ dec (i + 1))%string)) e))
      as (s & (Ht & Hall) & Hg & Hp).
    eexists (_ :: s). unfold announced. rewrite Ht. cbn [trace emit set_trace].
    rewrite <- app_assoc. split; [split; [reflexivity|constructor; [reflexivity|exact Hall]]|].
    split; [exact Hg|]. rewrite indicesFrom_S. cbn [map].
    transitivity ((group, HwPort i, flags) :: announcedPorts s); [reflexivity|].
    rewrite Hp. reflexivity.
Qed.

Lemma midiEntries_cons (group : RackGraphGroup) (i : Z) (nm : string) (names : list string) :
  midiEntries group i (nm :: names)
    = (group, i, strncpy nm STR_MAX) :: midiEntries group (i + 1) names.
Proof.
  unfold midiEntries. cbn [List.length]. rewrite indicesFrom_S. reflexivity.
Qed.

Lemma addMidiPorts_trace (isInput : bool) (names : list string) (i : Z) (e : Engine) :
  let group := if isInput then RACK_GRAPH_GROUP_MIDI_IN else RACK_GRAPH_GROUP_MIDI_OUT in
  let flags := if isInput then MIDI_OUTPUT else MIDI_INPUT in
  let e' := addMidiPorts isInput names i e in
  exists s made,
    announced e e' s /\
    announcedGroups s = [] /\
    announcedPorts s
      = map (fun j => (group, HwPort j, flags)) (indicesFrom i (List.length names)) /\
    map entryKey made = midiEntries group i names /\
    midi_ins (graph_rack e')
      = midi_ins (graph_rack e) ++ (if isInput then made else []) /\
    midi_outs (graph_rack e')
      = midi_outs (graph_rack e) ++ (if isInput then [] else made).
Proof.
  cbv zeta. revert i e.
  induction names as [|nm names IH]; intros i e; cbn [addMidiPorts].
  - exists [], []. unfold announced. rewrite !app_nil_r.
    destruct isInput; repeat split; rewrite ?app_nil_r; try reflexivity; constructor.
  - match goal with |- context [addMidiPorts isInput names (i + 1) ?e0] =>
      destruct (IH (i + 1) e0) as (s & made & (Ht & Hall) & Hg & Hp & Hk & Hins & Houts)
    end.
    set (entry := setData (if isInput then RACK_GRAPH_GROUP_MIDI_IN
                           else RACK_GRAPH_GROUP_MIDI_OUT) i nm
                          (snprintf ((if isInput then "Readable MIDI ports:"
                                      else "Writable MIDI ports:") ++ nm)%string)) in *.
    exists (PORT_ADDED (pn_group entry) (HwPort (pn_port entry))
                       (if isInput then MIDI_OUTPUT else MIDI_INPUT) (pn_name entry) :: s),
           (entry :: made).
    unfold announced.
    rewrite Ht, Hins, Houts. cbn [trace emit set_trace set_graph_rack graph_rack].
    rewrite <- app_assoc.
    split; [split; [reflexivity|constructor; [reflexivity|exact Hall]]|].
    split; [exact Hg|].
    split.
    { cbn [List.length]. rewrite indicesFrom_S. cbn [map].
      etransitivity; [|rewrite <- Hp; reflexivity].
      destruct isInput; reflexivity. }
    split.
    { rewrite midiEntries_cons. cbn [map]. rewrite Hk.
      destruct isInput; reflexivity. }
    destruct isInput; cbn; rewrite <- ?app_assoc, ?app_nil_r; split; reflexivity.
Qed.

Lemma announced_trans (e1 e2 e3 : Engine) (s1 s2 : list Effect) :
  announced e1 e2 s1 -> announced e2 e3 s2 -> announced e1 e3 (s1 ++ s2).
Proof.
  intros [H1 F1] [H2 F2]. split.
  - rewrite H2, H1, app_assoc. reflexivity.
  - apply Forall_app. auto.
Qed.

Lemma announced_emit (ef : Effect) (e : Engine) :
  isAnnouncement ef = true -> announced e (emit ef e) [ef].
Proof. intros H. split; [reflexivity|]. constructor; [exact H|constructor]. Qed.

Lemma announcedGroups_app (s1 s2 : list Effect) :
  announcedGroups (s1 ++ s2) = announcedGroups s1 ++ announcedGroups s2.
Proof. unfold announcedGroups. apply flat_map_app. Qed.

Lemma announcedPorts_app (s1 s2 : list Effect) :
  announcedPorts (s1 ++ s2) = announcedPorts s1 ++ announcedPorts s2.
Proof. unfold announcedPorts. apply flat_map_app. Qed.

Lemma refreshGroups_announced (n : Native) (e : Engine) :
  let api := getMatchedAudioMidiAPI (os n) (RtAudio.currentApi (fAudio e)) in
  let eg := refreshGroups n e in
  exists s madeIn madeOut,
    announced e eg s /\
    announcedGroups s =
      [RACK_GRAPH_GROUP_CARLA; RACK_GRAPH_GROUP_AUDIO_IN; RACK_GRAPH_GROUP_AUDIO_OUT;
       RACK_GRAPH_GROUP_MIDI_IN; RACK_GRAPH_GROUP_MIDI_OUT] /\
    announcedPorts s =
      carlaPorts
      ++ hwPorts RACK_GRAPH_GROUP_AUDIO_IN AUDIO_OUTPUT (Z.to_nat (fAudioInCount e))
      ++ hwPorts RACK_GRAPH_GROUP_AUDIO_OUT AUDIO_INPUT (Z.to_nat (fAudioOutCount e))
      ++ hwPorts RACK_GRAPH_GROUP_MIDI_IN MIDI_OUTPUT (List.length (midiInPorts n api))
      ++ hwPorts RACK_GRAPH_GROUP_MIDI_OUT MIDI_INPUT (List.length (midiOutPorts n api)) /\
    map entryKey madeIn = midiEntries RACK_GRAPH_GROUP_MIDI_IN 0 (midiInPorts n api) /\
    map entryKey madeOut = midiEntries RACK_GRAPH_GROUP_MIDI_OUT 0 (midiOutPorts n api) /\
    midi_ins (graph_rack eg) = midi_ins (graph_rack e) ++ madeIn /\
    midi_outs (graph_rack eg) = midi_outs (graph_rack e) ++ madeOut.
Proof.
  cbv zeta. unfold refreshGroups. cbv zeta.
  set (e0 := set_graph_rack _ e).
  set (e1 := emit (PORT_ADDED _ (CarlaPort RACK_GRAPH_CARLA_PORT_MIDI_OUT) _ _) _).
  set (e2 := emit (CLIENT_ADDED RACK_GRAPH_GROUP_AUDIO_IN _ _) e1).
  change (fAudioInCount e2) with (fAudioInCount e).
  destruct (addAudioPorts_trace RACK_GRAPH_GROUP_AUDIO_IN AUDIO_OUTPUT "capture_"
              (Z.to_nat (fAudioInCount e)) 0 e2) as (sIn & HaIn & HgIn & HpIn).
  set (e3 := addAudioPorts RACK_GRAPH_GROUP_AUDIO_IN _ _ _ 0 e2) in *.
  set (e4 := emit (CLIENT_ADDED RACK_GRAPH_GROUP_AUDIO_OUT _ _) e3).
  assert (Hout : fAudioOutCount e4 = fAudioOutCount e).
  { change (fAudioOutCount e4) with (fAudioOutCount e3). subst e3.
    rewrite addAudioPorts_keeps by reflexivity. reflexivity. }
  rewrite Hout.
  destruct (addAudioPorts_trace RACK_GRAPH_GROUP_AUDIO_OUT AUDIO_INPUT "playback_"
              (Z.to_nat (fAudioOutCount e)) 0 e4) as (sOut & HaOut & HgOut & HpOut).
  set (e5 := addAudioPorts RACK_GRAPH_GROUP_AUDIO_OUT _ _ _ 0 e4) in *.
  assert (Hapi : fAudio e5 = fAudio e).
  { subst e5. rewrite addAudioPorts_keeps by reflexivity.
    change (fAudio e4) with (fAudio e3). subst e3.
    rewrite addAudioPorts_keeps by reflexivity. reflexivity. }
  rewrite Hapi.
  set (api := getMatchedAudioMidiAPI (os n) (RtAudio.currentApi (fAudio e))).
  set (e6 := emit (CLIENT_ADDED RACK_GRAPH_GROUP_MIDI_IN _ _) e5).
  pose proof (addMidiPorts_trace true (midiInPorts n api) 0 e6) as Hmi. cbv zeta in Hmi.
  destruct Hmi as (sMi & madeIn & HaMi & HgMi & HpMi & HkMi & HinsMi & HoutsMi).
  set (e7 := addMidiPorts true (midiInPorts n api) 0 e6) in *.
  set (e8 := emit (CLIENT_ADDED RACK_GRAPH_GROUP_MIDI_OUT _ _) e7).
  pose proof (addMidiPorts_trace false (midiOutPorts n api) 0 e8) as Hmo. cbv zeta in Hmo.
  destruct Hmo as (sMo & madeOut & HaMo & HgMo & HpMo & HkMo & HinsMo & HoutsMo).
  set (e9 := addMidiPorts false (midiOutPorts n api) 0 e8) in *.
  assert (Hmain : exists main,
             announced e e1 main /\
             announcedGroups main = [RACK_GRAPH_GROUP_CARLA] /\
             announcedPorts main = carlaPorts).
  { subst e1. eexists. split.
    - repeat (eapply announced_trans; [|apply announced_emit; reflexivity]).
      split; [symmetry; apply app_nil_r|constructor].
    - split; reflexivity. }
  destruct Hmain as (main & Hamain & Hgmain & Hpmain).
  assert (Hrack : midi_ins (graph_rack e5) = midi_ins (graph_rack e) /\
                  midi_outs (graph_rack e5) = midi_outs (graph_rack e)).
  { subst e5. rewrite !(addAudioPorts_keeps (fun e0 => midi_ins (graph_rack e0)))
      by reflexivity.
    rewrite !(addAudioPorts_keeps (fun e0 => midi_outs (graph_rack e0))) by reflexivity.
    change (graph_rack e4) with (graph_rack e3). subst e3.
    rewrite !(addAudioPorts_keeps (fun e0 => midi_ins (graph_rack e0))) by reflexivity.
    rewrite !(addAudioPorts_keeps (fun e0 => midi_outs (graph_rack e0))) by reflexivity.
    split; reflexivity. }
  destruct Hrack as [Hri Hro].
  clearbody e1.
  eexists. exists madeIn, madeOut.
  split.
  { repeat (eapply announced_trans; [|first [ exact HaMo | exact HaMi | exact HaOut
                                            | exact HaIn
                                            | apply announced_emit; reflexivity ]]).
    exact Hamain. }
  rewrite !announcedGroups_app, !announcedPorts_app.
  rewrite Hgmain, HgIn, HgOut, HgMi, HgMo, Hpmain, HpIn, HpOut, HpMi, HpMo.
  split; [reflexivity|]. split.
  { unfold hwPorts. cbn [announcedPorts flat_map app]. rewrite !app_nil_r, <- !app_assoc.
    reflexivity. }
  split; [exact HkMi|]. split; [exact HkMo|].
  rewrite HinsMo, HoutsMo. change (graph_rack e8) with (graph_rack e7).
  rewrite HinsMi, HoutsMi. change (graph_rack e6) with (graph_rack e5).
  rewrite Hri, Hro, !app_nil_r. split; reflexivity.
Qed.

Lemma addConnections_quiet (mk : Z -> Engine -> Engine) (limit : Z) (portIds : list Z)
    (e : Engine) :
  (forall p e0, exists ef, mk p e0 = set_graph_rack (graph_rack (mk p e0)) (emit ef e0)
                           /\ isAnnouncement ef = false) ->
  exists s,
    trace (addConnections mk limit portIds e) = trace e ++ s /\
    Forall (fun ef => isAnnouncement ef = false) s.
Proof.
  intros Hmk. revert e. induction portIds as [|p rest IH]; intros e; cbn [addConnections].
  - exists []. rewrite app_nil_r. split; [reflexivity|constructor].
  - destruct (p <? limit).
    + destruct (Hmk p e) as (ef & Heq & Hq).
      destruct (IH (mk p e)) as (s & Ht & Hall).
      exists (ef :: s). rewrite Ht, Heq. cbn [trace set_graph_rack emit set_trace].
      rewrite <- app_assoc. split; [reflexivity|constructor; assumption].
    + destruct (IH (carla_safe_assert e)) as (s & Ht & Hall).
      exists (SafeAssertFailed :: s). rewrite Ht. cbn [trace carla_safe_assert emit set_trace].
      rewrite <- app_assoc. split; [reflexivity|constructor; [reflexivity|assumption]].
Qed.

Lemma addConnection_quiet (gA : RackGraphGroup) (pA : PortRef) (gB : RackGraphGroup)
    (pB : PortRef) (e : Engine) :
  exists ef,
    addConnection gA pA gB pB e
      = set_graph_rack (graph_rack (addConnection gA pA gB pB e)) (emit ef e)
    /\ isAnnouncement ef = false.
Proof. eexists. split; [reflexivity|reflexivity]. Qed.

Lemma refreshConnections_quiet (e : Engine) :
  exists s,
    trace (refreshConnections e) = trace e ++ s /\
    Forall (fun ef => isAnnouncement ef = false) s.
Proof.
  unfold refreshConnections. cbv zeta.
  assert (Hstep : forall mk limit ids e0 s0,
             (forall p e1, exists ef,
                 mk p e1 = set_graph_rack (graph_rack (mk p e1)) (emit ef e1)
                 /\ isAnnouncement ef = false) ->
             trace e0 = trace e ++ s0 -> Forall (fun ef => isAnnouncement ef = false) s0 ->
             exists s, trace (addConnections mk limit ids e0) = trace e ++ s /\
                       Forall (fun ef => isAnnouncement ef = false) s).
  { intros mk limit ids e0 s0 Hmk Ht Hall.
    destruct (addConnections_quiet mk limit ids e0 Hmk) as (s & Hs & Hq).
    exists (s0 ++ s). rewrite Hs, Ht, app_assoc. split; [reflexivity|].
    apply Forall_app. auto. }
  assert (H0 : trace e = trace e ++ []) by (now rewrite app_nil_r).
  destruct (Hstep connectAudioIn1 (fAudioInCount e) (connectedIn1 (graph_rack e)) e []
              ltac:(intros; apply addConnection_quiet) H0 ltac:(constructor))
    as (s1 & H1 & Q1).
  set (e1 := addConnections connectAudioIn1 _ _ e) in *.
  destruct (Hstep connectAudioIn2 (fAudioInCount e1) (connectedIn2 (graph_rack e1)) e1 s1
              ltac:(intros; apply addConnection_quiet) H1 Q1) as (s2 & H2 & Q2).
  set (e2 := addConnections connectAudioIn2 _ _ e1) in *.
  destruct (Hstep connectAudioOut1 (fAudioOutCount e2) (connectedOut1 (graph_rack e2)) e2 s2
              ltac:(intros; apply addConnection_quiet) H2 Q2) as (s3 & H3 & Q3).
  set (e3 := addConnections connectAudioOut1 _ _ e2) in *.
  destruct (Hstep connectAudioOut2 (fAudioOutCount e3) (connectedOut2 (graph_rack e3)) e3 s3
              ltac:(intros; apply addConnection_quiet) H3 Q3) as (s4 & H4 & Q4).
  set (e4 := addConnections connectAudioOut2 _ _ e3) in *.
  destruct (Hstep connectMidiIn (Z.of_nat (List.length (midi_ins (graph_rack e4))))
              (midiPortIds true (fMidiIns e4) e4) e4 s4
              ltac:(intros; apply addConnection_quiet) H4 Q4) as (s5 & H5 & Q5).
  set (e5 := addConnections connectMidiIn _ _ e4) in *.
  exact (Hstep connectMidiOut (Z.of_nat (List.length (midi_outs (graph_rack e5))))
           (midiPortIds false (fMidiOuts e5) e5) e5 s5
           ltac:(intros; apply addConnection_quiet) H5 Q5).
Qed.

Lemma addConnections_keeps {A : Type} (f : Engine -> A) (mk : Z -> Engine -> Engine)
    (limit : Z) (portIds : list Z) (e : Engine) :
  (forall p e0, f (mk p e0) = f e0) ->
  (forall ef e0, f (emit ef e0) = f e0) ->
  f (addConnections mk limit portIds e) = f e.
Proof.
  intros Hmk Hemit. revert e.
  induction portIds as [|p rest IH]; intros e; simpl; [reflexivity|].
  destruct (p <? limit); rewrite IH; [apply Hmk|apply Hemit].
Qed.

Lemma refreshConnections_keeps {A : Type} (f : Engine -> A) (e : Engine) :
  (forall gA pA gB pB e0, f (addConnection gA pA gB pB e0) = f e0) ->
  (forall ef e0, f (emit ef e0) = f e0) ->
  f (refreshConnections e) = f e.
Proof.
  intros Hconn Hemit. unfold refreshConnections. cbv zeta.
  rewrite !addConnections_keeps; auto; intros; apply Hconn.
Qed.

(** X14.  One pass of [patchbayRefreshRack] announces every group and
    every port before the first connection: its callbacks are a stretch of
    group and port announcements followed by a stretch without any.  The
    groups come as Carla, audio in, audio out, MIDI in, MIDI out; the
    ports are Carla's six, then one capture port per input channel, one
    playback port per output channel, one port per visible MIDI input and
    one per visible MIDI output, each numbered from 0 within its group. *)
Theorem patchbayRefreshRack_announces_first (n : Native) (e : Engine) :
  let api := getMatchedAudioMidiAPI (os n) (RtAudio.currentApi (fAudio e)) in
  exists announcements rest,
    trace (patchbayRefreshRack n e) = trace e ++ announcements ++ rest /\
    Forall (fun ef => isAnnouncement ef = true) announcements /\
    Forall (fun ef => isAnnouncement ef = false) rest /\
    announcedGroups announcements =
      [RACK_GRAPH_GROUP_CARLA; RACK_GRAPH_GROUP_AUDIO_IN; RACK_GRAPH_GROUP_AUDIO_OUT;
       RACK_GRAPH_GROUP_MIDI_IN; RACK_GRAPH_GROUP_MIDI_OUT] /\
    announcedPorts announcements =
      carlaPorts
      ++ hwPorts RACK_GRAPH_GROUP_AUDIO_IN AUDIO_OUTPUT (Z.to_nat (fAudioInCount e))
      ++ hwPorts RACK_GRAPH_GROUP_AUDIO_OUT AUDIO_INPUT (Z.to_nat (fAudioOutCount e))
      ++ hwPorts RACK_GRAPH_GROUP_MIDI_IN MIDI_OUTPUT (List.length (midiInPorts n api))
      ++ hwPorts RACK_GRAPH_GROUP_MIDI_OUT MIDI_INPUT (List.length (midiOutPorts n api)).
Proof.
  cbv zeta. unfold patchbayRefreshRack.
  pose proof (refreshGroups_announced n e) as Hg. cbv zeta in Hg.
  destruct Hg as (s & madeIn & madeOut & (Ht & Hall) & Hgroups & Hports & _).
  destruct (refreshConnections_quiet (refreshGroups n e)) as (c & Hc & Hq).
  exists s, c. rewrite Hc, Ht, <- app_assoc. auto.
Qed.

(** X15.  After a pass of [patchbayRefreshRack] the rack's table of MIDI
    inputs holds what it held before, followed by one entry per visible
    MIDI input port, in the order of the ports: group MIDI-in, the number
    of the port from 0, and the first [STR_MAX] bytes of its name.  The
    table of MIDI outputs grows in the same way. *)
Theorem patchbayRefreshRack_midi_tables (n : Native) (e : Engine) :
  let api := getMatchedAudioMidiAPI (os n) (RtAudio.currentApi (fAudio e)) in
  let e' := patchbayRefreshRack n e in
  exists madeIn madeOut,
    midi_ins (graph_rack e') = midi_ins (graph_rack e) ++ madeIn /\
    midi_outs (graph_rack e') = midi_outs (graph_rack e) ++ madeOut /\
    map entryKey madeIn = midiEntries RACK_GRAPH_GROUP_MIDI_IN 0 (midiInPorts n api) /\
    map entryKey madeOut = midiEntries RACK_GRAPH_GROUP_MIDI_OUT 0 (midiOutPorts n api).
Proof.
  cbv zeta. unfold patchbayRefreshRack.
  pose proof (refreshGroups_announced n e) as Hg. cbv zeta in Hg.
  destruct Hg as (s & madeIn & madeOut & _ & _ & _ & Hki & Hko & Hi & Ho).
  exists madeIn, madeOut.
  rewrite (refreshConnections_keeps (fun e0 => midi_ins (graph_rack e0)))
    by reflexivity.
  rewrite (refreshConnections_keeps (fun e0 => midi_outs (graph_rack e0)))
    by reflexivity.
  auto.
Qed.

End PatchbayMore.

Example refresh_on_linuxBox :
  map entryKey (midi_ins (graph_rack refreshedEngine))
    = [ (RACK_GRAPH_GROUP_MIDI_IN, 0, "Keys"%string);
        (RACK_GRAPH_GROUP_MIDI_IN, 1, "Pads"%string) ] /\
  announcedGroups (trace refreshedEngine)
    = [RACK_GRAPH_GROUP_CARLA; RACK_GRAPH_GROUP_AUDIO_IN; RACK_GRAPH_GROUP_AUDIO_OUT;
       RACK_GRAPH_GROUP_MIDI_IN; RACK_GRAPH_GROUP_MIDI_OUT] /\
  List.length (announcedPorts (trace refreshedEngine)) = 14%nat.
Proof. vm_compute. repeat split. Qed.

(** ** Names, API lists and devices *)

(** X16.  The MIDI API paired with an audio API is unspecified only for
    the unspecified audio API, on every platform. *)
Theorem getMatchedAudioMidiAPI_unspecified (os : TargetOS) (rtApi : RtAudio.Api) :
  getMatchedAudioMidiAPI os rtApi = RtMidi.UNSPECIFIED <-> rtApi = RtAudio.UNSPECIFIED.
Proof.
  split.
  - destruct os, rtApi; simpl; intros H; try reflexivity; discriminate.
  - intros ->. reflexivity.
Qed.

Section Names.
Context {X : Externals}.


End Names.


Lemma rtApi_eqb_eq (a b : RtAudio.Api) : rtApi_eqb a b = true <-> a = b.
Proof. split; [destruct a, b; simpl; intros H; try reflexivity; discriminate|]. intros ->. destruct b; reflexivity. Qed.

Lemma eraseFirst_NoDup (api : RtAudio.Api) (v : list RtAudio.Api) :
  NoDup v ->
  NoDup (eraseFirst api v) /\ (forall a, In a (eraseFirst api v) <-> In a v /\ a <> api).
Proof.
  induction v as [|x v IH]; intros Hnd; cbn [eraseFirst].
  - split; [constructor|]. intros a. split; [intros []|intros [[] _]].
  - inversion Hnd as [|? ? Hx Hv]; subst.
    destruct (rtApi_eqb x api) eqn:Heq.
    + apply rtApi_eqb_eq in Heq. subst x. split; [exact Hv|].
      intros a. split.
      * intros Hin. split; [now right|]. intros ->. contradiction.
      * intros [[Ha|Ha] Hne]; [congruence|exact Ha].
    + assert (Hne : x <> api) by (intros ->; rewrite (proj2 (rtApi_eqb_eq api api) eq_refl) in Heq; discriminate).
      destruct (IH Hv) as [Hnd' Hiff]. split.
      * constructor; [|exact Hnd']. intros Hin. apply Hiff in Hin. tauto.
      * intros a. split.
        -- intros [Ha|Ha]; [subst a; split; [now left|exact Hne]|].
           apply Hiff in Ha. split; [right; tauto|tauto].
        -- intros [[Ha|Ha] Hna]; [now left|right; apply Hiff; tauto].
Qed.

(** X18.  The first call of [initRtAudioAPIsIfNeeded] fixes the list of
    APIs for good.  From a compiled list without repetitions it keeps the
    order and drops exactly: JACK when the JACK library cannot be loaded,
    and ALSA, CoreAudio, ASIO and DirectSound in a build with JUCE; later
    calls change nothing, whatever the platform answers then. *)
Theorem initRtAudioAPIsIfNeeded_once (p : Platform) (g : Globals) :
  needsInit g = true ->
  NoDup (compiledApi p) ->
  let g' := initRtAudioAPIsIfNeeded p g in
  needsInit g' = false /\
  NoDup (gRtAudioApis g') /\
  (forall a,
     In a (gRtAudioApis g') <->
     In a (compiledApi p) /\
     ~ (jackbridge_is_ok p = false /\ a = RtAudio.UNIX_JACK) /\
     ~ (HAVE_JUCE p = true /\
        In a [RtAudio.LINUX_ALSA; RtAudio.MACOSX_CORE; RtAudio.WINDOWS_ASIO;
              RtAudio.WINDOWS_DS])) /\
  (forall p', initRtAudioAPIsIfNeeded p' g' = g').
Proof.
  intros Hneeds Hnd. cbv zeta. unfold initRtAudioAPIsIfNeeded. rewrite Hneeds. cbn [negb].
  cbv zeta. cbn [needsInit gRtAudioApis].
  split; [reflexivity|].
  set (v1 := if negb (jackbridge_is_ok p) then eraseFirst RtAudio.UNIX_JACK (compiledApi p)
             else compiledApi p).
  assert (H1 : NoDup v1 /\
               forall a, In a v1 <->
                         In a (compiledApi p) /\
                         ~ (jackbridge_is_ok p = false /\ a = RtAudio.UNIX_JACK)).
  { subst v1. destruct (jackbridge_is_ok p); cbn [negb].
    - split; [exact Hnd|]. intros a. split; [intros H; split; [exact H|]|tauto].
      intros [Hf _]. discriminate.
    - destruct (eraseFirst_NoDup RtAudio.UNIX_JACK _ Hnd) as [Hn Hi]. split; [exact Hn|].
      intros a. rewrite Hi. tauto. }
  destruct H1 as [Hnd1 Hiff1].
  destruct (HAVE_JUCE p).
  - destruct (eraseFirst_NoDup RtAudio.LINUX_ALSA _ Hnd1) as [Hn2 Hi2].
    destruct (eraseFirst_NoDup RtAudio.MACOSX_CORE _ Hn2) as [Hn3 Hi3].
    destruct (eraseFirst_NoDup RtAudio.WINDOWS_ASIO _ Hn3) as [Hn4 Hi4].
    destruct (eraseFirst_NoDup RtAudio.WINDOWS_DS _ Hn4) as [Hn5 Hi5].
    split; [exact Hn5|]. split; [|reflexivity].
    intros a. rewrite Hi5, Hi4, Hi3, Hi2, Hiff1. cbn [In]. split.
    + intros ((((Hc & Hj) & H2) & H3) & H4) . intuition congruence.
    + intros (Hc & Hj & Hu). repeat split; auto; intros ->; apply Hu; split; auto.
  - split; [exact Hnd1|]. split; [|reflexivity].
    intros a. rewrite Hiff1. split; [|tauto].
    intros [Hc Hj]. split; [exact Hc|]. split; [exact Hj|]. intros [Hf _]. discriminate.
Qed.

Lemma initRtAudioAPIsIfNeeded_done (p : Platform) (g : Globals) :
  needsInit g = false -> initRtAudioAPIsIfNeeded p g = g.
Proof. intros H. unfold initRtAudioAPIsIfNeeded. rewrite H. reflexivity. Qed.

Lemma apiAt_some (index : Z) (v : list RtAudio.Api) :
  apiAt index v <> None <-> 0 <= index < Z.of_nat (List.length v).
Proof.
  unfold apiAt.
  destruct (Z.leb_spec 0 index); destruct (Z.ltb_spec index (Z.of_nat (List.length v)));
    cbn [andb]; try (split; [congruence|lia]).
  split; [lia|]. intros _. apply nth_error_Some. lia.
Qed.

(** X19.  [getRtAudioApiName(index)] agrees with [getRtAudioApiCount()]:
    after the count was taken, a name comes back for exactly the indices
    below the count, and [nullptr] for every other index. *)
Theorem getRtAudioApiNameAt_in_range (p p' : Platform) (os : TargetOS) (g : Globals)
    (index : Z) :
  needsInit g = true ->
  let count := fst (getRtAudioApiCount p g) in
  let g' := snd (getRtAudioApiCount p g) in
  fst (getRtAudioApiNameAt p' os index g') <> None <-> 0 <= index < count.
Proof.
  intros Hneeds. cbv zeta. unfold getRtAudioApiCount, getRtAudioApiNameAt. cbn [fst snd].
  set (g1 := initRtAudioAPIsIfNeeded p g).
  assert (Hdone : initRtAudioAPIsIfNeeded p' g1 = g1).
  { apply initRtAudioAPIsIfNeeded_done. subst g1. unfold initRtAudioAPIsIfNeeded.
    rewrite Hneeds. reflexivity. }
  rewrite Hdone. rewrite <- apiAt_some.
  destruct (apiAt index (gRtAudioApis g1)); cbn; split; congruence.
Qed.

(** X20.  [getRtAudioApiDeviceNames(index)] is [nullptr] when the index
    is not that of an API or the API has no device at all; otherwise it
    lists, in device order, the names of the probed devices with at least
    one output channel, and nothing else. *)
Theorem getRtAudioApiDeviceNames_usable (p : Platform) (index : Z) (g : Globals) :
  let g' := initRtAudioAPIsIfNeeded p g in
  match fst (getRtAudioApiDeviceNames p index g) with
  | None =>
      apiAt index (gRtAudioApis g') = None \/
      exists api, apiAt index (gRtAudioApis g') = Some api /\ probe p api = []
  | Some names =>
      exists api,
        apiAt index (gRtAudioApis g') = Some api /\ probe p api <> [] /\
        names = map RtAudio.name (filter usableDevice (probe p api)) /\
        forall nm,
          In nm names <->
          exists d, In d (probe p api) /\ RtAudio.probed d = true /\
                    0 < RtAudio.outputChannels d /\ RtAudio.name d = nm
  end.
Proof.
  cbv zeta. unfold getRtAudioApiDeviceNames. cbv zeta.
  destruct (apiAt index (gRtAudioApis (initRtAudioAPIsIfNeeded p g))) as [api|] eqn:Hapi;
    [|left; reflexivity].
  destruct (probe p api) as [|d ds] eqn:Hdevs; cbn [List.length].
  - cbn. right. exists api. rewrite Hdevs. auto.
  - destruct (Z.of_nat (S (List.length ds)) =? 0) eqn:Hz; [apply Z.eqb_eq in Hz; lia|].
    cbn [fst]. exists api. rewrite Hdevs. split; [reflexivity|]. split; [discriminate|].
    split; [reflexivity|]. intros nm. rewrite in_map_iff. split.
    + intros (x & Hn & Hin). apply filter_In in Hin. destruct Hin as [Hin Hu].
      unfold usableDevice in Hu. apply andb_true_iff in Hu. destruct Hu as [Hp Ho].
      exists x. repeat split; auto. apply Z.gtb_lt in Ho. lia.
    + intros (x & Hin & Hp & Ho & Hn). exists x. split; [exact Hn|].
      apply filter_In. split; [exact Hin|]. unfold usableDevice. rewrite Hp. cbn [andb].
      apply Z.gtb_lt. lia.
Qed.

Lemma initRtAudioAPIs_witness :
  (needsInit initialGlobals = true /\ NoDup (compiledApi linuxBuild)) /\
  let g' := initRtAudioAPIsIfNeeded linuxBuild initialGlobals in
  needsInit g' = false /\
  NoDup (gRtAudioApis g') /\
  (forall a,
     In a (gRtAudioApis g') <->
     In a (compiledApi linuxBuild) /\
     ~ (jackbridge_is_ok linuxBuild = false /\ a = RtAudio.UNIX_JACK) /\
     ~ (HAVE_JUCE linuxBuild = true /\
        In a [RtAudio.LINUX_ALSA; RtAudio.MACOSX_CORE; RtAudio.WINDOWS_ASIO;
              RtAudio.WINDOWS_DS])) /\
  (forall p', initRtAudioAPIsIfNeeded p' g' = g').
Proof.
  assert (Hnd : NoDup (compiledApi linuxBuild)).
  { cbn. repeat constructor; cbn; intuition discriminate. }
  split; [split; [reflexivity|exact Hnd]|].
  exact (initRtAudioAPIsIfNeeded_once linuxBuild initialGlobals eq_refl Hnd).
Defined.

Lemma api_name_witness :
  needsInit initialGlobals = true /\
  (fst (getRtAudioApiNameAt linuxBuild CARLA_OS_LINUX 1
          (snd (getRtAudioApiCount linuxBuild initialGlobals))) <> None
   <-> 0 <= 1 < fst (getRtAudioApiCount linuxBuild initialGlobals)).
Proof.
  split; [reflexivity|].
  exact (getRtAudioApiNameAt_in_range linuxBuild linuxBuild CARLA_OS_LINUX initialGlobals 1
           eq_refl).
Defined.

Example api_list_on_linuxBuild :
  fst (getRtAudioApiCount linuxBuild initialGlobals) = 2 /\
  fst (getRtAudioApiNameAt linuxBuild CARLA_OS_LINUX 1 initialGlobals) = Some "PulseAudio"%string /\
  fst (getRtAudioApiNameAt linuxBuild CARLA_OS_LINUX 2 initialGlobals) = None /\
  fst (getRtAudioApiDeviceNames linuxBuild 0 initialGlobals) = Some ["hw:0"%string].
Proof. vm_compute. repeat split. Qed.

Section DeviceSelection.
Context {X : Externals}.

Lemma initStream_success_fields (n : Native) (clientName : string) (deviceSet : bool)
    (iParams oParams : RtAudio.StreamParameters) (e e' : Engine) :
  initStream n clientName deviceSet iParams oParams e = (true, e') ->
  fDeviceName e' = fDeviceName e /\
  fAudioInCount e' = RtAudio.nChannels iParams /\
  fAudioOutCount e' = RtAudio.nChannels oParams.
Proof.
  unfold initStream. cbv zeta.
  destruct (openStream n) as [[bufferFrames rate]|what]; [|discriminate].
  destruct (startStream n) as [[]|what].
  - match goal with |- context [CarlaEngine_init ?a ?b ?c] =>
      destruct (CarlaEngine_init a b c) as [rack b'] end.
    match goal with |- context [patchbayRefresh n ?e1] =>
      pose proof (patchbayRefresh_keeps fDeviceName n e1
                    ltac:(reflexivity) ltac:(reflexivity) ltac:(reflexivity)) as Hd;
      pose proof (patchbayRefresh_keeps fAudioInCount n e1
                    ltac:(reflexivity) ltac:(reflexivity) ltac:(reflexivity)) as Hi;
      pose proof (patchbayRefresh_keeps fAudioOutCount n e1
                    ltac:(reflexivity) ltac:(reflexivity) ltac:(reflexivity)) as Ho;
      destruct (patchbayRefresh n e1) as [ok e2] end.
    cbn [snd] in Hd, Hi, Ho.
    intros H. injection H as <-. rewrite Hd, Hi, Ho. repeat split.
  - match goal with |- context [close n ?e1] => destruct (close n e1) as [ok e1'] end.
    discriminate.
Qed.

Lemma findDevice_spec (wanted : string) (devs : list RtAudio.DeviceInfo) (i : Z) :
  match findDevice wanted devs i with
  | Some (j, d) =>
      exists k, j = i + Z.of_nat k /\ nth_error devs k = Some d /\
                usableDevice d = true /\ RtAudio.name d = wanted /\
                forall k' d', (k' < k)%nat -> nth_error devs k' = Some d' ->
                              usableDevice d' = false \/ RtAudio.name d' <> wanted
  | None => ~ In wanted (map RtAudio.name (filter usableDevice devs))
  end.
Proof.
  revert i. induction devs as [|d devs IH]; intros i; cbn [findDevice].
  - intros [].
  - fold (usableDevice d).
    destruct (usableDevice d) eqn:Hu; cbn [andb].
    + destruct (String.eqb_spec (RtAudio.name d) wanted) as [Hn|Hn].
      * exists 0%nat. repeat split; auto; [lia|]. intros k' d' Hlt. lia.
      * specialize (IH (i + 1)). destruct (findDevice wanted devs (i + 1)) as [[j d0]|].
        -- destruct IH as (k & Hj & Hk & Hu0 & Hn0 & Hfirst).
           exists (S k). repeat split; auto; [lia|].
           intros k' d' Hlt Hnth. destruct k' as [|k'].
           ++ cbn in Hnth. injection Hnth as <-. right. exact Hn.
           ++ cbn in Hnth. apply (Hfirst k' d'); [lia|exact Hnth].
        -- cbn [filter]. rewrite Hu. cbn [map In]. intros [H|H]; [contradiction|].
           apply IH. exact H.
    + specialize (IH (i + 1)). destruct (findDevice wanted devs (i + 1)) as [[j d0]|].
      * destruct IH as (k & Hj & Hk & Hu0 & Hn0 & Hfirst).
        exists (S k). repeat split; auto; [lia|].
        intros k' d' Hlt Hnth. destruct k' as [|k'].
        -- cbn in Hnth. injection Hnth as <-. left. exact Hu.
        -- cbn in Hnth. apply (Hfirst k' d'); [lia|exact Hnth].
      * cbn [filter]. rewrite Hu. exact IH.
Qed.

(** X21.  The device [init] opens for a configured device name.  If the
    name is one of those [getRtAudioApiDeviceNames] lists for the devices
    at hand, a successful [init] has opened the first probed device with
    outputs that bears it: [fDeviceName] is that name and the channel
    counts are that device's.  If it is not, the default devices are used
    instead, without an error, and [fDeviceName] is left as it was. *)
Theorem init_opens_listed_device (n : Native) (clientName : option string) (wanted : string)
    (e e' : Engine) :
  init n clientName e = (true, e') ->
  audioDevice (options e) = Some wanted ->
  wanted <> ""%string ->
  (In wanted (map RtAudio.name (filter usableDevice (devices n))) /\
   fDeviceName e' = wanted /\
   exists k d,
     nth_error (devices n) k = Some d /\
     RtAudio.probed d = true /\ 0 < RtAudio.outputChannels d /\ RtAudio.name d = wanted /\
     (forall k' d', (k' < k)%nat -> nth_error (devices n) k' = Some d' ->
                    usableDevice d' = false \/ RtAudio.name d' <> wanted) /\
     fAudioInCount e' = RtAudio.inputChannels d /\
     fAudioOutCount e' = RtAudio.outputChannels d)
  \/
  (~ In wanted (map RtAudio.name (filter usableDevice (devices n))) /\
   fDeviceName e' = fDeviceName e /\
   fAudioInCount e' = RtAudio.inputChannels (getDeviceInfo n (defaultInputDevice n)) /\
   fAudioOutCount e' = RtAudio.outputChannels (getDeviceInfo n (defaultOutputDevice n))).
Proof.
  intros Hinit Hopt Hne. unfold init in Hinit.
  destruct (negb (fAudioInCount e =? 0)); [discriminate|].
  destruct (negb (fAudioOutCount e =? 0)); [discriminate|].
  destruct (negb (fLastEventTime e =? 0)); [discriminate|].
  destruct clientName as [[|c cn]|]; try discriminate.
  destruct (isSupportedMode (processMode (options e))); [|discriminate].
  cbn [negb] in Hinit.
  destruct (Z.of_nat (List.length (devices n)) =? 0); [discriminate|].
  cbv zeta in Hinit. rewrite Hopt in Hinit.
  destruct wanted as [|w ws]; [congruence|].
  pose proof (findDevice_spec (String w ws) (devices n) 0) as Hfind.
  destruct (findDevice (String w ws) (devices n) 0) as [[i d]|].
  - destruct Hfind as (k & Hi & Hk & Hu & Hn & Hfirst).
    cbn [RtAudio.nChannels] in Hinit.
    destruct (RtAudio.outputChannels d =? 0); [discriminate|].
    apply initStream_success_fields in Hinit. destruct Hinit as (Hd & Hic & Hoc).
    cbn in Hd, Hic, Hoc.
    left. split.
    + apply in_map_iff. exists d. split; [exact Hn|]. apply filter_In. split; [|exact Hu].
      eapply nth_error_In. exact Hk.
    + split; [congruence|]. exists k, d.
      unfold usableDevice in Hu. apply andb_true_iff in Hu. destruct Hu as [Hp Ho].
      apply Z.gtb_lt in Ho. repeat split; auto; lia.
  - cbn [RtAudio.nChannels] in Hinit.
    destruct (RtAudio.outputChannels (getDeviceInfo n (defaultOutputDevice n)) =? 0);
      [discriminate|].
    apply initStream_success_fields in Hinit. destruct Hinit as (Hd & Hic & Hoc).
    cbn in Hd, Hic, Hoc.
    right. repeat split; auto.
Qed.

End DeviceSelection.

Lemma init_listed_device_witness :
  let r := @init (plainExternals 512) studioBox (Some "Carla"%string) (usbEngine 512) in
  let e := usbEngine 512 in
  let e' := snd r in
  let n := studioBox in
  let wanted := "USB"%string in
  (r = (true, e') /\ audioDevice (options e) = Some wanted /\ wanted <> ""%string) /\
  ((In wanted (map RtAudio.name (filter usableDevice (devices n))) /\
    fDeviceName e' = wanted /\
    exists k d,
      nth_error (devices n) k = Some d /\
      RtAudio.probed d = true /\ 0 < RtAudio.outputChannels d /\ RtAudio.name d = wanted /\
      (forall k' d', (k' < k)%nat -> nth_error (devices n) k' = Some d' ->
                     usableDevice d' = false \/ RtAudio.name d' <> wanted) /\
      fAudioInCount e' = RtAudio.inputChannels d /\
      fAudioOutCount e' = RtAudio.outputChannels d)
   \/
   (~ In wanted (map RtAudio.name (filter usableDevice (devices n))) /\
    fDeviceName e' = fDeviceName e /\
    fAudioInCount e' = RtAudio.inputChannels (getDeviceInfo n (defaultInputDevice n)) /\
    fAudioOutCount e' = RtAudio.outputChannels (getDeviceInfo n (defaultOutputDevice n)))).
Proof.
  cbv zeta.
  assert (H : @init (plainExternals 512) studioBox (Some "Carla"%string) (usbEngine 512)
              = (true, snd (@init (plainExternals 512) studioBox (Some "Carla"%string)
                                  (usbEngine 512))))
    by (vm_compute; reflexivity).
  assert (Hne : "USB"%string <> ""%string) by discriminate.
  split; [split; [exact H|split; [reflexivity|exact Hne]]|].
  exact (@init_opens_listed_device (plainExternals 512) studioBox (Some "Carla"%string)
           "USB"%string (usbEngine 512) _ H eq_refl Hne).
Defined.

Example init_on_studioBox :
  let e' := snd (@init (plainExternals 512) studioBox (Some "Carla"%string) (usbEngine 512)) in
  fDeviceName e' = "USB"%string /\ fAudioInCount e' = 1 /\ fAudioOutCount e' = 4.
Proof. vm_compute. repeat split. Qed.

Lemma findNamed_spec (deviceName : string) (devs : list RtAudio.DeviceInfo) (i : Z) :
  match findNamed deviceName devs i with
  | Some j =>
      exists k d, j = i + Z.of_nat k /\ nth_error devs k = Some d /\
                  RtAudio.name d = deviceName /\
                  forall k' d', (k' < k)%nat -> nth_error devs k' = Some d' ->
                                RtAudio.name d' <> deviceName
  | None => ~ In deviceName (map RtAudio.name devs)
  end.
Proof.
  revert i. induction devs as [|d devs IH]; intros i; cbn [findNamed].
  - intros [].
  - destruct (String.eqb_spec (RtAudio.name d) deviceName) as [Hn|Hn].
    + exists 0%nat, d. repeat split; auto; [lia|]. intros k' d' Hlt. lia.
    + specialize (IH (i + 1)). destruct (findNamed deviceName devs (i + 1)) as [j|].
      * destruct IH as (k & d0 & Hj & Hk & Hn0 & Hfirst).
        exists (S k), d0. repeat split; auto; [lia|].
        intros k' d' Hlt Hnth. destruct k' as [|k'].
        -- cbn in Hnth. injection Hnth as <-. exact Hn.
        -- cbn in Hnth. apply (Hfirst k' d'); [lia|exact Hnth].
      * cbn [map In]. intros [H|H]; [contradiction|]. apply IH. exact H.
Qed.

(** X22.  Every device name that [getRtAudioApiDeviceNames] lists for an
    API has a device info record: [getRtAudioDeviceInfo] does not return
    [nullptr] for it.  The record has no hints, the fixed table of buffer
    sizes, and a list of sample rates that ends with 0.0: the rates of the
    first device of that name, probed or not, or the fixed table when that
    device reports none. *)
Theorem getRtAudioDeviceInfo_of_listed_name (p : Platform) (index : Z) (g : Globals)
    (names : list string) (deviceName : string) :
  fst (getRtAudioApiDeviceNames p index g) = Some names ->
  In deviceName names ->
  exists api k d info,
    apiAt index (gRtAudioApis (initRtAudioAPIsIfNeeded p g)) = Some api /\
    nth_error (probe p api) k = Some d /\ RtAudio.name d = deviceName /\
    (forall k' d', (k' < k)%nat -> nth_error (probe p api) k' = Some d' ->
                   RtAudio.name d' <> deviceName) /\
    fst (getRtAudioDeviceInfo p index deviceName g) = Some info /\
    hints info = 0 /\ bufferSizes info = dummyBufferSizes /\
    sampleRates info
      = match deviceSampleRates p api (Z.of_nat k) with
        | [] => dummySampleRates
        | rates => map double_of_uint rates ++ [0%float]
        end /\
    last (sampleRates info) 1%float = 0%float.
Proof.
  unfold getRtAudioApiDeviceNames, getRtAudioDeviceInfo. cbv zeta.
  destruct (apiAt index (gRtAudioApis (initRtAudioAPIsIfNeeded p g))) as [api|];
    [|discriminate].
  destruct (Z.of_nat (List.length (probe p api)) =? 0); [discriminate|].
  cbn [fst]. intros Hnames Hin. injection Hnames as <-.
  pose proof (findNamed_spec deviceName (probe p api) 0) as Hfind.
  destruct (findNamed deviceName (probe p api) 0) as [j|].
  - destruct Hfind as (k & d & Hj & Hk & Hn & Hfirst).
    exists api, k, d. eexists. cbn [fst hints bufferSizes sampleRates].
    replace j with (Z.of_nat k) by lia.
    repeat split; auto.
    + destruct (deviceSampleRates p api (Z.of_nat k)); reflexivity.
    + destruct (deviceSampleRates p api (Z.of_nat k)) as [|r rates]; [reflexivity|].
      cbn [List.length negb]. 
      destruct (Z.of_nat (S (List.length rates)) =? 0) eqn:Hz; [apply Z.eqb_eq in Hz; lia|].
      cbn [negb]. apply last_last.
  - exfalso. apply Hfind. apply in_map_iff in Hin. destruct Hin as (d & Hn & Hd).
    apply filter_In in Hd. apply in_map_iff. exists d. tauto.
Qed.

Lemma device_info_witness :
  let names := map RtAudio.name (filter usableDevice (devices studioBox)) in
  (fst (getRtAudioApiDeviceNames studioBuild 0 initialGlobals) = Some names /\
   In "USB"%string names) /\
  exists api k d info,
    apiAt 0 (gRtAudioApis (initRtAudioAPIsIfNeeded studioBuild initialGlobals)) = Some api /\
    nth_error (probe studioBuild api) k = Some d /\ RtAudio.name d = "USB"%string /\
    (forall k' d', (k' < k)%nat -> nth_error (probe studioBuild api) k' = Some d' ->
                   RtAudio.name d' <> "USB"%string) /\
    fst (getRtAudioDeviceInfo studioBuild 0 "USB" initialGlobals) = Some info /\
    hints info = 0 /\ bufferSizes info = dummyBufferSizes /\
    sampleRates info
      = match deviceSampleRates studioBuild api (Z.of_nat k) with
        | [] => dummySampleRates
        | rates => map double_of_uint rates ++ [0%float]
        end /\
    last (sampleRates info) 1%float = 0%float.
Proof.
  cbv zeta.
  assert (Hin : In "USB"%string (map RtAudio.name (filter usableDevice (devices studioBox))))
    by (left; reflexivity).
  split; [split; [reflexivity|exact Hin]|].
  exact (getRtAudioDeviceInfo_of_listed_name studioBuild 0 initialGlobals _ "USB"%string
           eq_refl Hin).
Defined.

Example device_info_on_studioBuild :
  option_map sampleRates (fst (getRtAudioDeviceInfo studioBuild 0 "USB" initialGlobals))
    = Some dummySampleRates /\
  fst (getRtAudioDeviceInfo studioBuild 0 "Line" initialGlobals) = None.
Proof. vm_compute. repeat split. Qed.

Section MidiPipeline.
Context {X : Externals}.

Lemma midiCalls_queue (cs : list MidiCall) (e : Engine) :
  kDataSize < 256 ->
  (forall k, (k < List.length (data_ (fMidiInEvents e))
                  + List.length (dataPending (fMidiInEvents e)) + List.length cs)%nat ->
             pool_allocate k = true) ->
  data_ (fMidiInEvents (midiCalls cs e)) = data_ (fMidiInEvents e) /\
  exists evs,
    dataPending (fMidiInEvents (midiCalls cs e)) = dataPending (fMidiInEvents e) ++ evs /\
    map (fun ev => fillFromMidiData (size ev) (data ev) zeroPayload) evs
      = map deliveredPayload (filter acceptedCall cs).
Proof.
  intros Hmax. revert e. induction cs as [|c cs IH]; intros e Hpool.
  - split; [reflexivity|]. exists []. split; [symmetry; apply app_nil_r|reflexivity].
  - change (midiCalls (c :: cs) e) with (midiCalls cs (midiCall c e)).
    cbn [filter]. unfold acceptedCall at 1. cbv zeta.
    set (e0 := set_audio_isReady (seen_isReady c)
                 (set_bufferSize (seen_bufferSize c) (set_timeInfo_frame (seen_frame c) e))).
    assert (Hq0 : fMidiInEvents e0 = fMidiInEvents e) by reflexivity.
    assert (Hr0 : audio_isReady e0 = seen_isReady c) by reflexivity.
    assert (Hstep : midiCall c e = handleMidiCallback (call_timeStamp c) (call_message c) e0)
      by reflexivity.
    destruct (seen_isReady c) eqn:Hready; cbn [andb].
    + destruct ((Z.of_nat (List.length (call_message c)) =? 0)
                || (Z.of_nat (List.length (call_message c)) >? kDataSize)) eqn:Hsz; cbn [negb].
      * assert (Hsame : fMidiInEvents (midiCall c e) = fMidiInEvents e).
        { rewrite Hstep. unfold handleMidiCallback. rewrite Hr0. cbn [negb]. rewrite Hsz.
          exact Hq0. }
        specialize (IH (midiCall c e)). rewrite Hsame in IH. apply IH.
        intros k Hk. apply Hpool. cbn [List.length]. lia.
      * apply orb_false_iff in Hsz. destruct Hsz as [Hz Hbig].
        assert (Hpush : exists ev,
                   fMidiInEvents (midiCall c e)
                     = {| data_ := data_ (fMidiInEvents e);
                          dataPending := dataPending (fMidiInEvents e) ++ [ev] |} /\
                   size ev = Z.of_nat (List.length (call_message c)) /\
                   data ev = midiEventData (call_message c)).
        { rewrite Hstep. unfold handleMidiCallback. rewrite Hr0. cbn [negb]. rewrite Hz, Hbig.
          cbn [orb].
          assert (Ha : pool_allocate (List.length (data_ (fMidiInEvents e))
                                      + List.length (dataPending (fMidiInEvents e)))%nat = true).
          { apply Hpool. cbn [List.length]. lia. }
          assert (Hfit : 0 <= Z.of_nat (List.length (call_message c)) < 256).
          { destruct (Z.gtb_spec (Z.of_nat (List.length (call_message c))) kDataSize);
              [discriminate|lia]. }
          destruct (midiEventTime (call_timeStamp c) e0 <? fLastEventTime e0);
            cbn [fMidiInEvents set_fMidiInEvents set_fLastEventTime];
            unfold appendNonRT; rewrite Hq0, Ha; eexists;
            (split; [reflexivity|]); cbn [size data];
            (split; [apply Z.mod_small; exact Hfit|reflexivity]). }
        destruct Hpush as (ev & Hq & Hs & Hd).
        specialize (IH (midiCall c e)). rewrite Hq in IH. cbn [data_ dataPending] in IH.
        destruct IH as (Hdata & evs & Hpend & Hmap).
        { intros k Hk. apply Hpool. rewrite length_app in Hk. cbn [List.length] in *. lia. }
        split; [exact Hdata|]. exists (ev :: evs). split.
        -- rewrite Hpend, <- app_assoc. reflexivity.
        -- cbn [map]. rewrite Hmap. unfold deliveredPayload at 1. rewrite Hs, Hd. reflexivity.
    + assert (Hsame : fMidiInEvents (midiCall c e) = fMidiInEvents e).
      { rewrite Hstep. unfold handleMidiCallback. rewrite Hr0. exact Hq0. }
      specialize (IH (midiCall c e)). rewrite Hsame in IH. apply IH.
      intros k Hk. apply Hpool. cbn [List.length]. lia.
Qed.

(** X23.  MIDI input from end to end.  Starting with an empty queue and a
    pool that does not run out, a sequence of MIDI callbacks followed by an
    audio cycle that processes and gets the lock leaves in
    [pData->events.in] the payloads of exactly the messages that passed
    the callback's tests (driver ready, size between 1 and [kDataSize]), in
    their order of arrival, cut at the capacity, the remaining slots zero;
    and both partitions of the queue are empty again. *)
Theorem midi_in_end_to_end (cs : list MidiCall) (outs : list Sample)
    (inputBuffer : option (list Sample)) (nframes : Z) (e : Engine) :
  0 < kMaxEngineEventInternalCount < 2 ^ 32 ->
  kDataSize < 256 ->
  fMidiInEvents e = {| data_ := []; dataPending := [] |} ->
  (forall k, (k < List.length cs)%nat -> pool_allocate k = true) ->
  bufferSize (midiCalls cs e) = nframes ->
  audio_isReady (midiCalls cs e) = true ->
  let capacity := Z.to_nat kMaxEngineEventInternalCount in
  let accepted := filter acceptedCall cs in
  let e' := fst (handleAudioProcessCallback (Some outs) inputBuffer nframes true
                   (midiCalls cs e)) in
  map ev_payload (events_in e')
    = map deliveredPayload (firstn capacity accepted)
      ++ repeat zeroPayload (capacity - List.length accepted) /\
  fMidiInEvents e' = {| data_ := []; dataPending := [] |}.
Proof.
  intros Hmax Hdata Hempty Hpool Hsize Hready capacity accepted e'.
  destruct (midiCalls_queue cs e Hdata) as (Hd & evs & Hp & Hmap).
  { rewrite Hempty. exact Hpool. }
  rewrite Hempty in Hd, Hp. cbn [data_ dataPending app] in Hd, Hp.
  destruct (processing_cycle_state outs inputBuffer nframes true (midiCalls cs e)
              Hsize Hready) as (Hev & _ & Hq & _).
  fold e' in Hev, Hq. split.
  - rewrite Hev.
    destruct (beforeProcessing_translation nframes (midiCalls cs e) Hmax) as [Htr _].
    etransitivity; [apply f_equal; exact Htr|].
    rewrite Hd, Hp. cbn [app]. fold capacity.
    rewrite map_app, map_map, map_repeat.
    change (ev_payload zeroEvent) with zeroPayload.
    assert (Hlen : List.length evs = List.length accepted).
    { apply (f_equal (@List.length _)) in Hmap. rewrite !length_map in Hmap. exact Hmap. }
    rewrite Hlen. f_equal.
    change (fun x : RtMidiEvent => ev_payload (translatedEvent (timeInfo_frame (midiCalls cs e))
                                                               nframes x))
      with (fun ev : RtMidiEvent => fillFromMidiData (size ev) (data ev) zeroPayload).
    rewrite <- !firstn_map. f_equal. exact Hmap.
  - rewrite Hq. unfold beforeProcessing. apply drainMidiInEvents_queue.
Qed.

End MidiPipeline.

Lemma midi_in_witness :
  let e := set_audio_isReady true (freshEngine 2) in
  let cs := mixedCalls in
  let e1 := @midiCalls (plainExternals 2) cs e in
  let e' := fst (@handleAudioProcessCallback (plainExternals 2) (Some [])
                   None 512 true e1) in
  (0 < @kMaxEngineEventInternalCount (plainExternals 2) < 2 ^ 32 /\
   @kDataSize (plainExternals 2) < 256 /\
   fMidiInEvents e = {| data_ := []; dataPending := [] |} /\
   bufferSize e1 = 512 /\ audio_isReady e1 = true) /\
  map ev_payload (events_in e')
    = map (@deliveredPayload (plainExternals 2))
          (firstn 2 (filter (@acceptedCall (plainExternals 2)) cs))
      ++ repeat (@zeroPayload (plainExternals 2))
                (2 - List.length (filter (@acceptedCall (plainExternals 2)) cs)) /\
  fMidiInEvents e' = {| data_ := []; dataPending := [] |}.
Proof.
  cbv zeta.
  assert (Hmax : 0 < @kMaxEngineEventInternalCount (plainExternals 2) < 2 ^ 32)
    by (cbn; lia).
  assert (Hdata : @kDataSize (plainExternals 2) < 256) by (cbn; lia).
  assert (Hpool : forall k, (k < List.length mixedCalls)%nat ->
                            @pool_allocate (plainExternals 2) k = true).
  { intros k Hk. cbn in Hk. cbn. apply Nat.leb_le. lia. }
  split; [repeat split; try reflexivity; cbn; lia|].
  exact (@midi_in_end_to_end (plainExternals 2) mixedCalls [] None 512
           (set_audio_isReady true (freshEngine 2)) Hmax Hdata eq_refl Hpool
           eq_refl eq_refl).
Defined.

Example midi_in_on_mixedCalls :
  map ev_payload
      (events_in (fst (@handleAudioProcessCallback (plainExternals 2) (Some []) None 512 true
                         (@midiCalls (plainExternals 2) mixedCalls
                            (set_audio_isReady true (freshEngine 2))))))
    = [(3, [144; 60; 100; 0]); (3, [128; 60; 0; 0])].
Proof. vm_compute. reflexivity. Qed.

Section Restart.
Context {X : Externals}.







End Restart.

